(** * Cloud2FEM: the geometric reconstruction pipeline

    A shallow embedding of [Cloud2Polygons.py] and [Polygons2FEM.py]:
    level generation, slicing, centroid tracing, polylines, polygon
    building, voxel meshing and the two exports, with the copy dialog of
    [main_Cloud2FEM.py] that edits the polylines between two steps.

    Conventions of the embedding.
    - Python floats are exact rationals ([Q]); the float comparison [==]
      is [Qeq_bool], so rounding is outside the model.  [np.sqrt(d) <= r]
      is written [0 <= r] and [d <= r * r].  The node table of
      [make_mesh], a [float32] array in the source, keeps its rows exact.
    - A raised exception is the outcome [Raise e]; a [while True] loop
      runs on fuel and reports [OutOfFuel] when the fuel is exhausted.
    - A dict keyed by a z coordinate is an association list in insertion
      order, looked up with the float comparison.
    - The Shapely geometry engine is an interface (classes [Shapely] and
      [LineStrings]), and so is the ezdxf document (class [Ezdxf]).
    - A text file is the string written to it; a DXF file is the list of
      the entities of its model space. *)

From Stdlib Require Import QArith Qround Qabs Lqa ZArith Lia Permutation Sorted.
From Stdlib Require Import String Ascii Decimal DecimalString DecimalNat.
From stdpp Require Import base option list sorting.

Open Scope Q_scope.

(** ** Python: exceptions and outcomes *)

Inductive exn : Type :=
| KeyError | IndexError | ValueError | TypeError
| ZeroDivisionError | UnboundLocalError.

Inductive outcome (A : Type) : Type :=
| Ok (a : A)
| Raise (e : exn)
| OutOfFuel.
Arguments Ok {A} a.
Arguments Raise {A} e.
Arguments OutOfFuel {A}.

#[global] Instance outcome_ret : MRet outcome := fun A a => Ok a.
#[global] Instance outcome_bind : MBind outcome := fun A B f m =>
  match m with
  | Ok a => f a
  | Raise e => Raise e
  | OutOfFuel => OutOfFuel
  end.

(** [for x in l: st = body(st, x)], stopping at the first exception. *)
Fixpoint for_each {S X : Type} (body : S -> X -> outcome S) (l : list X) (st : S)
  : outcome S :=
  match l with
  | [] => Ok st
  | x :: l' => st' ← body st x; for_each body l' st'
  end.

Module py.

(** [int(c)] on a number: truncation toward zero. *)
Definition int (c : Q) : Z := Z.quot (Qnum c) (Zpos (Qden c)).

(** [l[i]] for a possibly negative index [i]. *)
Definition getitem {A : Type} (l : list A) (i : Z) : outcome A :=
  let n := Z.of_nat (length l) in
  let j := if (i <? 0)%Z then (n + i)%Z else i in
  if (j <? 0)%Z then Raise IndexError
  else match l !! Z.to_nat j with
       | Some a => Ok a
       | None => Raise IndexError
       end.

(** Dicts with float keys, in insertion order. *)
Definition dict (V : Type) : Type := list (Q * V).

Fixpoint get {V : Type} (k : Q) (d : dict V) : outcome V :=
  match d with
  | [] => Raise KeyError
  | (k', v) :: d' => if Qeq_bool k' k then Ok v else get k d'
  end.

Fixpoint set {V : Type} (k : Q) (v : V) (d : dict V) : dict V :=
  match d with
  | [] => [(k, v)]
  | (k', v') :: d' => if Qeq_bool k' k then (k', v) :: d' else (k', v') :: set k v d'
  end.

Definition has {V : Type} (k : Q) (d : dict V) : bool :=
  existsb (fun kv => Qeq_bool (fst kv) k) d.

(** [round(x)]: the nearest integer, a tie going to the even one. *)
Definition round (x : Q) : Z :=
  let f := Qfloor x in
  let r := x - inject_Z f in
  if negb (Qle_bool (1 # 2) r) then f
  else if negb (Qle_bool r (1 # 2)) then (f + 1)%Z
  else if Z.even f then f else (f + 1)%Z.

(** [str(int(x))] of a non-negative integer. *)
Definition str_int (n : nat) : string := NilEmpty.string_of_uint (Nat.to_uint n).

(** The newline character. *)
Definition nl : string := String (ascii_of_nat 10) EmptyString.

(** Padding with zeros on the left up to the width [w]. *)
Definition zfill (w : nat) (s : string) : string :=
  (String.concat EmptyString (replicate (w - String.length s) "0") ++ s)%string.

(** ["%.8f" % x]: the decimal expansion rounded to eight places. *)
Definition fmt8f (x : Q) : string :=
  let n := round (Qabs x * 100000000) in
  ((if Qle_bool 0 x then "" else "-")
   ++ str_int (Z.to_nat (n / 100000000)) ++ "."
   ++ zfill 8 (str_int (Z.to_nat (n mod 100000000))))%string.

End py.

(** ** NumPy: the array operations the pipeline calls *)

Module np.

(** [start + np.arange(0, n) * step]. *)
Definition ramp (start step : Q) (n : nat) : list Q :=
  map (fun i : nat => start + inject_Z (Z.of_nat i) * step) (seq 0 n).

(** [np.linspace(start, stop, num)], endpoint included. *)
Definition linspace (start stop : Q) (num : Z) : outcome (list Q) :=
  if (num <? 0)%Z then Raise ValueError
  else if (num =? 1)%Z then Ok [start]
  else Ok (ramp start ((stop - start) / inject_Z (num - 1)) (Z.to_nat num)).

(** [np.arange(start, stop, step)]: [ceil((stop - start) / step)] values. *)
Definition arange (start stop step : Q) : outcome (list Q) :=
  if Qeq_bool step 0 then Raise ZeroDivisionError
  else Ok (ramp start step (Z.to_nat (Qceiling ((stop - start) / step)))).

(** [a[mask]]: the rows of [a] where the boolean mask is set. *)
Fixpoint compress {A : Type} (mask : list bool) (a : list A) : list A :=
  match mask, a with
  | b :: mask', x :: a' => if b then x :: compress mask' a' else compress mask' a'
  | _, _ => []
  end.

(** [np.flatnonzero(mask)], counted from [i]. *)
Fixpoint nonzero_from (i : nat) (mask : list bool) : list nat :=
  match mask with
  | [] => []
  | b :: mask' => if b then i :: nonzero_from (S i) mask' else nonzero_from (S i) mask'
  end.
Definition flatnonzero (mask : list bool) : list nat := nonzero_from 0 mask.

(** [np.argmin(a)]: the first index of the minimum; empty input raises. *)
Fixpoint argmin_from (i : nat) (best : nat) (vbest : Q) (a : list Q) : nat :=
  match a with
  | [] => best
  | v :: a' =>
      if Qlt_le_dec v vbest then argmin_from (S i) i v a'
      else argmin_from (S i) best vbest a'
  end.
Definition argmin (a : list Q) : outcome nat :=
  match a with
  | [] => Raise ValueError
  | v :: a' => Ok (argmin_from 1 0 v a')
  end.

(** [a.mean()] of a non-empty column. *)
Definition mean (a : list Q) : Q :=
  fold_right Qplus 0 a / inject_Z (Z.of_nat (length a)).

(** [np.split(a, indices)]: the pieces [a[0:i1]], [a[i1:i2]], ..., [a[ik:]]. *)
Fixpoint split_from {A : Type} (start : nat) (indices : list nat) (a : list A)
  : list (list A) :=
  match indices with
  | [] => [drop start a]
  | i :: rest => take (i - start) (drop start a) :: split_from i rest a
  end.

Definition split {A : Type} (a : list A) (indices : list nat) : list (list A) :=
  split_from 0 indices a.

(** [np.nanpercentile(a, q)] of an integer array, by linear interpolation
    between the two nearest ranks; [None] is the [nan] of an empty array. *)
Definition nanpercentile (a : list nat) (q : Q) : outcome (option Q) :=
  if negb (Qle_bool 0 q && Qle_bool q 100) then Raise ValueError
  else match a with
       | [] => Ok None
       | _ :: _ =>
           let s := merge_sort le a in
           let idx := inject_Z (Z.of_nat (length a - 1)) * (q / 100) in
           let lo := Z.to_nat (Qfloor idx) in
           let g := idx - inject_Z (Qfloor idx) in
           match s !! lo, s !! Nat.min (S lo) (length a - 1) with
           | Some u, Some v =>
               let u := inject_Z (Z.of_nat u) in
               let v := inject_Z (Z.of_nat v) in
               Ok (Some (u + g * (v - u)))
           | _, _ => Raise IndexError
           end
       end.

End np.

(** ** Cloud2Polygons.py *)

Module Cloud2Polygons.

(** [make_zcoords(a, b, c, d)]: with [d = 3] (or any other selector) no
    branch binds [zcoords] and the [return] raises. *)
Definition make_zcoords (a b c : Q) (d : Z) : outcome (list Q) :=
  if (d =? 1)%Z then np.linspace a b (py.int c)
  else if (d =? 2)%Z then np.arange a b c
  else Raise UnboundLocalError.

(** [n] linearly spaced values between the bounds, both included. *)
Definition linearly_spaced (a b : Q) (n : Z) (l : list Q) : Prop :=
  length l = Z.to_nat n /\
  (forall i x, l !! i = Some x -> a <= x <= b) /\
  (exists x, l !! 0%nat = Some x /\ x == a) /\
  ((2 <= n)%Z ->
     (forall i x, l !! i = Some x ->
        x == a + inject_Z (Z.of_nat i) * ((b - a) / inject_Z (n - 1))) /\
     (exists x, last l = Some x /\ x == b)).

(** The arithmetic sequence from [a] with step [c], up to [b] excluded. *)
Definition arithmetic_below (a b c : Q) (l : list Q) : Prop :=
  (forall i x, l !! i = Some x ->
     x == a + inject_Z (Z.of_nat i) * c /\ a <= x < b) /\
  (forall i : nat, a + inject_Z (Z.of_nat i) * c < b -> is_Some (l !! i)).

(** The configurations the specification calls invalid: selector [d] is
    the fixed-count rule (1) or the fixed-step rule (2). *)
Definition invalid_range (a b c : Q) (d : Z) : Prop :=
  ((d = 1 \/ d = 2)%Z /\ b <= a) \/
  (d = 1%Z /\ (py.int c < 1)%Z) \/
  (d = 2%Z /\ c <= 0).

(** A row [[x, y, z]] of the point cloud and its columns. *)
Definition row3 : Type := Q * Q * Q.
Definition col0 (p : row3) : Q := p.1.1.
Definition col1 (p : row3) : Q := p.1.2.
Definition col2 (p : row3) : Q := p.2.

(** [np.logical_and(pcl[:, 2] >= z - thick/2, pcl[:, 2] <= z + thick/2)],
    one row at a time. *)
Definition in_band (z thick : Q) (p : row3) : bool :=
  Qle_bool (z - thick / 2) (col2 p) && Qle_bool (col2 p) (z + thick / 2).

(** [invmask *= m]: elementwise product in place; a one-element [m] is
    broadcast, any other shape mismatch raises. *)
Definition imul (invmask m : list bool) : outcome (list bool) :=
  if (length m =? length invmask)%nat then Ok (zip_with andb invmask m)
  else match m with
       | [b] => Ok (map (fun i => i && b) invmask)
       | _ => Raise ValueError
       end.

(** [a[mask, :]]: the mask must have one entry per row. *)
Definition getmask {A : Type} (mask : list bool) (a : list A) : outcome (list A) :=
  if (length mask =? length a)%nat then Ok (np.compress mask a)
  else Raise IndexError.

Definition slice_step (pcl : list row3) (thick : Q)
    (st : py.dict (list row3) * list bool) (z : Q)
  : outcome (py.dict (list row3) * list bool) :=
  let mask := map (in_band z thick) pcl in
  let slices := py.set z (np.compress mask pcl) st.1 in
  invmask ← imul st.2 (map negb mask);
  Ok (slices, invmask).

Definition make_slices (zcoords : list Q) (pcl : list row3) (thick : Q) (npts : nat)
  : outcome (py.dict (list row3) * list row3) :=
  st ← for_each (slice_step pcl thick) zcoords ([], replicate npts true);
  netpcl ← getmask st.2 pcl;
  Ok (st.1, netpcl).

(** The row lies in no band of the levels [zs]. *)
Definition outside (zs : list Q) (thick : Q) (p : row3) : bool :=
  forallb (fun z => negb (in_band z thick p)) zs.

(** *** find_centroids *)

Definition xy : Type := Q * Q.

(** Squared planar distance; [near r c p] is [sqrt(dist2 c p) <= r]. *)
Definition dist2 (c p : xy) : Q :=
  (p.1 - c.1) * (p.1 - c.1) + (p.2 - c.2) * (p.2 - c.2).
Definition near (newtol : Q) (c p : xy) : bool :=
  Qle_bool 0 newtol && Qle_bool (dist2 c p) (newtol * newtol).

Definition Qlt_bool (a b : Q) : bool := negb (Qle_bool b a).

(** The calibration loop of one slice; [slcheckpts] is the random
    subsample drawn by [np.random.choice]. *)
Fixpoint calibrate (fuel : nat) (minwthick : Q) (tolpt : Z) (tolincr : Q)
    (sl : list row3) (slcheckpts : list row3) (newtol : Q) : outcome Q :=
  match fuel with
  | O => OutOfFuel
  | S fuel' =>
      let sumnearpts :=
        fold_left (fun s checkpt =>
            (s + length (np.compress
                 (map (fun p => near newtol (col0 checkpt, col1 checkpt) (col0 p, col1 p)) sl)
                 sl))%nat)
          slcheckpts 0%nat in
      if Qeq_bool tolincr 0 then Raise ZeroDivisionError
      else if Qle_bool (minwthick / tolincr) newtol then Ok newtol
      else if Qlt_bool (inject_Z (Z.of_nat sumnearpts))
                ((35 # 10) * inject_Z tolpt * inject_Z (Z.of_nat (length slcheckpts)))
      then calibrate fuel' minwthick tolpt tolincr sl slcheckpts (newtol * tolincr)
      else Ok newtol
  end.

(** A centroid row [[mean x, mean y, z]], paired with the neighbour group
    [nearpts] it was averaged from.  The group is a ghost component: the
    array the source builds is the first projection. *)
Definition entry : Type := row3 * list xy.
Definition centroid (z : Q) (nearpts : list xy) : row3 :=
  (np.mean (map fst nearpts), np.mean (map snd nearpts), z).

(** The first centroid: [None] is the handled [IndexError] of [empsl[0]]. *)
Fixpoint first_centroid (newtol : Q) (tolpt : Z) (z : Q) (empsl : list xy)
  : option (entry * list xy) :=
  match empsl with
  | [] => None
  | stpnt :: empsl =>
      let dists := map (near newtol stpnt) empsl in
      let nearpts := np.compress dists empsl in
      if (Z.of_nat (length nearpts) <? tolpt)%Z
      then first_centroid newtol tolpt z empsl
      else Some ((centroid z nearpts, nearpts), np.compress (map negb dists) empsl)
  end.

(** The following centroids.  Every iteration deletes a point, so fuel
    [S (length empsl)] is enough (lemma [following_fuel]). *)
Fixpoint following (fuel : nat) (newtol : Q) (tolpt : Z) (z : Q)
    (ctrds : list entry) (empsl : list xy) : outcome (list entry) :=
  match fuel with
  | O => OutOfFuel
  | S fuel' =>
      last_c ← py.getitem ctrds (Z.of_nat (length ctrds) - 1);
      let c := (col0 last_c.1, col1 last_c.1) in
      nearestidx ← np.argmin (map (dist2 c) empsl);
      nearest ← py.getitem empsl (Z.of_nat nearestidx);
      let empsl := delete nearestidx empsl in
      let dists := map (near newtol nearest) empsl in
      let nearpts := np.compress dists empsl in
      if (Z.of_nat (length nearpts) <? tolpt)%Z && (0 <? length empsl)%nat
      then following fuel' newtol tolpt z ctrds empsl
      else if (length empsl <? 1)%nat then Ok ctrds
      else
        let ctrds := ctrds ++ [(centroid z nearpts, nearpts)] in
        let empsl := np.compress (map negb dists) empsl in
        if (length empsl <? 1)%nat then Ok ctrds
        else following fuel' newtol tolpt z ctrds empsl
  end.

(** Lines 127-166 for one slice, given the calibrated radius. *)
Definition trace_slice (newtol : Q) (tolsl tolpt : Z) (z : Q) (sl : list row3)
  : outcome (option (list entry)) :=
  let empsl := map (fun p => (col0 p, col1 p)) sl in
  if (Z.of_nat (length empsl) <? tolsl)%Z then Ok None
  else match first_centroid newtol tolpt z empsl with
       | None => Ok None
       | Some (c, empsl) =>
           ctrds ← following (S (length empsl)) newtol tolpt z [c] empsl;
           Ok (Some ctrds)
       end.

(** One iteration of the loop over the levels; [draw] are the indices
    returned by [np.random.choice] for this slice. *)
Definition centroids_step (fuel : nat) (minwthick : Q) (slices : py.dict (list row3))
    (tolsl tolpt : Z) (tol tolincr : Q)
    (ctrds : py.dict (option (list entry))) (zd : Q * list nat)
  : outcome (py.dict (option (list entry))) :=
  let z := zd.1 in
  sl ← py.get z slices;
  slcheckpts ← for_each (fun acc i => p ← py.getitem sl (Z.of_nat i); Ok (acc ++ [p]))
                 zd.2 [];
  newtol ← calibrate fuel minwthick tolpt tolincr sl slcheckpts tol;
  r ← trace_slice newtol tolsl tolpt z sl;
  Ok (py.set z r ctrds).

(** [find_centroids]; [draw i] is what [np.random.choice] returns in
    iteration [i] of the loop over the levels. *)
Definition find_centroids (fuel : nat) (draw : nat -> list nat) (minwthick : Q)
    (zcoords : list Q) (slices : py.dict (list row3))
    (tolsl tolpt : Z) (tol tolincr : Q)
  : outcome (py.dict (option (list entry))) :=
  for_each (centroids_step fuel minwthick slices tolsl tolpt tol tolincr)
    (imap (fun i z => (z, draw i)) zcoords) [].

(** The centroid row [c] is the mean of the non-empty group [g], at
    elevation [z]. *)
Definition mean_of (z : Q) (g : list xy) (c : row3) : Prop :=
  g <> [] /\
  col0 c * inject_Z (Z.of_nat (length g)) == fold_right Qplus 0 (map fst g) /\
  col1 c * inject_Z (Z.of_nat (length g)) == fold_right Qplus 0 (map snd g) /\
  col2 c = z.

(** The entries of a chain: each centroid is the mean of its group,
    which has at least [tolpt] points. *)
Definition entry_ok (tolpt : Z) (z : Q) (e : entry) : Prop :=
  mean_of z e.2 e.1 /\ (tolpt <= Z.of_nat (length e.2))%Z.

(** The chain of a slice: every centroid is the mean of its group, and
    the groups are disjoint parts of the slice (together with the rows
    [rest] that entered no group they make up the slice, row for row). *)
Definition chain_ok (tolpt : Z) (z : Q) (sl : list row3) (chain : list entry) : Prop :=
  Forall (entry_ok tolpt z) chain /\
  exists rest,
    concat (map snd chain) ++ rest ≡ₚ map (fun p => (col0 p, col1 p)) sl.

(** The radius after [k] more multiplications reaches the bound. *)
Fixpoint reaches (bound tolincr : Q) (k : nat) (newtol : Q) : Prop :=
  match k with
  | O => bound <= newtol
  | S k' => reaches bound tolincr k' (newtol * tolincr)
  end.

(** *** make_polylines *)

(** [LineString(poly).simplify(tol, preserve_topology=True)] as an array
    of points; [None] where Shapely raises [ValueError]. *)
Class LineStrings : Type := {
  line_simplify : list xy -> Q -> option (list xy)
}.

(** [sqrt(dist2 a b) >= minwthick]. *)
Definition far (minwthick : Q) (a b : xy) : bool :=
  Qle_bool minwthick 0 || Qle_bool (minwthick * minwthick) (dist2 a b).

(** Lines 192-195: the chain of a level, cut after every centroid that is
    [minwthick] or more away from the next one. *)
Definition split_chain (minwthick : Q) (chain : list row3) : list (list xy) :=
  let pts := map (fun c => (col0 c, col1 c)) chain in
  let dists := zip_with (far minwthick) pts (tail pts) in
  let tails := np.flatnonzero dists in
  np.split pts (map S tails).

(** The body of the first loop; a [None] entry is the handled [TypeError]. *)
Definition polys_step (minwthick : Q) (ctrds : py.dict (option (list row3)))
    (polys : py.dict (list (list xy))) (z : Q) : outcome (py.dict (list (list xy))) :=
  c ← py.get z ctrds;
  match c with
  | None => Ok polys
  | Some chain => Ok (py.set z (split_chain minwthick chain) polys)
  end.

(** The second loop: the lengths of all polylines. *)
Definition polyslen (zcoords : list Q) (polys : py.dict (list (list xy))) : list nat :=
  flat_map (fun z => match py.get z polys with
                     | Ok pl => map length pl
                     | _ => []
                     end) zcoords.

(** [len(poly) < minctrd or len(poly) < tolpolyslen / 1.3]. *)
Definition too_short (minctrd tolpolyslen : Z) (poly : list xy) : bool :=
  (Z.of_nat (length poly) <? minctrd)%Z
  || Qlt_bool (inject_Z (Z.of_nat (length poly))) (inject_Z tolpolyslen / (13 # 10)).

Section polylines.
Context `{LineStrings}.

(** The body of the third loop; a level without polylines is skipped. *)
Definition clean_step (minctrd tolpolyslen : Z) (simpl_tol : Q)
    (polys : py.dict (list (list xy)))
    (cleanpolys : py.dict (list (list xy))) (z : Q)
  : outcome (py.dict (list (list xy))) :=
  match py.get z polys with
  | Ok pl =>
      zcleanpolys ← for_each (fun acc poly =>
          if too_short minctrd tolpolyslen poly then Ok acc
          else match line_simplify poly simpl_tol with
               | Some cleanpoly => Ok (acc ++ [cleanpoly])
               | None => Raise ValueError
               end) pl [];
      Ok (py.set z zcleanpolys cleanpolys)
  | _ => Ok cleanpolys
  end.

Definition make_polylines (minwthick : Q) (zcoords : list Q)
    (ctrds : py.dict (option (list row3))) (prcnt : Q) (minctrd : Z) (simpl_tol : Q)
  : outcome (py.dict (list (list xy)) * py.dict (list (list xy))) :=
  polys ← for_each (polys_step minwthick ctrds) zcoords [];
  p ← np.nanpercentile (polyslen zcoords polys) prcnt;
  match p with
  | None => Raise ValueError
  | Some p =>
      let tolpolyslen := py.round p in
      cleanpolys ← for_each (clean_step minctrd tolpolyslen simpl_tol polys) zcoords [];
      Ok (polys, cleanpolys)
  end.

End polylines.

(** The chain cut by walking along it: a new polyline starts after every
    centroid that is far from the next. *)
Fixpoint chop (minwthick : Q) (pts : list xy) : list (list xy) :=
  match pts with
  | [] => [[]]
  | c :: rest =>
      match chop minwthick rest with
      | p :: ps =>
          if match rest with c' :: _ => far minwthick c c' | [] => false end
          then [c] :: p :: ps
          else (c :: p) :: ps
      | [] => [[c]]
      end
  end.

(** Consecutive points of [p] are less than [minwthick] apart. *)
Definition tight (minwthick : Q) (p : list xy) : Prop :=
  forall k a b, p !! k = Some a -> p !! S k = Some b -> far minwthick a b = false.

(** The pieces are tight, and each ends [minwthick] or more away from the
    start of the next. *)
Definition cut_at_gaps (minwthick : Q) (pieces : list (list xy)) : Prop :=
  Forall (tight minwthick) pieces /\
  forall j p q a b, pieces !! j = Some p -> pieces !! S j = Some q ->
    last p = Some a -> head q = Some b -> far minwthick a b = true.

(** *** make_polygons *)

(** The Shapely operations the pipeline calls.  [Polygon] answers [None]
    where Shapely raises [ValueError]. *)
Class Shapely : Type := {
  geom : Type;
  Polygon : list xy -> option geom;
  is_valid : geom -> bool;
  simplify : geom -> Q -> geom;
  symmetric_difference : geom -> geom -> geom;
  contains : geom -> xy -> bool
}.

Section polygons.
Context `{Shapely}.

(** The first two loops: levels without an entry in [cleanpolys] are
    dropped from the local copy of [zcoords]. *)
Definition remove_missing (zcoords : list Q) (cleanpolys : py.dict (list (list xy)))
  : list Q :=
  let z_to_remove := List.filter (fun z => negb (py.has z cleanpolys)) zcoords in
  fold_left (fun zc r => List.filter (fun z => negb (Qeq_bool z r)) zc)
    z_to_remove zcoords.

(** The [while True] loop on one polygon: the answer is [isvalid] and
    the tolerance left behind.  The value of [newpgon.simplify(...)] is
    dropped by the source, so [newpgon] never changes. *)
Fixpoint adjust (fuel : nat) (minwthick tolsimpl : Q) (newpgon : geom)
  : outcome (bool * Q) :=
  match fuel with
  | O => OutOfFuel
  | S fuel' =>
      if is_valid newpgon then Ok (true, tolsimpl)
      else if Qle_bool (minwthick / (25 # 10)) tolsimpl && negb (is_valid newpgon)
      then Ok (false, tolsimpl)
      else
        let tolsimpl := tolsimpl + minwthick / 50 in
        let _ := simplify newpgon tolsimpl in
        adjust fuel' minwthick tolsimpl newpgon
  end.

(** The variables that live across the loops of [make_polygons]. *)
Record pstate : Type := PState {
  tolsimpl : Q;
  newpgon : option geom;
  invalidpolygons : list Q;
  polygs : py.dict geom
}.

(** The body of [for polyline in cleanpolys[z]]; [pgons] is the list
    of the current level. *)
Definition polyline_step (fuel : nat) (minwthick z : Q)
    (st : pstate * list geom) (polyline : list xy) : outcome (pstate * list geom) :=
  let newpgon' := match Polygon polyline with
                  | Some g => Some g
                  | None => newpgon st.1
                  end in
  match newpgon' with
  | None => Raise UnboundLocalError
  | Some g =>
      r ← adjust fuel minwthick (tolsimpl st.1) g;
      if r.1 : bool
      then Ok (PState r.2 newpgon' (invalidpolygons st.1) (polygs st.1), st.2 ++ [g])
      else Ok (PState r.2 newpgon' (invalidpolygons st.1 ++ [z]) (polygs st.1), st.2)
  end.

(** The [try] block that combines the polygons of a level. *)
Definition try_combine (z : Q) (pgons : list geom) (polygs : py.dict geom)
  : outcome (py.dict geom) :=
  temp ← py.getitem pgons 0;
  if (2 <=? length pgons)%nat then
    temp ← for_each (fun temp j =>
               g ← py.getitem pgons (Z.of_nat j + 1);
               Ok (symmetric_difference temp g))
             (seq 0 (length pgons - 1)) temp;
    Ok (py.set z temp polygs)
  else if (length pgons =? 1)%nat then Ok (py.set z temp polygs)
  else Ok polygs.

(** ... with its [except IndexError: pass]. *)
Definition combine (z : Q) (pgons : list geom) (polygs : py.dict geom)
  : outcome (py.dict geom) :=
  match try_combine z pgons polygs with
  | Raise IndexError => Ok polygs
  | r => r
  end.

(** The polygons of one level: the inner [for] loop. *)
Definition level_pgons (fuel : nat) (minwthick : Q)
    (cleanpolys : py.dict (list (list xy))) (st : pstate) (z : Q)
  : outcome (pstate * list geom) :=
  polylines ← py.get z cleanpolys;
  for_each (polyline_step fuel minwthick z) polylines (st, []).

(** The body of [for z in zcoords]. *)
Definition level_step (fuel : nat) (minwthick : Q)
    (cleanpolys : py.dict (list (list xy))) (st : pstate) (z : Q) : outcome pstate :=
  r ← level_pgons fuel minwthick cleanpolys st z;
  polygs' ← combine z r.2 (polygs r.1);
  Ok (PState (tolsimpl r.1) (newpgon r.1) (invalidpolygons r.1) polygs').

Definition make_polygons (fuel : nat) (minwthick : Q) (zcoords : list Q)
    (cleanpolys : py.dict (list (list xy))) (tolsimpl0 : Q)
  : outcome (py.dict geom * list Q) :=
  let zcoords := remove_missing zcoords cleanpolys in
  st ← for_each (level_step fuel minwthick cleanpolys) zcoords
         (PState tolsimpl0 None [] []);
  Ok (polygs st, invalidpolygons st).

(** The repair as the specification words it: the ring is replaced by
    its simplification at each new tolerance. *)
Fixpoint adjust_spec (fuel : nat) (minwthick tolsimpl : Q) (newpgon : geom)
  : outcome (option geom) :=
  match fuel with
  | O => OutOfFuel
  | S fuel' =>
      if is_valid newpgon then Ok (Some newpgon)
      else if Qle_bool (minwthick / (25 # 10)) tolsimpl then Ok None
      else
        let tolsimpl := tolsimpl + minwthick / 50 in
        adjust_spec fuel' minwthick tolsimpl (simplify newpgon tolsimpl)
  end.

(** The valid polygons of a level, in the order of its polylines. *)
Definition valid_polygons (cleanpolys : py.dict (list (list xy))) (z : Q) : list geom :=
  match py.get z cleanpolys with
  | Ok polylines => List.filter is_valid (omap Polygon polylines)
  | _ => []
  end.

(** The rings of a level that are not valid. *)
Definition invalid_rings (cleanpolys : py.dict (list (list xy))) (z : Q) : list geom :=
  match py.get z cleanpolys with
  | Ok polylines => List.filter (fun g => negb (is_valid g)) (omap Polygon polylines)
  | _ => []
  end.

(** The MultiPolygon of a level: the left fold of its valid polygons by
    symmetric difference; none when there is no valid polygon. *)
Definition multipolygon (cleanpolys : py.dict (list (list xy))) (z : Q) : option geom :=
  match valid_polygons cleanpolys z with
  | [] => None
  | p :: rest => Some (fold_left symmetric_difference rest p)
  end.

(** The entry that level [z] adds to [polygs]. *)
Definition add_level (cleanpolys : py.dict (list (list xy))) (d : py.dict geom) (z : Q)
  : py.dict geom :=
  match multipolygon cleanpolys z with
  | None => d
  | Some m => py.set z m d
  end.

(** The polygons the inner loop of a level works on: a polyline that
    [sg.Polygon] refuses leaves [newpgon] as the iteration before set it
    ([prev] before the first polyline), and unbound if nothing did. *)
Fixpoint reused (prev : option geom) (polylines : list (list xy)) : option (list geom) :=
  match polylines with
  | [] => Some []
  | pl :: rest =>
      match (match Polygon pl with Some g => Some g | None => prev end) with
      | None => None
      | Some g => cons g <$> reused (Some g) rest
      end
  end.

End polygons.

(** *** export_dxf *)

(** The ezdxf operations of [export_dxf]: the entities of a geometry
    ([GeoProxy.to_dxf_entities(GeoProxy.parse(sg.mapping(g)))]), the
    colour and transparency set on an entity, its translation along z. *)
Class Ezdxf (geom : Type) : Type := {
  entity : Type;
  to_dxf_entities : geom -> list entity;
  styled : entity -> entity;
  translate : entity -> Q -> entity
}.

Section dxf_defs.
Context `{Shapely} {dxf : Ezdxf geom}.

(** The entities of a level, as the loop adds them. *)
Definition level_entities (z : Q) (g : geom) : list entity :=
  map (fun e => translate (styled e) z) (to_dxf_entities g).

(** [export_dxf]: the model space saved to [filepath]; nothing is saved
    when a level raises. *)
Definition export_dxf (zcoords : list Q) (polygs : py.dict geom) : outcome (list entity) :=
  for_each (fun msp z => g ← py.get z polygs; Ok (msp ++ level_entities z g)) zcoords [].

End dxf_defs.

End Cloud2Polygons.

(** ** Polygons2FEM.py *)

Module Polygons2FEM.
Import Cloud2Polygons.

(** A row [[nodeID, x, y, z]] of [nodelist]. *)
Record node : Type := Node { nid : nat; nx : Q; ny : Q; nz : Q }.

(** [nodelist] is allocated with spare rows of NaN: a row is [None]
    until it is written. *)
Abbreviation array := (list (option node)).

(** The variables of the connectivity loop.  [nodelist] is [None] while
    it is still the empty Python list of line 106. *)
Record mstate : Type := MState {
  nodeID : nat;
  elID : nat;
  nodelist : option array;
  elconnect : list (list nat);
  ignore : list nat;
  zignore : nat
}.

Definition init : mstate := MState 1 1 None [] [] 0.

(** [tempn[1:] == nodelist[i, 1:]], false on a NaN row. *)
Definition same_xyz (tempn : node) (row : option node) : bool :=
  match row with
  | Some r => Qeq_bool (nx tempn) (nx r) && Qeq_bool (ny tempn) (ny r)
              && Qeq_bool (nz tempn) (nz r)
  | None => false
  end.

(** The rows the new node is compared with: [nodelist[ignore[z-2]:nodeID]]
    when [z > 2], [nodelist[:nodeID]] otherwise. *)
Definition window (z : nat) (st : mstate) (a : array) : outcome array :=
  if (2 <? z)%nat then
    start ← py.getitem (ignore st) (Z.of_nat z - 2);
    Ok (take (nodeID st - start) (drop start a))
  else Ok (take (nodeID st) a).

(** [nexists]: the positions in the window with the coordinates of [tempn]. *)
Definition nexists (tempn : node) (small_nodelist : array) : list nat :=
  np.flatnonzero (map (same_xyz tempn) small_nodelist).

(** [nodelist[i] = tempn]. *)
Definition store (a : array) (i : nat) (tempn : node) : outcome array :=
  if (i <? length a)%nat then Ok (<[i := Some tempn]> a) else Raise IndexError.

(** [np.array([[None] * 4] * int(tot_elements * arr_dim))], [arr_dim = 0.5]. *)
Definition spare (tot_elements : nat) : array := replicate (tot_elements / 2) None.

Definition the_array (st : mstate) : outcome array :=
  match nodelist st with
  | Some a => Ok a
  | None => Raise TypeError
  end.

Definition allocated (st : mstate) (a : array) : mstate :=
  MState (S (nodeID st)) (elID st) (Some a) (elconnect st) (ignore st) (S (zignore st)).

(** Lines 157-202: the node id appended to [tempel] for the corner
    [(x, y, zc)] and the state left behind. *)
Definition place_node (tot_elements z : nat) (st : mstate) (c : Q * Q * Q)
  : outcome (mstate * nat) :=
  let tempn := Node (nodeID st) c.1.1 c.1.2 c.2 in
  if negb (elID st =? 1)%nat then
    a ← the_array st;
    small_nodelist ← window z st a;
    let found := nexists tempn small_nodelist in
    if (length found =? 1)%nat then
      i ← py.getitem found 0;
      row ← py.getitem small_nodelist (Z.of_nat i);
      match row with
      | Some r => Ok (st, nid r)
      | None => Raise ValueError
      end
    else
      a' ← match store a (nodeID st - 1) tempn with
           | Raise IndexError => store (a ++ spare tot_elements) (nodeID st - 1) tempn
           | r => r
           end;
      Ok (allocated st a', nodeID st)
  else if (nodeID st =? 1)%nat then
    a' ← store (spare tot_elements) (nodeID st - 1) tempn;
    Ok (allocated st a', nodeID st)
  else
    a ← the_array st;
    a' ← store a (nodeID st - 1) tempn;
    Ok (allocated st a', nodeID st).

(** Lines 118-121: the height of the elements of level [z]. *)
Definition element_height (zcoords : list Q) (z : nat) : outcome Q :=
  crntz ← py.getitem zcoords (Z.of_nat z);
  if negb (Z.of_nat z =? Z.of_nat (length zcoords) - 1)%Z then
    znext ← py.getitem zcoords (Z.of_nat z + 1);
    Ok (znext - crntz)
  else
    zprev ← py.getitem zcoords (Z.of_nat z - 1);
    Ok (crntz - zprev).

(** Lines 140-155: the coordinates of corner [node] of the element [elem].
    Corners 1, 2, 5, 6 take the next x node, corners 2, 3, 6, 7 the next
    y node, corners 4 to 7 lie one element height up. *)
Definition dxo (node : nat) : nat := match node with 1 | 2 | 5 | 6 => 1 | _ => 0 end%nat.
Definition dyo (node : nat) : nat := match node with 2 | 3 | 6 | 7 => 1 | _ => 0 end%nat.
Definition corner (xngrid yngrid : list Q) (elem : nat * nat) (crntz elh : Q)
    (node : nat) : outcome (Q * Q * Q) :=
  let zc := if (node <? 4)%nat then crntz else crntz + elh in
  x ← py.getitem xngrid (Z.of_nat (elem.1 + dxo node));
  y ← py.getitem yngrid (Z.of_nat (elem.2 + dyo node));
  Ok (x, y, zc).

(** The body of [for elem in elemlist[zcoords[z]]]. *)
Definition element_step (tot_elements : nat) (xngrid yngrid : list Q) (z : nat)
    (crntz elh : Q) (acc : mstate * list (list nat)) (elem : nat * nat)
  : outcome (mstate * list (list nat)) :=
  r ← for_each (fun (r : mstate * list nat) node =>
          c ← corner xngrid yngrid elem crntz elh node;
          p ← place_node tot_elements z r.1 c;
          Ok (p.1, r.2 ++ [p.2]))
        (seq 0 8) (acc.1, [elID acc.1]);
  let st := r.1 in
  Ok (MState (nodeID st) (S (elID st)) (nodelist st) (elconnect st) (ignore st) (zignore st),
      acc.2 ++ [r.2]).

(** The body of [for z in range(len(zcoords))]. *)
Definition mesh_level (tot_elements : nat) (xngrid yngrid zcoords : list Q)
    (elemlist : py.dict (list (nat * nat))) (st : mstate) (z : nat) : outcome mstate :=
  crntz ← py.getitem zcoords (Z.of_nat z);
  elh ← element_height zcoords z;
  elems ← py.get crntz elemlist;
  r ← for_each (element_step tot_elements xngrid yngrid z crntz elh) elems (st, []);
  let st := r.1 in
  Ok (MState (nodeID st) (elID st) (nodelist st) (elconnect st ++ r.2)
        (ignore st ++ [zignore st]) (zignore st)).

(** No two rows of the node table have the same coordinates. *)
Definition nodes_unique (nodelist : list node) : Prop :=
  forall i j n n', nodelist !! i = Some n -> nodelist !! j = Some n' ->
    same_xyz n (Some n') = true -> i = j.

(** The node ids are 1, 2, 3, ... in the order of the rows. *)
Definition ids_dense (nodelist : list node) : Prop :=
  forall i n, nodelist !! i = Some n -> nid n = S i.

(** A row of the connectivity table: the element id, then eight
    distinct ids of nodes of the table. *)
Definition element_ok (nodelist : list node) (row : list nat) : Prop :=
  exists eid ids, row = eid :: ids /\ length ids = 8%nat /\ NoDup ids /\
    forall id, id ∈ ids -> exists n, n ∈ nodelist /\ nid n = id.

Definition nodes_unique_b (nodelist : list node) : bool :=
  forallb (fun p : nat * node =>
      forallb (fun q : nat * node =>
          negb (same_xyz p.2 (Some q.2)) || (p.1 =? q.1)%nat)
        (imap pair nodelist))
    (imap pair nodelist).

(** *** Invariants of the connectivity loop *)

(** The coordinates of a row, and equality of coordinates as floats. *)
Definition coords (r : node) : Q * Q * Q := (nx r, ny r, nz r).
Definition ceq (c c' : Q * Q * Q) : Prop :=
  c.1.1 == c'.1.1 /\ c.1.2 == c'.1.2 /\ c.2 == c'.2.

(** The rows of [nodelist], none before the array exists. *)
Definition rows (st : mstate) : list (option node) :=
  match nodelist st with Some a => a | None => [] end.

(** Row [i] is inside the look-back window of level [z]. *)
Definition in_window (z : nat) (st : mstate) (i : nat) : Prop :=
  if (2 <? z)%nat then exists s, ignore st !! (z - 2)%nat = Some s /\ (s <= i)%nat else True.

Record mesh_inv (st : mstate) : Prop := {
  inv_id : (1 <= nodeID st)%nat;
  inv_zignore : zignore st = (nodeID st - 1)%nat;
  inv_rows : forall i, (i < nodeID st - 1)%nat ->
    exists r, rows st !! i = Some (Some r) /\ nid r = S i;
  inv_bound : forall i r, rows st !! i = Some (Some r) -> (i < nodeID st - 1)%nat;
  inv_uniq : forall i j r r', rows st !! i = Some (Some r) -> rows st !! j = Some (Some r') ->
    ceq (coords r) (coords r') -> i = j
}.

(** What a call of [place_node] leaves behind. *)
Definition placed (st : mstate) (c : Q * Q * Q) (st' : mstate) (id : nat) : Prop :=
  mesh_inv st' /\ elID st' = elID st /\ ignore st' = ignore st /\
  elconnect st' = elconnect st /\
  (nodeID st <= nodeID st')%nat /\
  (forall i r, rows st !! i = Some (Some r) -> rows st' !! i = Some (Some r)) /\
  (forall i r, rows st' !! i = Some (Some r) ->
     rows st !! i = Some (Some r) \/ ((nodeID st - 1 <= i)%nat /\ ceq c (coords r))) /\
  (exists r, rows st' !! (id - 1)%nat = Some (Some r) /\ nid r = id /\ ceq c (coords r)).

(** A grid never repeats a value. *)
Definition grid_inj (g : list Q) : Prop :=
  forall i j u v, g !! i = Some u -> g !! j = Some v -> u == v -> i = j.

(** Rows that may match a corner of level [z] lie in its window. *)
Definition level_cover (z : nat) (crntz : Q) (st : mstate) : Prop :=
  (forall i r, rows st !! i = Some (Some r) -> crntz <= nz r -> in_window z st i) /\
  (forall i, (nodeID st - 1 <= i)%nat -> in_window z st i).

(** A connectivity row: the element id, then eight distinct ids of
    nodes written so far. *)
Definition row_ok (st : mstate) (row : list nat) : Prop :=
  exists eid ids, row = eid :: ids /\ length ids = 8%nat /\ NoDup ids /\
    forall id, id ∈ ids -> (1 <= id < nodeID st)%nat.

(** From [st] to [st'] inside the level at [crntz] with height [elh]. *)
Definition stepped (crntz elh : Q) (st st' : mstate) : Prop :=
  mesh_inv st' /\ ignore st' = ignore st /\ elconnect st' = elconnect st /\
  (nodeID st <= nodeID st')%nat /\
  (forall i r, rows st !! i = Some (Some r) -> rows st' !! i = Some (Some r)) /\
  (forall i r, rows st' !! i = Some (Some r) ->
     rows st !! i = Some (Some r)
     \/ ((nodeID st - 1 <= i)%nat /\ (nz r == crntz \/ nz r == crntz + elh))).

(** The state between two levels, [k] levels being done. *)
Definition between (zcoords : list Q) (k : nat) (st : mstate) : Prop :=
  mesh_inv st /\ ((1 <= elID st)%nat /\ (elID st = 1%nat -> nodeID st = 1%nat)) /\
  length (ignore st) = k /\
  (forall j s, ignore st !! j = Some s -> (s <= nodeID st - 1)%nat) /\
  (forall j s t, ignore st !! j = Some s -> zcoords !! S j = Some t ->
     forall i r, rows st !! i = Some (Some r) -> (i < s)%nat -> nz r <= t) /\
  (forall t, zcoords !! k = Some t ->
     forall i r, rows st !! i = Some (Some r) -> nz r <= t) /\
  Forall (row_ok st) (elconnect st).

Section mesher.
Context `{Shapely}.

(** Lines 81-95 for one level: the cells whose centre the level's
    MultiPolygon contains. *)
Definition scan_level (polygs : py.dict geom) (xelgrid yelgrid : list Q)
    (acc : py.dict (list (nat * nat)) * nat) (z : Q)
  : outcome (py.dict (list (nat * nat)) * nat) :=
  r ← for_each (fun r x =>
         for_each (fun (r : py.dict (list (nat * nat)) * nat * nat) y =>
             let '(elemlist, initstack, tot_elements) := r in
             g ← py.get z polygs;
             xe ← py.getitem xelgrid (Z.of_nat x);
             ye ← py.getitem yelgrid (Z.of_nat y);
             if contains g (xe, ye) then
               if negb (initstack =? 0)%nat then
                 cells ← py.get z elemlist;
                 Ok (py.set z (cells ++ [(x, y)]) elemlist, initstack, S tot_elements)
               else
                 Ok (py.set z [(x, y)] elemlist, S initstack, S tot_elements)
             else Ok r)
           (seq 0 (length yelgrid)) r)
       (seq 0 (length xelgrid)) (acc.1, 0%nat, acc.2);
  let '(elemlist, _, tot_elements) := r in
  cells ← py.get z elemlist;
  Ok (py.set z cells elemlist, tot_elements).

(** The mesh: [elemlist], the written rows of [nodelist], [elconnect]. *)
Definition mesh : Type :=
  py.dict (list (nat * nat)) * list node * list (list nat).

Definition make_mesh (xeldim yeldim xmin ymin xmax ymax : Q) (zcoords : list Q)
    (polygs : py.dict geom) : outcome mesh :=
  xngrid ← np.arange (xmin - xeldim) (xmax + 2 * xeldim) xeldim;
  let xelgrid := map (fun v => v + xeldim / 2) (take (length xngrid - 1) xngrid) in
  yngrid ← np.arange (ymin - yeldim) (ymax + 2 * yeldim) yeldim;
  let yelgrid := map (fun v => v + yeldim / 2) (take (length yngrid - 1) yngrid) in
  scan ← for_each (scan_level polygs xelgrid yelgrid) zcoords ([], 0%nat);
  let '(elemlist, tot_elements) := scan in
  st ← for_each (mesh_level tot_elements xngrid yngrid zcoords elemlist)
         (seq 0 (length zcoords)) init;
  a ← the_array st;
  Ok (elemlist, omap id (a : list (option node)), elconnect st).

(** The MultiPolygon of level [k] contains some point. *)
Definition hit (polygs : py.dict geom) (k : Q) : Prop :=
  exists g p, py.get k polygs = Ok g /\ contains g p = true.

(** The cells [(x, y)] of the element grid, in the order of the two
    loops of lines 83-84. *)
Definition grid_cells (xelgrid yelgrid : list Q) : list (nat * nat) :=
  x ← seq 0 (length xelgrid); pair x <$> seq 0 (length yelgrid).

(** [polygs[z].contains(sg.Point(xelgrid[x], yelgrid[y]))], false where
    the level or the cell does not exist. *)
Definition cell_hit (polygs : py.dict geom) (xelgrid yelgrid : list Q) (z : Q)
    (c : nat * nat) : bool :=
  match py.get z polygs, xelgrid !! c.1, yelgrid !! c.2 with
  | Ok g, Some xe, Some ye => contains g (xe, ye)
  | _, _, _ => false
  end.

(** The cells of level [z]: those whose centre its MultiPolygon contains. *)
Definition level_cells (polygs : py.dict geom) (xelgrid yelgrid : list Q) (z : Q)
  : list (nat * nat) :=
  List.filter (cell_hit polygs xelgrid yelgrid z) (grid_cells xelgrid yelgrid).

End mesher.

(** The state of the scan of level [z] after the hits [h]. *)
Definition scanned (z : Q) (e0 : py.dict (list (nat * nat))) (t0 : nat)
    (h : list (nat * nat)) (r : py.dict (list (nat * nat)) * nat * nat) : Prop :=
  match h with
  | [] => r = (e0, 0%nat, t0)
  | _ => r = (py.set z h e0, 1%nat, (t0 + length h)%nat)
  end.

(** The rows [rows] continue a table of [n] rows: each has nine entries
    and starts with its own position, counted from 1. *)
Definition numbered (n : nat) (rows : list (list nat)) : Prop :=
  forall j row, rows !! j = Some row -> length row = 9%nat /\ head row = Some (S (n + j)).

(** *** export_mesh *)

Section export.
Local Open Scope string_scope.

(** Line 237. *)
Definition node_line (n : node) : string :=
  "      " ++ py.str_int (nid n) ++ ",   " ++ py.fmt8f (nx n) ++ ",   " ++ py.fmt8f (ny n)
  ++ ",   " ++ py.fmt8f (nz n) ++ py.nl.

(** Lines 241-251. *)
Definition element_line (elem : list nat) : outcome string :=
  eid ← py.getitem elem 0;
  n1 ← py.getitem elem 1;
  n2 ← py.getitem elem 2;
  n3 ← py.getitem elem 3;
  n4 ← py.getitem elem 4;
  n5 ← py.getitem elem 5;
  n6 ← py.getitem elem 6;
  n7 ← py.getitem elem 7;
  n8 ← py.getitem elem 8;
  Ok (py.str_int eid ++ ", " ++ py.str_int n1 ++ ", " ++ py.str_int n2 ++ ", " ++ py.str_int n3
      ++ ", " ++ py.str_int n4 ++ ", " ++ py.str_int n5 ++ ", " ++ py.str_int n6 ++ ", "
      ++ py.str_int n7 ++ ", " ++ py.str_int n8 ++ py.nl).

Definition heading : string :=
  "*Heading" ++ py.nl ++ "** Generated by: Cloud2FEM" ++ py.nl
  ++ "**" ++ py.nl ++ "** PARTS" ++ py.nl ++ "**" ++ py.nl ++ "*Part, name=PART-1" ++ py.nl
  ++ "*Node" ++ py.nl.

Definition element_heading : string := "*Element, type=C3D8" ++ py.nl.

Definition ending : string :=
  "*End Part" ++ py.nl
  ++ "**" ++ py.nl ++ "**" ++ py.nl ++ "** ASSEMBLY" ++ py.nl ++ "**" ++ py.nl
  ++ "*Assembly, name=Assembly" ++ py.nl
  ++ "**" ++ py.nl ++ "*Instance, name=WHOLE_MODEL, part=PART-1" ++ py.nl
  ++ "*End Instance" ++ py.nl
  ++ "**" ++ py.nl ++ "*End Assembly" ++ py.nl.

(** The loop over [elconnect]: what has been written stays in the file
    when a row raises. *)
Fixpoint write_elements (f : string) (elconnect : list (list nat))
  : string * outcome unit :=
  match elconnect with
  | [] => (f, Ok tt)
  | elem :: rest =>
      match element_line elem with
      | Ok line => write_elements (f ++ line) rest
      | Raise e => (f, Raise e)
      | OutOfFuel => (f, OutOfFuel)
      end
  end.

(** [export_mesh]: the text written to [meshpath], and how the call ends. *)
Definition export_mesh (nodelist : list node) (elconnect : list (list nat))
  : string * outcome unit :=
  let f := heading ++ String.concat "" (map node_line nodelist) ++ element_heading in
  match write_elements f elconnect with
  | (f, Ok _) => (f ++ ending, Ok tt)
  | r => r
  end.

(** A decimal digit. *)
Definition is_digit (c : ascii) : bool :=
  let n := nat_of_ascii c in (48 <=? n)%nat && (n <=? 57)%nat.

Fixpoint all_digits (s : string) : bool :=
  match s with
  | EmptyString => true
  | String c s' => is_digit c && all_digits s'
  end.

End export.

End Polygons2FEM.

(** ** main_Cloud2FEM.py: the copy dialog *)

Module main_Cloud2FEM.
Import Cloud2Polygons.

(** Is [z] the level of a checked box? *)
Definition pasted (zcoords : list Q) (checked : list bool) (z : Q) : bool :=
  existsb (fun i => default false (checked !! i)
                    && match zcoords !! i with
                       | Some zi => Qeq_bool zi z
                       | None => false
                       end) (seq 0 (length checked)).

(** [copy_ok] of the copy dialog: [current] is the index chosen in the
    combo box, [checked] the states of the check boxes [paste_slice]. *)
Definition copy_ok (zcoords : list Q) (cleanpolys : py.dict (list (list xy)))
    (current : Z) (checked : list bool) : outcome (py.dict (list (list xy))) :=
  zc ← py.getitem zcoords current;
  tocopy ← py.get zc cleanpolys;
  for_each (fun cp i =>
      if default false (checked !! i)
      then z ← py.getitem zcoords (Z.of_nat i); Ok (py.set z tocopy cp)
      else Ok cp)
    (seq 0 (length checked)) cleanpolys.

End main_Cloud2FEM.

(** ** A reference geometry

    Rings of vertices read with the even-odd rule, enough to run the
    embedding on data.  The general theorems below hold for every
    instance of [Shapely]; this one only serves closed examples. *)

Module Rings.
Import Cloud2Polygons.

Definition ring : Type := list xy.

(** The edges of a ring, the closing edge included. *)
Definition edges (r : ring) : list (xy * xy) := zip r (rotate 1 r).

(** Does the horizontal ray from [p] to the right cross the edge [e]? *)
Definition ray_crosses (p : xy) (e : xy * xy) : bool :=
  let '(a, b) := e in
  xorb (Qlt_bool p.2 a.2) (Qlt_bool p.2 b.2)
  && Qlt_bool p.1 (a.1 + (p.2 - a.2) * (b.1 - a.1) / (b.2 - a.2)).

Definition inside (p : xy) (r : ring) : bool :=
  Nat.odd (length (List.filter (ray_crosses p) (edges r))).

(** Twice the signed area of the triangle [a b c]. *)
Definition orient (a b c : xy) : Q :=
  (b.1 - a.1) * (c.2 - a.2) - (b.2 - a.2) * (c.1 - a.1).

(** Two edges cross in their interiors. *)
Definition edges_cross (e f : xy * xy) : bool :=
  Qlt_bool (orient e.1 e.2 f.1 * orient e.1 e.2 f.2) 0
  && Qlt_bool (orient f.1 f.2 e.1 * orient f.1 f.2 e.2) 0.

Definition simple (r : ring) : bool :=
  (3 <=? length r)%nat
  && forallb (fun e => forallb (fun f => negb (edges_cross e f)) (edges r)) (edges r).

(** Squared distance from [p] to the segment [a b]. *)
Definition seg_dist2 (a b p : xy) : Q :=
  let d := dist2 a b in
  if Qeq_bool d 0 then dist2 a p
  else
    let t := ((p.1 - a.1) * (b.1 - a.1) + (p.2 - a.2) * (b.2 - a.2)) / d in
    let t := if Qle_bool t 0 then 0 else if Qle_bool 1 t then 1 else t in
    dist2 (a.1 + t * (b.1 - a.1), a.2 + t * (b.2 - a.2)) p.

(** The first index of the maximum of a list, with the maximum. *)
Fixpoint argmax_from (i best : nat) (vbest : Q) (a : list Q) : nat * Q :=
  match a with
  | [] => (best, vbest)
  | v :: a' =>
      if Qlt_le_dec vbest v then argmax_from (S i) i v a'
      else argmax_from (S i) best vbest a'
  end.

(** Douglas-Peucker on an open line. *)
Fixpoint douglas_peucker (fuel : nat) (tol : Q) (pts : list xy) : list xy :=
  match fuel with
  | O => pts
  | S fuel' =>
      match pts with
      | a :: (m :: _ :: _) as rest =>
          let b := List.last rest a in
          let mid := take (length rest - 1) rest in
          let '(i, dmax) :=
            argmax_from 1 0 (seg_dist2 a b m) (map (seg_dist2 a b) (tail mid)) in
          if Qle_bool dmax (tol * tol) then [a; b]
          else douglas_peucker fuel' tol (take (i + 2) pts)
                 ++ tail (douglas_peucker fuel' tol (drop (i + 1) pts))
      | _ => pts
      end
  end.

(** A ring is simplified as the closed line through its first vertex. *)
Definition simplify_ring (tol : Q) (r : ring) : ring :=
  match r with
  | [] => []
  | a :: _ =>
      let closed := douglas_peucker (length r) tol (r ++ [a]) in
      take (length closed - 1) closed
  end.

#[global] Instance rings : Shapely := {|
  geom := list ring;
  Polygon := fun pl => if (length pl <? 3)%nat then None else Some [pl];
  is_valid := forallb simple;
  simplify := fun g tol => map (simplify_ring tol) g;
  symmetric_difference := app;
  contains := fun g p => Nat.odd (length (List.filter (inside p) g))
|}.

(** The square used in the examples. *)
Definition square : list xy := [(0, 0); (4, 0); (4, 4); (0, 4)].

(** Open lines simplified by Douglas-Peucker; a line needs two points. *)
#[global] Instance lines : LineStrings := {|
  line_simplify := fun pts tol =>
    if (length pts <? 2)%nat then None
    else Some (douglas_peucker (length pts) tol pts)
|}.

(** Four centroids on a line, with a gap between the second and the third. *)
Definition wall : list row3 := [(0, 0, 0); (1, 0, 0); (5, 0, 0); (6, 0, 0)].

(** A hatch: its boundary ring, whether colour and transparency are set,
    and its elevation. *)
Record hatch : Type := Hatch { boundary : ring; is_styled : bool; elevation : Q }.

#[global] Instance hatches : Ezdxf (geom (Shapely := rings)) := {|
  entity := hatch;
  to_dxf_entities := map (fun r => Hatch r false 0);
  styled := fun e => Hatch (boundary e) true (elevation e);
  translate := fun e z => Hatch (boundary e) (is_styled e) (elevation e + z)
|}.

End Rings.

(** * Properties *)

(** ** Level generation *)

Section levels.
Import Cloud2Polygons.

Lemma ramp_length start step n : length (np.ramp start step n) = n.
Proof. unfold np.ramp. by rewrite length_map, length_seq. Qed.

Lemma ramp_lookup start step n i x :
  np.ramp start step n !! i = Some x <->
  (i < n)%nat /\ x = start + inject_Z (Z.of_nat i) * step.
Proof.
  unfold np.ramp. rewrite list_lookup_fmap. split.
  - intros Hx. destruct (seq 0 n !! i) as [j|] eqn:Hj; [|done].
    apply lookup_seq in Hj as [-> Hi]. simpl in Hx. by inversion Hx.
  - intros [Hi ->]. by rewrite (lookup_seq_lt _ _ _ Hi).
Qed.

Lemma ramp_from_sorted (f : nat -> Q) s n :
  (forall i j, (i < j)%nat -> f i < f j) ->
  StronglySorted Qlt (map f (seq s n)).
Proof.
  intros Hf. revert s. induction n as [|n IH]; intros s; simpl.
  - constructor.
  - constructor; [apply IH|].
    apply List.Forall_forall. intros x Hx.
    apply in_map_iff in Hx as (j & <- & Hj).
    apply in_seq in Hj. apply Hf. lia.
Qed.

Lemma ramp_sorted start step n :
  0 < step -> StronglySorted Qlt (np.ramp start step n).
Proof.
  intros Hs. apply ramp_from_sorted. intros i j Hij.
  assert (inject_Z (Z.of_nat i) < inject_Z (Z.of_nat j)) as Hlt.
  { rewrite <- Zlt_Qlt. lia. }
  nra.
Qed.

Lemma int_inject_Z (n : Z) : py.int (inject_Z n) = n.
Proof. unfold py.int. simpl. apply Z.quot_1_r. Qed.

Lemma linspace_step_pos (a b : Q) (n : Z) :
  a < b -> (2 <= n)%Z -> 0 < (b - a) / inject_Z (n - 1).
Proof.
  intros Hab Hn.
  assert (0 < inject_Z (n - 1)) as Hp.
  { replace 0 with (inject_Z 0) by reflexivity. rewrite <- Zlt_Qlt. lia. }
  apply Qlt_shift_div_l; [done | lra].
Qed.

Lemma linspace_top (a b : Q) (n : Z) :
  (2 <= n)%Z -> a + inject_Z (n - 1) * ((b - a) / inject_Z (n - 1)) == b.
Proof.
  intros Hn.
  assert (0 < inject_Z (n - 1)) as Hp.
  { replace 0 with (inject_Z 0) by reflexivity. rewrite <- Zlt_Qlt. lia. }
  field. lra.
Qed.

Lemma make_zcoords_count (a b c : Q) :
  a < b -> (1 <= py.int c)%Z ->
  exists l, make_zcoords a b c 1 = Ok l /\
    StronglySorted Qlt l /\ linearly_spaced a b (py.int c) l.
Proof.
  intros Hab Hc. unfold make_zcoords, np.linspace, linearly_spaced. simpl.
  destruct (Z.ltb_spec (py.int c) 0) as [?|_]; [lia|].
  destruct (Z.eqb_spec (py.int c) 1) as [H1|H1].
  - exists [a]. rewrite H1. split; [done|].
    split; [repeat constructor|]. split; [done|]. split; [|split].
    + intros [|i] x Hx; [|done]. simpl in Hx. inversion Hx; subst. lra.
    + exists a. split; [done | reflexivity].
    + lia.
  - assert (2 <= py.int c)%Z as H2 by lia.
    pose proof (linspace_step_pos a b _ Hab H2) as Hstep.
    pose proof (linspace_top a b _ H2) as Htop.
    set (step := (b - a) / inject_Z (py.int c - 1)) in *.
    assert (forall i x, np.ramp a step (Z.to_nat (py.int c)) !! i = Some x ->
              0 <= inject_Z (Z.of_nat i) <= inject_Z (py.int c - 1)
              /\ x = a + inject_Z (Z.of_nat i) * step) as Hel.
    { intros i x [Hi ->]%ramp_lookup. split; [|done]. split.
      - replace 0 with (inject_Z 0) by reflexivity. rewrite <- Zle_Qle. lia.
      - rewrite <- Zle_Qle. lia. }
    eexists. split; [done|]. split; [by apply ramp_sorted|].
    split; [apply ramp_length|].
    split; [|split; [|intros _; split]].
    + intros i x [Hi ->]%Hel. split; nra.
    + exists (a + inject_Z (Z.of_nat 0) * step). split.
      * apply ramp_lookup. split; [lia | done].
      * simpl. ring.
    + intros i x [_ ->]%Hel. reflexivity.
    + exists (a + inject_Z (Z.of_nat (Z.to_nat (py.int c) - 1)) * step). split.
      * rewrite last_lookup, ramp_length. apply ramp_lookup.
        split; [lia|]. do 3 f_equal. lia.
      * rewrite <- Htop.
        replace (Z.of_nat (Z.to_nat (py.int c) - 1)) with (py.int c - 1)%Z by lia.
        reflexivity.
Qed.

Lemma make_zcoords_step (a b c : Q) :
  a < b -> 0 < c ->
  exists l, make_zcoords a b c 2 = Ok l /\
    StronglySorted Qlt l /\ arithmetic_below a b c l.
Proof.
  intros Hab Hc. unfold make_zcoords, np.arange, arithmetic_below. simpl.
  destruct (Qeq_bool c 0) eqn:Hz.
  { apply Qeq_bool_eq in Hz. lra. }
  set (r := (b - a) / c).
  eexists. split; [done|]. split; [by apply ramp_sorted|]. split.
  - intros i x [Hi ->]%ramp_lookup. split; [reflexivity|].
    assert (0 <= inject_Z (Z.of_nat i)) as H0.
    { replace 0 with (inject_Z 0) by reflexivity. rewrite <- Zle_Qle. lia. }
    assert (inject_Z (Z.of_nat i) <= inject_Z (Qceiling r - 1)) as H1.
    { rewrite <- Zle_Qle. lia. }
    pose proof (Qceiling_lt r) as H2.
    assert (inject_Z (Z.of_nat i) * c < b - a) as H3.
    { assert (inject_Z (Z.of_nat i) < r) as H4 by lra.
      unfold r in H4. apply (Qmult_lt_r _ _ c Hc) in H4.
      assert ((b - a) / c * c == b - a) as H5 by (field; lra). lra. }
    split; nra.
  - intros i Hi.
    assert (inject_Z (Z.of_nat i) < r) as H1.
    { unfold r. apply Qlt_shift_div_l; lra. }
    pose proof (Qle_ceiling r) as H2.
    assert (inject_Z (Z.of_nat i) < inject_Z (Qceiling r)) as H3 by lra.
    rewrite <- Zlt_Qlt in H3.
    eexists. apply ramp_lookup. split; [lia | done].
Qed.



(** C4 as stated fails: with the bounds swapped, the fixed-count rule
    still returns a LevelSet. *)
Lemma make_zcoords_accepts_swapped_bounds :
  ~ (forall a b c d, invalid_range a b c d ->
       forall l, make_zcoords a b c d <> Ok l).
Proof.
  intros Hclaim.
  refine (Hclaim 10 0 5 1%Z _ _ eq_refl).
  left. split; [by left | discriminate].
Qed.

Lemma arange_empty (a b c : Q) :
  0 < c -> b <= a -> np.arange a b c = Ok [].
Proof.
  intros Hc Hba. unfold np.arange.
  destruct (Qeq_bool c 0) eqn:Hz.
  { apply Qeq_bool_eq in Hz. lra. }
  assert ((b - a) / c <= 0) as Hr.
  { apply Qle_shift_div_r; lra. }
  apply Qceiling_resp_le in Hr. change (Qceiling 0) with 0%Z in Hr.
  by replace (Z.to_nat (Qceiling ((b - a) / c))) with 0%nat by lia.
Qed.

(** C4, amended.  [make_zcoords] checks no range.  Under the fixed-count
    rule it raises only for a negative count (NumPy's [ValueError]) and
    otherwise returns [int(c)] values, whatever the order of the bounds.
    Under the fixed-step rule it raises only for a zero step, and returns
    the empty LevelSet when the step is positive and [b <= a]. *)
Theorem make_zcoords_unchecked (a b c : Q) :
  (make_zcoords a b c 1 = Raise ValueError <-> (py.int c < 0)%Z) /\
  ((0 <= py.int c)%Z ->
     exists l, make_zcoords a b c 1 = Ok l /\ length l = Z.to_nat (py.int c)) /\
  (make_zcoords a b c 2 = Raise ZeroDivisionError <-> c == 0) /\
  (~ c == 0 -> exists l, make_zcoords a b c 2 = Ok l) /\
  (0 < c -> b <= a -> make_zcoords a b c 2 = Ok []).
Proof.
  unfold make_zcoords, np.linspace. simpl.
  destruct (Z.ltb_spec (py.int c) 0) as [Hn|Hn].
  - split; [done|]. split; [lia|]. split; [|split].
    + unfold np.arange. destruct (Qeq_bool c 0) eqn:Hz.
      * by apply Qeq_bool_eq in Hz.
      * split; [done|]. intros Hc. apply Qeq_eq_bool in Hc. congruence.
    + intros Hc. unfold np.arange. destruct (Qeq_bool c 0) eqn:Hz; [|by eexists].
      by apply Qeq_bool_eq in Hz.
    + apply arange_empty.
  - split.
    { split; [|lia]. by destruct (py.int c =? 1)%Z. }
    split.
    { intros _. destruct (Z.eqb_spec (py.int c) 1) as [->|_].
      - by exists [a].
      - eexists. split; [done|]. apply ramp_length. }
    split; [|split].
    + unfold np.arange. destruct (Qeq_bool c 0) eqn:Hz.
      * by apply Qeq_bool_eq in Hz.
      * split; [done|]. intros Hc. apply Qeq_eq_bool in Hc. congruence.
    + intros Hc. unfold np.arange. destruct (Qeq_bool c 0) eqn:Hz; [|by eexists].
      by apply Qeq_bool_eq in Hz.
    + apply arange_empty.
Qed.

Lemma make_zcoords_unchecked_witness :
  (exists l, make_zcoords 10 0 5 1 = Ok l /\ length l = 5%nat) /\
  make_zcoords 10 0 5 2 = Ok [].
Proof.
  destruct (make_zcoords_unchecked 10 0 5) as (_ & Hcount & _ & _ & Hstep).
  split; [apply Hcount; discriminate | apply Hstep; [reflexivity | discriminate]].
Defined.

End levels.

(** ** Loops, dicts and masks *)

Lemma bind_Ok {A B : Type} (a : A) (f : A -> outcome B) : (Ok a ≫= f) = f a.
Proof. reflexivity. Qed.

Section loops.
Context {S X : Type}.

(** Loop invariants for [for_each], indexed by the items done so far. *)
Lemma for_each_inv_on (P : X -> Prop) (body : S -> X -> outcome S)
    (I : list X -> S -> Prop) (l : list X) (st0 : S) :
  Forall P l ->
  I [] st0 ->
  (forall pre x st, P x -> I pre st ->
     exists st', body st x = Ok st' /\ I (pre ++ [x]) st') ->
  exists st', for_each body l st0 = Ok st' /\ I l st'.
Proof.
  intros HP H0 Hstep.
  cut (forall pre st, I pre st ->
         exists st', for_each body l st = Ok st' /\ I (pre ++ l) st').
  { intros Hcut. apply (Hcut [] st0 H0). }
  induction HP as [|x l Hx HP IH]; intros pre st Hst; simpl.
  - exists st. by rewrite app_nil_r.
  - destruct (Hstep pre x st Hx Hst) as (st1 & -> & H1). simpl.
    destruct (IH (pre ++ [x]) st1 H1) as (st' & -> & H').
    exists st'. by rewrite <- app_assoc in H'.
Qed.

Lemma for_each_inv (body : S -> X -> outcome S) (I : list X -> S -> Prop)
    (l : list X) (st0 : S) :
  I [] st0 ->
  (forall pre x st, I pre st ->
     exists st', body st x = Ok st' /\ I (pre ++ [x]) st') ->
  exists st', for_each body l st0 = Ok st' /\ I l st'.
Proof.
  intros H0 Hstep. apply (for_each_inv_on (fun _ => True)); auto.
  by apply Forall_true.
Qed.

Lemma for_each_app (body : S -> X -> outcome S) (l1 l2 : list X) (st : S) :
  for_each body (l1 ++ l2) st = st' ← for_each body l1 st; for_each body l2 st'.
Proof.
  revert st. induction l1 as [|x l1 IH]; intros st; simpl; [done|].
  destruct (body st x); simpl; auto.
Qed.
End loops.

Section dicts.
Context {V : Type}.

Lemma Qeq_bool_trans_l (a b c : Q) :
  Qeq_bool a b = true -> Qeq_bool a c = Qeq_bool b c.
Proof.
  intros Hab%Qeq_bool_eq.
  destruct (Qeq_bool b c) eqn:Hbc.
  - apply Qeq_eq_bool. apply Qeq_bool_eq in Hbc. by rewrite Hab.
  - destruct (Qeq_bool a c) eqn:Hac; [|done].
    apply Qeq_bool_eq in Hac. rewrite Hab in Hac.
    apply Qeq_eq_bool in Hac. congruence.
Qed.

Lemma get_set (k k' : Q) (v : V) (d : py.dict V) :
  py.get k' (py.set k v d) = if Qeq_bool k k' then Ok v else py.get k' d.
Proof.
  induction d as [|[k0 v0] d IH]; simpl.
  - by destruct (Qeq_bool k k').
  - destruct (Qeq_bool k0 k) eqn:H0; simpl.
    + rewrite <- (Qeq_bool_trans_l _ _ k' H0). by destruct (Qeq_bool k0 k').
    + rewrite IH. destruct (Qeq_bool k0 k') eqn:H1; [|done].
      destruct (Qeq_bool k k') eqn:H2; [|done].
      apply Qeq_bool_eq in H1, H2. rewrite <- H2 in H1.
      apply Qeq_eq_bool in H1. congruence.
Qed.

Lemma has_get (k : Q) (d : py.dict V) :
  py.has k d = true <-> exists v, py.get k d = Ok v.
Proof.
  induction d as [|[k0 v0] d IH]; simpl.
  - split; [done | by intros [? ?]].
  - destruct (Qeq_bool k0 k); simpl; [|done].
    split; [by exists v0 | done].
Qed.

Lemma get_raises (k : Q) (d : py.dict V) :
  py.has k d = false -> py.get k d = Raise KeyError.
Proof.
  induction d as [|[k0 v0] d IH]; simpl; [done|].
  destruct (Qeq_bool k0 k); simpl; [done | auto].
Qed.
End dicts.

Section masks.
Context {A : Type}.

Lemma compress_map (f : A -> bool) (l : list A) :
  np.compress (map f l) l = List.filter f l.
Proof. induction l as [|x l IH]; simpl; [done|]. by rewrite IH. Qed.

Lemma elem_of_nonzero_from (i j : nat) (mask : list bool) :
  j ∈ np.nonzero_from i mask <->
  exists k, j = (i + k)%nat /\ mask !! k = Some true.
Proof.
  revert i. induction mask as [|b mask IH]; intros i; simpl.
  - rewrite elem_of_nil. split; [done | by intros (k & _ & ?)].
  - assert (j = i \/ j ∈ np.nonzero_from (S i) mask <->
            j ∈ i :: np.nonzero_from (S i) mask) as Hcons
      by (by rewrite elem_of_cons).
    split.
    + intros Hj.
      assert (b = true /\ j = i \/ j ∈ np.nonzero_from (S i) mask) as [[-> ->]|Hin].
      { destruct b; [apply Hcons in Hj as [->|?]|]; auto. }
      * exists 0%nat. split; [lia | done].
      * apply IH in Hin as (k & -> & Hk). exists (S k). split; [lia | done].
    + intros ([|k] & -> & Hk); simpl in Hk.
      * inversion Hk; subst. apply Hcons. left. lia.
      * assert ((i + S k)%nat ∈ np.nonzero_from (S i) mask) as Hin.
        { apply IH. exists k. split; [lia | done]. }
        destruct b; [apply Hcons|]; auto.
Qed.

Lemma NoDup_nonzero_from (i : nat) (mask : list bool) :
  NoDup (np.nonzero_from i mask).
Proof.
  revert i. induction mask as [|b mask IH]; intros i; simpl.
  - constructor.
  - destruct b; [|apply IH]. constructor; [|apply IH].
    intros (k & Hk & _)%elem_of_nonzero_from. lia.
Qed.

Lemma compress_nonzero_from (pre l : list A) (mask : list bool) :
  length mask = length l ->
  np.compress mask l
  = omap (fun j => (pre ++ l) !! j) (np.nonzero_from (length pre) mask).
Proof.
  revert pre l. induction mask as [|b mask IH]; intros pre [|x l] Hlen;
    simpl in *; try done.
  assert (np.compress mask l
          = omap (fun j => (pre ++ x :: l) !! j) (np.nonzero_from (S (length pre)) mask))
    as IH'.
  { rewrite (IH (pre ++ [x]) l) by lia.
    rewrite length_app. simpl. replace (length pre + 1)%nat with (S (length pre)) by lia.
    by rewrite <- app_assoc. }
  destruct b; [|done]. simpl.
  rewrite lookup_app_r by lia. replace (length pre - length pre)%nat with 0%nat by lia.
  simpl. by rewrite IH'.
Qed.

(** Boolean indexing keeps exactly the rows whose mask entry is set,
    each one once. *)
Lemma compress_rows (l : list A) (mask : list bool) :
  length mask = length l ->
  np.compress mask l = omap (fun j => l !! j) (np.flatnonzero mask)
  /\ NoDup (np.flatnonzero mask)
  /\ forall j, j ∈ np.flatnonzero mask <-> mask !! j = Some true.
Proof.
  intros Hlen. split; [apply (compress_nonzero_from [] l mask Hlen)|].
  split; [apply NoDup_nonzero_from|].
  intros j. unfold np.flatnonzero. rewrite elem_of_nonzero_from.
  split; [by intros (k & -> & ?) | intros ?; by exists j].
Qed.
End masks.

(** ** Slicing *)

Section slices.
Import Cloud2Polygons.

Lemma in_band_abs (z thick : Q) (p : row3) :
  in_band z thick p = true <-> Qabs (col2 p - z) <= thick / 2.
Proof.
  unfold in_band. rewrite andb_true_iff, !Qle_bool_iff, Qabs_Qle_condition.
  split; intros [? ?]; split; lra.
Qed.

Lemma in_band_proper (z z' thick : Q) (p : row3) :
  z == z' -> in_band z thick p = in_band z' thick p.
Proof.
  intros Hz. apply eq_true_iff_eq. rewrite !in_band_abs, !Qabs_Qle_condition.
  split; intros [? ?]; split; lra.
Qed.

Lemma outside_spec (zs : list Q) (thick : Q) (p : row3) :
  outside zs thick p = true <->
  forall z, z ∈ zs -> ~ Qabs (col2 p - z) <= thick / 2.
Proof.
  unfold outside. rewrite forallb_forall. split.
  - intros Hall z Hz%list_elem_of_In Habs%in_band_abs.
    specialize (Hall z Hz). rewrite Habs in Hall. done.
  - intros Hall z Hz%list_elem_of_In. specialize (Hall z Hz).
    destruct (in_band z thick p) eqn:Hb; [|done].
    by apply in_band_abs in Hb.
Qed.

Lemma zip_with_andb_map {A : Type} (f g : A -> bool) (l : list A) :
  zip_with andb (map f l) (map g l) = map (fun x => f x && g x) l.
Proof. induction l as [|x l IH]; simpl; [done | by rewrite IH]. Qed.

Lemma slices_loop (zcoords : list Q) (pcl : list row3) (thick : Q) :
  exists st,
    for_each (slice_step pcl thick) zcoords ([], replicate (length pcl) true) = Ok st /\
    st.2 = map (outside zcoords thick) pcl /\
    (forall z sl, py.get z st.1 = Ok sl ->
       exists z', z' ∈ zcoords /\ z' == z /\ sl = List.filter (in_band z' thick) pcl) /\
    (forall z, z ∈ zcoords -> exists sl, py.get z st.1 = Ok sl).
Proof.
  apply (for_each_inv (slice_step pcl thick) (fun pre st =>
    st.2 = map (outside pre thick) pcl /\
    (forall z sl, py.get z st.1 = Ok sl ->
       exists z', z' ∈ pre /\ z' == z /\ sl = List.filter (in_band z' thick) pcl) /\
    (forall z, z ∈ pre -> exists sl, py.get z st.1 = Ok sl))).
  - simpl. split; [|split].
    + induction pcl as [|p l IH]; simpl; [done | by rewrite IH].
    + done.
    + intros z Hz. by apply elem_of_nil in Hz.
  - intros pre z [slices invmask] (Hmask & Hget & Hkeys). simpl in *.
    unfold slice_step, imul. simpl.
    rewrite !length_map, Hmask, length_map, Nat.eqb_refl. simpl.
    eexists. split; [done|]. simpl. split; [|split].
    + rewrite map_map, zip_with_andb_map. apply map_ext. intros p.
      unfold outside. by rewrite forallb_app; simpl; rewrite andb_true_r.
    + intros k sl. rewrite get_set, compress_map.
      destruct (Qeq_bool z k) eqn:Hk.
      * intros [= <-]. exists z.
        split; [apply elem_of_app; right; by apply list_elem_of_singleton|].
        split; [by apply Qeq_bool_eq | done].
      * intros (z' & Hz' & Heq & Hsl)%Hget. exists z'.
        split; [apply elem_of_app; by left | done].
    + intros k [Hk|Hk%list_elem_of_singleton]%elem_of_app.
      * rewrite get_set. destruct (Qeq_bool z k); [by eexists | by apply Hkeys].
      * subst k. rewrite get_set, Qeq_bool_refl. by eexists.
Qed.


End slices.

(** ** Centroid tracing *)

Section centroids.
Import Cloud2Polygons.

Lemma for_each_partial {S X : Type} (body : S -> X -> outcome S)
    (I : list X -> S -> Prop) (l : list X) (st0 st' : S) :
  I [] st0 ->
  (forall pre x st st1, I pre st -> body st x = Ok st1 -> I (pre ++ [x]) st1) ->
  for_each body l st0 = Ok st' -> I l st'.
Proof.
  intros H0 Hstep.
  cut (forall pre st, I pre st -> for_each body l st = Ok st' -> I (pre ++ l) st').
  { intros Hcut. apply (Hcut [] st0 H0). }
  induction l as [|x l IH]; intros pre st Hst; simpl.
  - intros [= <-]. by rewrite app_nil_r.
  - destruct (body st x) as [st1| |] eqn:Hb; simpl; try done.
    intros Hrun. rewrite (app_assoc pre [x] l : pre ++ x :: l = (pre ++ [x]) ++ l).
    eapply IH; [|done]. by eapply Hstep.
Qed.

Lemma getitem_lookup {A : Type} (l : list A) (i : nat) (x : A) :
  py.getitem l (Z.of_nat i) = Ok x <-> l !! i = Some x.
Proof.
  unfold py.getitem. destruct (Z.ltb_spec (Z.of_nat i) 0) as [?|_]; [lia|].
  destruct (Z.ltb_spec (Z.of_nat i) 0) as [?|_]; [lia|].
  rewrite Nat2Z.id. destruct (l !! i); split; congruence.
Qed.

Lemma getitem_last {A : Type} (l : list A) (x : A) :
  py.getitem (l ++ [x]) (Z.of_nat (length (l ++ [x])) - 1) = Ok x.
Proof.
  rewrite length_app. simpl.
  replace (Z.of_nat (length l + 1) - 1)%Z with (Z.of_nat (length l)) by lia.
  apply getitem_lookup. by rewrite lookup_app_r, Nat.sub_diag.
Qed.

Lemma compress_split {A : Type} (m : list bool) (l : list A) :
  length m = length l ->
  np.compress m l ++ np.compress (map negb m) l ≡ₚ l.
Proof.
  revert l. induction m as [|b m IH]; intros [|x l] Hlen; simpl in *; try done.
  destruct b; simpl.
  - constructor. apply IH. lia.
  - rewrite <- Permutation_middle. constructor. apply IH. lia.
Qed.

Lemma argmin_from_lt (i best : nat) (v : Q) (a : list Q) :
  (best < i)%nat -> (np.argmin_from i best v a < i + length a)%nat.
Proof.
  revert i best v. induction a as [|w a IH]; intros i best v Hb; simpl; [lia|].
  destruct (Qlt_le_dec w v).
  - specialize (IH (S i) i w). lia.
  - specialize (IH (S i) best v). lia.
Qed.

Lemma argmin_lt (a : list Q) (i : nat) :
  np.argmin a = Ok i -> (i < length a)%nat.
Proof.
  destruct a as [|v a]; simpl; [done|]. intros [= <-].
  pose proof (argmin_from_lt 1 0 v a). lia.
Qed.

Lemma centroid_mean (z : Q) (g : list xy) :
  g <> [] -> mean_of z g (centroid z g).
Proof.
  intros Hg. split; [done|].
  assert (~ inject_Z (Z.of_nat (length g)) == 0) as Hn.
  { destruct g; [done|]. simpl length.
    replace 0 with (inject_Z 0) by reflexivity. rewrite inject_Z_injective. lia. }
  unfold centroid, np.mean, col0, col1, col2, xy in *. simpl. rewrite !length_map.
  split; [field; exact Hn | split; [field; exact Hn | done]].
Qed.

Lemma entry_ok_intro (tolpt : Z) (z : Q) (g : list xy) :
  (1 <= tolpt)%Z -> (Z.of_nat (length g) <? tolpt)%Z = false ->
  entry_ok tolpt z (centroid z g, g).
Proof.
  intros Ht Hlen. apply Z.ltb_ge in Hlen. split; [|done].
  apply centroid_mean. destruct g; [simpl in Hlen; lia | done].
Qed.

Lemma first_centroid_groups (newtol : Q) (tolpt : Z) (z : Q) (empsl : list xy)
    (e : entry) (rest : list xy) :
  (1 <= tolpt)%Z ->
  first_centroid newtol tolpt z empsl = Some (e, rest) ->
  entry_ok tolpt z e /\ exists used, e.2 ++ rest ++ used ≡ₚ empsl.
Proof.
  intros Ht. induction empsl as [|stpnt empsl IH]; simpl; [done|].
  destruct (Z.of_nat (length _) <? tolpt)%Z eqn:Hlen.
  - intros (Hok & used & Hperm)%IH. split; [done|].
    exists (used ++ [stpnt]). rewrite !app_assoc, <- Permutation_cons_append.
    constructor. by rewrite <- app_assoc.
  - intros [= <- <-]. split; [by apply entry_ok_intro|].
    exists [stpnt]. simpl. rewrite app_assoc, <- Permutation_cons_append.
    constructor. apply compress_split. by rewrite length_map.
Qed.

Lemma following_groups (fuel : nat) (newtol : Q) (tolpt : Z) (z : Q)
    (ctrds ctrds' : list entry) (empsl : list xy) :
  (1 <= tolpt)%Z ->
  following fuel newtol tolpt z ctrds empsl = Ok ctrds' ->
  exists new, ctrds' = ctrds ++ new /\ Forall (entry_ok tolpt z) new /\
    exists rest, concat (map snd new) ++ rest ≡ₚ empsl.
Proof.
  intros Ht. revert ctrds empsl.
  induction fuel as [|fuel IH]; intros ctrds empsl; simpl; [done|].
  destruct (py.getitem ctrds _) as [last_c| |]; simpl; try done.
  destruct (np.argmin _) as [idx| |] eqn:Hidx; simpl; try done.
  destruct (py.getitem empsl _) as [nearest| |] eqn:Hnear; simpl; try done.
  apply getitem_lookup in Hnear. apply delete_Permutation in Hnear.
  set (empsl1 := delete idx empsl) in *.
  set (dists := map (near newtol nearest) empsl1).
  pose proof (compress_split dists empsl1 ltac:(by unfold dists; rewrite length_map))
    as Hsplit.
  destruct (Z.of_nat (length (np.compress dists empsl1)) <? tolpt)%Z eqn:Hlen; simpl.
  - destruct (0 <? length empsl1)%nat eqn:Hne; simpl.
    + intros (new & -> & Hok & rest & Hperm)%IH.
      exists new. split; [done|]. split; [done|].
      exists (rest ++ [nearest]).
      by rewrite app_assoc, Hperm, <- Permutation_cons_append.
    + destruct (length empsl1 <? 1)%nat eqn:H1; [|apply Nat.ltb_ge in Hne, H1; lia].
      intros [= <-]. exists []. rewrite app_nil_r. split; [done|].
      split; [constructor|]. by exists empsl.
  - destruct (length empsl1 <? 1)%nat eqn:H1.
    + intros [= <-]. exists []. rewrite app_nil_r. split; [done|].
      split; [constructor|]. by exists empsl.
    + pose proof (entry_ok_intro tolpt z _ Ht Hlen) as Hentry.
      destruct (length (np.compress (map negb dists) empsl1) <? 1)%nat.
      * intros [= <-]. eexists [_]. split; [done|].
        split; [by constructor|]. simpl. rewrite app_nil_r.
        exists (np.compress (map negb dists) empsl1 ++ [nearest]).
        by rewrite app_assoc, Hsplit, <- Permutation_cons_append.
      * intros (new & -> & Hok & rest & Hperm)%IH.
        eexists (_ :: new). split; [by rewrite <- app_assoc|].
        split; [by constructor|]. simpl.
        exists (rest ++ [nearest]).
        rewrite <- app_assoc, (app_assoc _ rest), Hperm, app_assoc, Hsplit.
        by rewrite <- Permutation_cons_append.
Qed.

(** Every iteration of the second loop deletes a point: the fuel given
    by [trace_slice] is never exhausted. *)
Lemma following_fuel (fuel : nat) (newtol : Q) (tolpt : Z) (z : Q)
    (ctrds : list entry) (empsl : list xy) :
  (length empsl < fuel)%nat ->
  following fuel newtol tolpt z ctrds empsl <> OutOfFuel.
Proof.
  revert ctrds empsl. induction fuel as [|fuel IH]; intros ctrds empsl Hf; [lia|].
  simpl.
  destruct (py.getitem ctrds _) as [last_c| |] eqn:Hlast; simpl; try done.
  2:{ unfold py.getitem in Hlast. repeat case_match; done. }
  destruct (np.argmin _) as [idx| |] eqn:Hidx; simpl; try done.
  2:{ unfold np.argmin in Hidx. by case_match. }
  apply argmin_lt in Hidx. rewrite length_map in Hidx.
  destruct (py.getitem empsl _) as [nearest| |] eqn:Hnear; simpl; try done.
  2:{ unfold py.getitem in Hnear. repeat case_match; done. }
  assert (length (delete idx empsl) < fuel)%nat as Hdel.
  { pose proof (length_delete empsl idx) as Hd.
    destruct (lookup_lt_is_Some_2 empsl idx Hidx) as [x Hx].
    specialize (Hd (ex_intro _ x Hx)). lia. }
  set (empsl1 := delete idx empsl) in *.
  set (dists := map (near newtol nearest) empsl1).
  assert (length (np.compress (map negb dists) empsl1) <= length empsl1)%nat as Hle.
  { rewrite <- (compress_split dists empsl1) at 2 by (by unfold dists; rewrite length_map).
    rewrite length_app. lia. }
  repeat case_match; try done; apply IH; lia.
Qed.

Lemma trace_slice_chain (newtol : Q) (tolsl tolpt : Z) (z : Q) (sl : list row3)
    (chain : list entry) :
  (1 <= tolpt)%Z ->
  trace_slice newtol tolsl tolpt z sl = Ok (Some chain) ->
  chain_ok tolpt z sl chain.
Proof.
  intros Ht. unfold trace_slice.
  destruct (_ <? tolsl)%Z; [done|].
  destruct (first_centroid _ _ _ _) as [[e empsl]|] eqn:Hfirst; [|done].
  apply first_centroid_groups in Hfirst as (Hok & used & Hperm); [|done].
  destruct (following _ _ _ _ _ _) as [ctrds| |] eqn:Hrun; simpl; try done.
  intros [= <-].
  apply following_groups in Hrun as (new & -> & Hnew & rest & Hrest); [|done].
  split; [by constructor|].
  exists (rest ++ used). simpl.
  by rewrite <- Hperm, <- Hrest, <- !app_assoc.
Qed.

Lemma trace_slice_total (newtol : Q) (tolsl tolpt : Z) (z : Q) (sl : list row3) :
  trace_slice newtol tolsl tolpt z sl <> OutOfFuel.
Proof.
  unfold trace_slice. destruct (_ <? tolsl)%Z; [done|].
  destruct (first_centroid _ _ _ _) as [[e empsl]|]; [|done].
  pose proof (following_fuel (S (length empsl)) newtol tolpt z [e] empsl) as Hf.
  destruct (following _ _ _ _ _ _); simpl; try done.
  intros _. apply Hf; [lia | done].
Qed.

(** C8.  Every chain that [find_centroids] stores for a level is made
    of centroids that are each the mean (x, y) of a group of at least
    [tolpt] rows of that level's slice, and the groups of one chain are
    disjoint: laid end to end they use no row of the slice twice. *)
Theorem find_centroids_chains (fuel : nat) (draw : nat -> list nat) (minwthick : Q)
    (zcoords : list Q) (slices : py.dict (list row3)) (tolsl tolpt : Z)
    (tol tolincr : Q) (ctrds : py.dict (option (list entry))) :
  (1 <= tolpt)%Z ->
  find_centroids fuel draw minwthick zcoords slices tolsl tolpt tol tolincr = Ok ctrds ->
  forall z chain, py.get z ctrds = Ok (Some chain) ->
    exists z' sl, z' ∈ zcoords /\ z' == z /\ py.get z' slices = Ok sl /\
      chain_ok tolpt z' sl chain.
Proof.
  intros Ht. unfold find_centroids. intros Hrun.
  set (I := fun (pre : list (Q * list nat)) (c : py.dict (option (list entry))) =>
    forall z chain, py.get z c = Ok (Some chain) ->
      exists z' sl, z' ∈ map fst pre /\ z' == z /\ py.get z' slices = Ok sl /\
        chain_ok tolpt z' sl chain).
  assert (I (imap (fun i z => (z, draw i)) zcoords) ctrds) as Hinv.
  { eapply (for_each_partial _ I); [| |exact Hrun].
    - done.
    - intros pre [z0 d] st st1 IH. unfold centroids_step. simpl.
      destruct (py.get z0 slices) as [sl| |] eqn:Hsl; simpl; try done.
      destruct (for_each _ d []) as [slcheckpts| |]; simpl; try done.
      destruct (calibrate _ _ _ _ _ _ _) as [newtol| |]; simpl; try done.
      destruct (trace_slice _ _ _ _ _) as [r| |] eqn:Htrace; simpl; try done.
      intros [= <-] z chain. rewrite get_set, map_app.
      destruct (Qeq_bool z0 z) eqn:Hz.
      + intros [= ->]. exists z0, sl.
        split; [apply elem_of_app; right; by apply list_elem_of_singleton|].
        split; [by apply Qeq_bool_eq|]. split; [done|].
        by eapply trace_slice_chain.
      + intros (z' & sl' & Hz' & Hrest)%IH. exists z', sl'.
        split; [apply elem_of_app; by left | done]. }
  intros z chain (z' & sl & Hz' & Hrest)%Hinv. exists z', sl. split; [|done].
  apply list_elem_of_fmap in Hz' as ([z1 d] & -> & Hin).
  apply elem_of_lookup_imap in Hin as (i & z2 & [= -> _] & Hi).
  by eapply list_elem_of_lookup_2.
Qed.

Lemma find_centroids_chains_witness :
  let sl : list row3 :=
    map (fun i : nat => (inject_Z (Z.of_nat i), 0, 0)) (seq 0 12) in
  exists chain z' sl',
    length chain = 4%nat /\
    z' ∈ [0] /\ z' == 0 /\ py.get z' [(0, sl)] = Ok sl' /\ chain_ok 2 z' sl' chain.
Proof.
  intros sl.
  assert (exists c chain,
            find_centroids 10 (fun _ => [0%nat]) 4 [0] [(0, sl)] 10 2 (1 # 2) 2 = Ok c
            /\ py.get 0 c = Ok (Some chain) /\ length chain = 4%nat)
    as (c & chain & Hrun & Hget & Hlen).
  { eexists _, _. split; [vm_compute; reflexivity|].
    split; [vm_compute; reflexivity | reflexivity]. }
  assert (1 <= 2)%Z as Ht by discriminate.
  destruct (find_centroids_chains _ _ _ _ _ _ _ _ _ _ Ht Hrun 0 chain Hget)
    as (z' & sl' & H).
  exists chain, z', sl'. exact (conj Hlen H).
Defined.

End centroids.

(** ** Polygon building *)

Section polygon_facts.
Import Cloud2Polygons.
Context `{Shapely}.

(** The loop on one polygon never changes the ring: its answer is the
    validity of the ring it was given. *)
Lemma adjust_answer (fuel : nat) (minwthick tol tol' : Q) (g : geom) (b : bool) :
  adjust fuel minwthick tol g = Ok (b, tol') -> b = is_valid g.
Proof.
  revert tol. induction fuel as [|fuel IH]; intros tol; simpl; [done|].
  destruct (is_valid g) eqn:Hv; [by intros [= <- _]|].
  destruct (Qle_bool _ tol); simpl; [by intros [= <- _] | apply IH].
Qed.

(** [n] more steps of [minwthick / 50] reach [minwthick / 2.5]. *)
Lemma adjust_steps (n fuel : nat) (minwthick tol : Q) (g : geom) :
  (n < fuel)%nat -> 0 <= minwthick ->
  minwthick / (25 # 10) <= tol + inject_Z (Z.of_nat n) * (minwthick / 50) ->
  exists tol', adjust fuel minwthick tol g = Ok (is_valid g, tol') /\ tol <= tol'.
Proof.
  intros Hf Hm. assert (0 <= minwthick / 50) as Hs by (apply Qle_shift_div_l; lra).
  revert fuel tol Hf.
  induction n as [|n IH]; intros [|fuel] tol Hf Hn; try lia; simpl.
  - destruct (is_valid g); [exists tol; split; [done | lra]|].
    change (inject_Z (Z.of_nat 0)) with 0 in Hn.
    assert (minwthick / (25 # 10) <= tol) as Hle.
    { set (q := minwthick / (25 # 10)) in *. set (s := minwthick / 50) in *. lra. }
    apply Qle_bool_iff in Hle. rewrite Hle. simpl. exists tol. split; [done | lra].
  - destruct (is_valid g) eqn:Hv; [exists tol; split; [done | lra]|].
    destruct (Qle_bool _ tol); simpl; [exists tol; split; [done | lra]|].
    destruct (IH fuel (tol + minwthick / 50)) as (tol' & Hrun & Hle); [lia | |].
    + rewrite Nat2Z.inj_succ, <- Z.add_1_r, inject_Z_plus in Hn.
      change (inject_Z 1) with 1 in Hn.
      set (q := minwthick / (25 # 10)) in *. set (s := minwthick / 50) in *.
      set (k := inject_Z (Z.of_nat n)) in *. lra.
    + exists tol'. split; [done | lra].
Qed.

(** With a non-negative wall thickness and tolerance, twenty steps are
    enough: fuel 21 always gives an answer. *)
Lemma adjust_total (fuel : nat) (minwthick tol : Q) (g : geom) :
  (21 <= fuel)%nat -> 0 <= minwthick -> 0 <= tol ->
  exists tol', adjust fuel minwthick tol g = Ok (is_valid g, tol') /\ tol <= tol'.
Proof.
  intros Hf Hm Ht. apply (adjust_steps 20); [lia | done |].
  change (inject_Z (Z.of_nat 20)) with 20.
  assert (minwthick / (25 # 10) == 20 * (minwthick / 50)) as Heq by field.
  set (q := minwthick / (25 # 10)) in *. set (s := minwthick / 50) in *. lra.
Qed.

Lemma Qeq_bool_trans_r (k a b : Q) :
  a == b -> Qeq_bool k a = Qeq_bool k b.
Proof.
  intros Hab. destruct (Qeq_bool k b) eqn:Hb.
  - apply Qeq_eq_bool. apply Qeq_bool_eq in Hb. by rewrite Hab.
  - destruct (Qeq_bool k a) eqn:Ha; [|done].
    apply Qeq_bool_eq in Ha. rewrite Hab in Ha. apply Qeq_eq_bool in Ha. congruence.
Qed.

Lemma get_proper {V : Type} (a b : Q) (d : py.dict V) :
  a == b -> py.get a d = py.get b d.
Proof.
  intros Hab. induction d as [|[k v] d IH]; simpl; [done|].
  by rewrite (Qeq_bool_trans_r k a b Hab), IH.
Qed.

Lemma multipolygon_proper (cleanpolys : py.dict (list (list xy))) (a b : Q) :
  a == b -> multipolygon cleanpolys a = multipolygon cleanpolys b.
Proof.
  intros Hab. unfold multipolygon, valid_polygons. by rewrite (get_proper a b _ Hab).
Qed.

Lemma combine_loop (p : geom) (pre rest : list geom) (temp : geom) :
  for_each (fun temp j =>
      g ← py.getitem (p :: pre ++ rest) (Z.of_nat j + 1);
      Ok (symmetric_difference temp g))
    (seq (length pre) (length rest)) temp
  = Ok (fold_left symmetric_difference rest temp).
Proof.
  revert pre temp. induction rest as [|g rest IH]; intros pre temp; simpl; [done|].
  replace (Z.of_nat (length pre) + 1)%Z with (Z.of_nat (S (length pre))) by lia.
  assert (py.getitem (p :: pre ++ g :: rest) (Z.of_nat (S (length pre))) = Ok g) as ->.
  { apply getitem_lookup. simpl. by rewrite lookup_app_r, Nat.sub_diag. }
  simpl. specialize (IH (pre ++ [g]) (symmetric_difference temp g)).
  rewrite length_app, <- app_assoc in IH. simpl in IH.
  by replace (length pre + 1)%nat with (S (length pre)) in IH by lia.
Qed.

(** The index loop of the source is the left fold. *)
Lemma combine_fold (z : Q) (pgons : list geom) (polygs : py.dict geom) :
  combine z pgons polygs
  = Ok match pgons with
       | [] => polygs
       | p :: rest => py.set z (fold_left symmetric_difference rest p) polygs
       end.
Proof.
  unfold combine, try_combine. destruct pgons as [|p rest]; [done|].
  change (py.getitem (p :: rest) 0) with (Ok p). simpl mbind.
  destruct rest as [|g rest]; [done|].
  change (2 <=? length (p :: g :: rest))%nat with true. simpl length.
  rewrite Nat.sub_0_r.
  pose proof (combine_loop p [] (g :: rest) p) as Hloop. simpl in Hloop.
  simpl. by rewrite Hloop.
Qed.

Lemma polyline_step_ok (fuel : nat) (minwthick z : Q) (st : pstate) (pgons : list geom)
    (polyline : list xy) (g : geom) :
  (21 <= fuel)%nat -> 0 <= minwthick -> 0 <= tolsimpl st ->
  Polygon polyline = Some g ->
  exists st', polyline_step fuel minwthick z (st, pgons) polyline
              = Ok (st', pgons ++ (if is_valid g then [g] else []))
    /\ 0 <= tolsimpl st' /\ polygs st' = polygs st
    /\ invalidpolygons st'
       = invalidpolygons st ++ (if is_valid g then [] else [z]).
Proof.
  intros Hf Hm Ht Hg. unfold polyline_step. simpl. rewrite Hg.
  destruct (adjust_total fuel minwthick (tolsimpl st) g Hf Hm Ht) as (tol' & -> & Hle).
  rewrite bind_Ok. simpl.
  destruct (is_valid g); simpl; rewrite ?app_nil_r; eexists;
    (split; [reflexivity|]); simpl; (split; [lra | done]).
Qed.

Lemma level_pgons_ok (fuel : nat) (minwthick : Q)
    (cleanpolys : py.dict (list (list xy))) (st : pstate) (z : Q) :
  (21 <= fuel)%nat -> 0 <= minwthick -> 0 <= tolsimpl st ->
  (forall polylines, py.get z cleanpolys = Ok polylines ->
     Forall (fun pl => is_Some (Polygon pl)) polylines) ->
  py.has z cleanpolys = true ->
  exists st', level_pgons fuel minwthick cleanpolys st z
              = Ok (st', valid_polygons cleanpolys z)
    /\ 0 <= tolsimpl st' /\ polygs st' = polygs st
    /\ invalidpolygons st'
       = invalidpolygons st ++ map (fun _ => z) (invalid_rings cleanpolys z).
Proof.
  intros Hf Hm Ht Hconv (polylines & Hget)%has_get.
  unfold level_pgons, valid_polygons, invalid_rings. rewrite Hget. simpl.
  destruct (for_each_inv_on (fun pl => is_Some (Polygon pl))
              (polyline_step fuel minwthick z)
              (fun pre r =>
                 r.2 = List.filter is_valid (omap Polygon pre)
                 /\ 0 <= tolsimpl r.1 /\ polygs r.1 = polygs st
                 /\ invalidpolygons r.1
                    = invalidpolygons st
                      ++ map (fun _ => z)
                           (List.filter (fun g => negb (is_valid g)) (omap Polygon pre)))
              polylines (st, []))
    as ([st' pgons] & Hrun & Hpg & Htol & Hpol & Hinv).
  - by apply Hconv.
  - simpl. by rewrite app_nil_r.
  - intros pre pl [st1 pgons] [g Hg] (Hpg & Htol & Hpol & Hinv). simpl in *.
    destruct (polyline_step_ok fuel minwthick z st1 pgons pl g Hf Hm Htol Hg)
      as (st2 & Hstep & Htol2 & Hpol2 & Hinv2).
    eexists. split; [exact Hstep|]. simpl.
    rewrite omap_app, !List.filter_app. simpl. rewrite Hg. simpl.
    split; [|split; [done|split; [congruence|]]].
    + rewrite Hpg. by destruct (is_valid g).
    + rewrite Hinv2, Hinv, map_app, <- app_assoc. by destruct (is_valid g).
  - simpl in *. exists st'. rewrite Hrun, Hpg. done.
Qed.

Lemma level_step_ok (fuel : nat) (minwthick : Q)
    (cleanpolys : py.dict (list (list xy))) (st : pstate) (z : Q) :
  (21 <= fuel)%nat -> 0 <= minwthick -> 0 <= tolsimpl st ->
  (forall polylines, py.get z cleanpolys = Ok polylines ->
     Forall (fun pl => is_Some (Polygon pl)) polylines) ->
  py.has z cleanpolys = true ->
  exists st', level_step fuel minwthick cleanpolys st z = Ok st'
    /\ 0 <= tolsimpl st'
    /\ polygs st' = add_level cleanpolys (polygs st) z
    /\ invalidpolygons st'
       = invalidpolygons st ++ map (fun _ => z) (invalid_rings cleanpolys z).
Proof.
  intros Hf Hm Ht Hconv Hhas.
  destruct (level_pgons_ok fuel minwthick cleanpolys st z Hf Hm Ht Hconv Hhas)
    as (st1 & Hrun & Htol & Hpol & Hinv).
  unfold level_step. rewrite Hrun. simpl. rewrite combine_fold. simpl.
  eexists. split; [done|]. simpl. split; [done|]. split; [|done].
  unfold add_level, multipolygon. rewrite Hpol.
  by destruct (valid_polygons cleanpolys z).
Qed.

Lemma has_proper {V : Type} (a b : Q) (d : py.dict V) :
  a == b -> py.has a d = py.has b d.
Proof.
  intros Hab. unfold py.has. induction d as [|[k v] d IH]; simpl; [done|].
  by rewrite (Qeq_bool_trans_r k a b Hab), IH.
Qed.

Lemma fold_filter {A : Type} (f : A -> A -> bool) (rs l : list A) :
  fold_left (fun zc r => List.filter (fun z => f z r) zc) rs l
  = List.filter (fun z => forallb (f z) rs) l.
Proof.
  revert l. induction rs as [|r rs IH]; intros l; simpl.
  - induction l as [|x l IHl]; simpl; [done | by rewrite <- IHl].
  - rewrite IH. induction l as [|x l IHl]; simpl; [done|].
    destruct (f x r); simpl; [|done].
    destruct (forallb (f x) rs); by rewrite IHl.
Qed.

(** The levels that stay are those with an entry in [cleanpolys]. *)
Lemma remove_missing_filter (zcoords : list Q) (cleanpolys : py.dict (list (list xy))) :
  remove_missing zcoords cleanpolys
  = List.filter (fun z => py.has z cleanpolys) zcoords.
Proof.
  unfold remove_missing. rewrite fold_filter. apply List.filter_ext_in.
  intros z Hz. destruct (py.has z cleanpolys) eqn:Hhas.
  - apply forallb_forall. intros r [_ Hr]%filter_In.
    destruct (Qeq_bool z r) eqn:Hzr; [|done].
    apply Qeq_bool_eq in Hzr. rewrite (has_proper z r _ Hzr) in Hhas.
    by rewrite Hhas in Hr.
  - apply not_true_is_false. intros Hall.
    rewrite forallb_forall in Hall. specialize (Hall z).
    rewrite Qeq_bool_refl in Hall. simpl in Hall.
    assert (false = true); [|done]. apply Hall. apply filter_In. by rewrite Hhas.
Qed.

Lemma get_fold_add (cleanpolys : py.dict (list (list xy))) (k : Q) (l : list Q)
    (d0 : py.dict geom) :
  py.get k (fold_left (add_level cleanpolys) l d0)
  = if existsb (fun z => Qeq_bool z k) l
    then match multipolygon cleanpolys k with
         | Some m => Ok m
         | None => py.get k d0
         end
    else py.get k d0.
Proof.
  revert d0. induction l as [|x l IH]; intros d0; simpl; [done|].
  rewrite IH. unfold add_level at 1 2.
  destruct (Qeq_bool x k) eqn:Hx; simpl.
  - apply Qeq_bool_eq in Hx. rewrite (multipolygon_proper _ x k Hx).
    destruct (multipolygon cleanpolys k) as [m|] eqn:Hm.
    + rewrite get_set. apply Qeq_eq_bool in Hx. rewrite Hx. by destruct (existsb _ l).
    + by destruct (existsb _ l).
  - destruct (multipolygon cleanpolys x) as [m|]; [|done].
    by rewrite get_set, Hx.
Qed.

(** A run of [make_polygons]: fuel 21 is enough once the thickness and
    the tolerance are not negative and every polyline makes a ring. *)
Lemma make_polygons_run (fuel : nat) (minwthick : Q) (zcoords : list Q)
    (cleanpolys : py.dict (list (list xy))) (tol0 : Q) :
  (21 <= fuel)%nat -> 0 <= minwthick -> 0 <= tol0 ->
  (forall z polylines, py.get z cleanpolys = Ok polylines ->
     Forall (fun pl => is_Some (Polygon pl)) polylines) ->
  let levels := List.filter (fun z => py.has z cleanpolys) zcoords in
  make_polygons fuel minwthick zcoords cleanpolys tol0
  = Ok (fold_left (add_level cleanpolys) levels [],
        concat (map (fun z => map (fun _ => z) (invalid_rings cleanpolys z)) levels)).
Proof.
  intros Hf Hm Ht Hconv levels. unfold make_polygons.
  rewrite remove_missing_filter. fold levels.
  destruct (for_each_inv_on (fun z => py.has z cleanpolys = true)
              (level_step fuel minwthick cleanpolys)
              (fun pre st =>
                 0 <= tolsimpl st
                 /\ polygs st = fold_left (add_level cleanpolys) pre []
                 /\ invalidpolygons st
                    = concat (map (fun z => map (fun _ => z) (invalid_rings cleanpolys z)) pre))
              levels (PState tol0 None [] []))
    as (st & Hrun & _ & Hpol & Hinv).
  - apply List.Forall_forall. by intros z [_ Hz]%filter_In.
  - done.
  - intros pre z st Hz (Htol & Hpol & Hinv).
    destruct (level_step_ok fuel minwthick cleanpolys st z Hf Hm Htol (Hconv z) Hz)
      as (st' & Hstep & Htol' & Hpol' & Hinv').
    exists st'. split; [done|]. split; [done|].
    rewrite fold_left_app, map_app, concat_app. simpl.
    rewrite app_nil_r. split; congruence.
  - rewrite Hrun. simpl. by rewrite Hpol, Hinv.
Qed.

(** Whatever the run, the polygons a level keeps are valid, and the
    level loop leaves [polygs] alone. *)
Lemma level_pgons_valid (fuel : nat) (minwthick : Q)
    (cleanpolys : py.dict (list (list xy))) (st st1 : pstate) (z : Q) (pgons : list geom) :
  level_pgons fuel minwthick cleanpolys st z = Ok (st1, pgons) ->
  Forall (fun g => is_valid g = true) pgons /\ polygs st1 = polygs st.
Proof.
  unfold level_pgons. destruct (py.get z cleanpolys) as [polylines| |]; simpl; try done.
  intros Hrun.
  pose (Inv := fun (_ : list (list xy)) (r : pstate * list geom) =>
                Forall (fun g => is_valid g = true) r.2 /\ polygs r.1 = polygs st).
  assert (Inv polylines (st1, pgons)) as HI; [|exact HI].
  eapply (for_each_partial _ Inv); [| |exact Hrun]; [by split|].
  intros pre polyline [st0 pgons0] r [Hvalid Hpol]. unfold polyline_step, Inv. simpl in *.
  destruct (match Polygon polyline with Some g => Some g | None => newpgon st0 end)
    as [g|]; [|done].
  destruct (adjust fuel minwthick (tolsimpl st0) g) as [[b tol']| |] eqn:Hadj;
    simpl; try done.
  apply adjust_answer in Hadj. destruct b; intros [= <-]; simpl.
  - split; [|done]. apply Forall_app. split; [done|]. by constructor.
  - done.
Qed.


End polygon_facts.

Section polygon_examples.
Import Cloud2Polygons Rings.


(** C3.  A ring that crosses itself next to its closing vertex: the
    simplification at the first raised tolerance, [0.035 + 0.25/50],
    removes the crossing, so the repair the claim describes keeps the
    simplified ring.  The source drops the value of [simplify]: it
    steps the tolerance up to [0.25/2.5], abandons the ring and flags
    the level. *)
Theorem make_polygons_abandons_repairable_ring :
  let ring := [(0, 0); (4, 0); (4, 4); (0, 4); (1 # 50, - (1 # 50))] in
  let minwthick := 1 # 4 in
  let tolsimpl := 35 # 1000 in
  exists g,
    Polygon ring = Some g /\ is_valid g = false /\
    (exists g', adjust_spec 21 minwthick tolsimpl g = Ok (Some g') /\
       g' = simplify g (tolsimpl + minwthick / 50) /\ is_valid g' = true) /\
    (exists tol', adjust 21 minwthick tolsimpl g = Ok (false, tol') /\
       tol' == minwthick / (25 # 10)) /\
    make_polygons 21 minwthick [0] [(0, [ring])] tolsimpl = Ok ([], [0]).
Proof.
  intros ring minwthick tolsimpl. eexists. split; [reflexivity|].
  split; [by vm_compute|]. split; [|split].
  - eexists. split; [vm_compute; reflexivity|]. split; by vm_compute.
  - eexists. split; by vm_compute.
  - by vm_compute.
Qed.

End polygon_examples.

(** ** Voxel meshing *)

Section mesh_facts.
Import Cloud2Polygons Polygons2FEM.

Lemma getitem_Z_lookup {A : Type} (l : list A) (i : Z) (j : nat) :
  (0 <= i)%Z -> Z.to_nat i = j ->
  py.getitem l i = match l !! j with Some a => Ok a | None => Raise IndexError end.
Proof.
  intros Hi <-. unfold py.getitem.
  destruct (Z.ltb_spec i 0) as [?|_]; [lia|].
  by destruct (Z.ltb_spec i 0) as [?|_]; [lia|].
Qed.

(** With a single level the "previous" level [zcoords[z-1]] is index
    [-1], the level itself: the height is zero. *)
Lemma element_height_single (z0 : Q) :
  element_height [z0] 0 = Ok (z0 - z0).
Proof. reflexivity. Qed.



Lemma elem_of_nexists (tempn : node) (small : array) (i : nat) :
  i ∈ nexists tempn small <->
  exists row, small !! i = Some row /\ same_xyz tempn row = true.
Proof.
  unfold nexists, np.flatnonzero. rewrite elem_of_nonzero_from. simpl.
  split.
  - intros (k & -> & Hk). rewrite list_lookup_fmap in Hk.
    apply fmap_Some in Hk as (row & Hrow & Hsame). by exists row.
  - intros (row & Hrow & Hsame). exists i. split; [done|].
    by rewrite list_lookup_fmap, Hrow; simpl; rewrite Hsame.
Qed.

Lemma same_xyz_Some (tempn : node) (row : option node) :
  same_xyz tempn row = true -> exists r, row = Some r.
Proof. destruct row; [by eexists | done]. Qed.

(** The write [nodelist[nodeID - 1] = tempn], with the handler that
    grows the array. *)
Lemma store_or_grow (tot_elements : nat) (a : array) (i : nat) (tempn : node) :
  (i <= length a)%nat -> (2 <= tot_elements)%nat ->
  exists a',
    match store a i tempn with
    | Raise IndexError => store (a ++ spare tot_elements) i tempn
    | r => r
    end = Ok a'
    /\ a' !! i = Some (Some tempn)
    /\ forall j, j <> i -> (j < length a)%nat -> a' !! j = a !! j.
Proof.
  intros Hi Ht. unfold store.
  destruct (Nat.ltb_spec i (length a)) as [Hlt|Hge].
  - eexists. split; [done|]. split.
    + by apply list_lookup_insert_eq.
    + intros j Hj _. by apply list_lookup_insert_ne.
  - assert (1 <= tot_elements / 2)%nat as Hsp.
    { change 1%nat with (2 / 2)%nat. by apply Nat.Div0.div_le_mono. }
    assert (i < length (a ++ spare tot_elements))%nat as Hlt.
    { rewrite length_app. unfold spare. rewrite length_replicate. lia. }
    apply Nat.ltb_lt in Hlt. rewrite Hlt.
    eexists. split; [done|]. apply Nat.ltb_lt in Hlt. split.
    + by apply list_lookup_insert_eq.
    + intros j Hj Hja. rewrite list_lookup_insert_ne by done.
      by apply lookup_app_l.
Qed.

(** C10.  For every element after the first, the corner is compared
    with the window of earlier rows.  With exactly one row of equal
    (x, y, z) the id of that row is used and nothing is written.  With
    no such row, or with several, a new row with the next node id is
    written: coordinates that are already duplicated in the window are
    duplicated once more. *)
Theorem place_node_reuse (tot_elements z : nat) (st : mstate) (c : Q * Q * Q)
    (a small : array) :
  elID st <> 1%nat -> nodelist st = Some a -> window z st a = Ok small ->
  (nodeID st - 1 <= length a)%nat -> (2 <= tot_elements)%nat ->
  let tempn := Node (nodeID st) c.1.1 c.1.2 c.2 in
  match nexists tempn small with
  | [i] =>
      exists r, small !! i = Some (Some r) /\ same_xyz tempn (Some r) = true /\
        place_node tot_elements z st c = Ok (st, nid r)
  | _ =>
      exists a', place_node tot_elements z st c = Ok (allocated st a', nodeID st) /\
        a' !! (nodeID st - 1)%nat = Some (Some tempn) /\
        forall j, j <> (nodeID st - 1)%nat -> (j < length a)%nat -> a' !! j = a !! j
  end.
Proof.
  intros Hel Ha Hwin Hid Htot tempn.
  assert (place_node tot_elements z st c
          = if (length (nexists tempn small) =? 1)%nat then
              i ← py.getitem (nexists tempn small) 0;
              row ← py.getitem small (Z.of_nat i);
              match row with
              | Some r => Ok (st, nid r)
              | None => Raise ValueError
              end
            else
              a' ← match store a (nodeID st - 1) tempn with
                   | Raise IndexError => store (a ++ spare tot_elements) (nodeID st - 1) tempn
                   | r => r
                   end;
              Ok (allocated st a', nodeID st)) as Hplace.
  { unfold place_node. fold tempn.
    apply Nat.eqb_neq in Hel. rewrite Hel. simpl negb. cbv iota.
    unfold the_array. by rewrite Ha, bind_Ok, Hwin, bind_Ok. }
  destruct (store_or_grow tot_elements a (nodeID st - 1) tempn Hid Htot)
    as (a' & Hstore & Hnew & Hold).
  destruct (nexists tempn small) as [|i [|i' found]] eqn:Hfound.
  - exists a'. by rewrite Hplace, Hstore.
  - assert (i ∈ nexists tempn small) as (row & Hrow & Hsame)%elem_of_nexists.
    { rewrite Hfound. by apply list_elem_of_singleton. }
    destruct (same_xyz_Some _ _ Hsame) as [r ->].
    exists r. split; [done|]. split; [done|]. rewrite Hplace.
    change (py.getitem [i] 0) with (Ok i). cbn [length Nat.eqb].
    by rewrite bind_Ok, (proj2 (getitem_lookup small i (Some r)) Hrow).
  - exists a'. by rewrite Hplace, Hstore.
Qed.

(** Two rows with the coordinates of the new corner are in the window:
    a third row is written. *)
Lemma place_node_reuse_witness :
  let a := [Some (Node 1 0 0 0); Some (Node 2 0 0 0); None; None] in
  let st := MState 3 2 (Some a) [] [] 2 in
  exists a', place_node 4 0 st (0, 0, 0) = Ok (allocated st a', 3%nat) /\
    a' !! 2%nat = Some (Some (Node 3 0 0 0)).
Proof.
  intros a st.
  pose proof (place_node_reuse 4 0 st (0, 0, 0) a (take 3 a)) as Hth.
  destruct Hth as (a' & Hrun & Hnew & _); [done | done | done | simpl; lia | lia |].
  by exists a'.
Defined.

(** The first element: its eight nodes are written without any look-up. *)
Lemma place_node_first (tot_elements z : nat) (st : mstate) (c : Q * Q * Q)
    (id : nat) (st' : mstate) :
  elID st = 1%nat ->
  place_node tot_elements z st c = Ok (st', id) ->
  id = nodeID st /\ nodeID st' = S (nodeID st).
Proof.
  intros Hel. unfold place_node. rewrite Hel. simpl negb. cbv iota.
  destruct (nodeID st =? 1)%nat.
  - destruct (store _ _ _); simpl; try done. by intros [= <- <-].
  - destruct (the_array st); simpl; try done.
    destruct (store _ _ _); simpl; try done. by intros [= <- <-].
Qed.

End mesh_facts.

Section scan_facts.
Import Cloud2Polygons Polygons2FEM.
Context `{Shapely}.

Lemma has_set {V : Type} (z k : Q) (v : V) (d : py.dict V) :
  py.has k (py.set z v d) = Qeq_bool z k || py.has k d.
Proof.
  unfold py.has. induction d as [|[k0 v0] d IH]; simpl.
  - by rewrite orb_false_r.
  - destruct (Qeq_bool k0 z) eqn:Hz; simpl.
    + rewrite (Qeq_bool_trans_l _ _ k Hz). by destruct (Qeq_bool z k).
    + rewrite IH. by destruct (Qeq_bool k0 k), (Qeq_bool z k).
Qed.

Lemma hit_proper (polygs : py.dict geom) (a b : Q) :
  a == b -> hit polygs a -> hit polygs b.
Proof.
  intros Hab (g & p & Hg & Hp). exists g, p. by rewrite <- (get_proper a b _ Hab).
Qed.

Lemma scan_level_hits (polygs : py.dict geom) (xelgrid yelgrid : list Q)
    (acc acc' : py.dict (list (nat * nat)) * nat) (z : Q) :
  (forall k, py.has k acc.1 = true -> hit polygs k) ->
  scan_level polygs xelgrid yelgrid acc z = Ok acc' ->
  (forall k, py.has k acc'.1 = true -> hit polygs k) /\
  py.has z acc'.1 = true /\
  (forall k, py.has k acc.1 = true -> py.has k acc'.1 = true).
Proof.
  intros Hacc. unfold scan_level.
  set (J := fun r : py.dict (list (nat * nat)) * nat * nat =>
              (forall k, py.has k r.1.1 = true -> hit polygs k)
              /\ (forall k, py.has k acc.1 = true -> py.has k r.1.1 = true)).
  destruct (for_each _ (seq 0 (length xelgrid)) _) as [r| |] eqn:Hrun; simpl; try done.
  assert (J r) as [Hr Hkeep].
  { eapply (for_each_partial _ (fun _ => J)); [| |exact Hrun]; [done|].
    intros _ x r0 r1 HJ0 Hx.
    eapply (for_each_partial _ (fun _ => J)); [exact HJ0| |exact Hx].
    intros _ y [[elemlist initstack] tot] r2 [HJ1 HJ1'].
    destruct (py.get z polygs) as [g| |] eqn:Hg; simpl; try done.
    destruct (py.getitem xelgrid _) as [xe| |]; simpl; try done.
    destruct (py.getitem yelgrid _) as [ye| |]; simpl; try done.
    destruct (contains g (xe, ye)) eqn:Hc; [|by intros [= <-]].
    assert (forall k, Qeq_bool z k = true -> hit polygs k) as Hz.
    { intros k Hk%Qeq_bool_eq. apply (hit_proper _ z k Hk). by exists g, (xe, ye). }
    destruct (negb _).
    - destruct (py.get z elemlist); simpl; try done. intros [= <-].
      unfold J. simpl in *. split; intros k; rewrite has_set.
      + intros [?|?]%orb_true_iff; auto.
      + intros ?%HJ1'. by rewrite orb_true_iff; right.
    - intros [= <-]. unfold J. simpl in *. split; intros k; rewrite has_set.
      + intros [?|?]%orb_true_iff; auto.
      + intros ?%HJ1'. by rewrite orb_true_iff; right. }
  destruct r as [[elemlist initstack] tot]. simpl in *.
  destruct (py.get z elemlist) as [cells| |] eqn:Hcells; simpl; try done.
  intros [= <-]. simpl.
  assert (py.has z elemlist = true) as Hz by (apply has_get; by eexists).
  split; [|split].
  - intros k. rewrite has_set. intros [Hk%Qeq_bool_eq|?]%orb_true_iff; [|auto].
    apply (hit_proper _ z k Hk). auto.
  - by rewrite has_set, Qeq_bool_refl.
  - intros k Hk%Hkeep. by rewrite has_set, Hk, orb_true_r.
Qed.

(** [make_mesh] returns a mesh only if every level has a MultiPolygon
    that contains some point: a level without an entry, or whose
    MultiPolygon is empty, makes the whole call fail. *)
Lemma make_mesh_needs_cells (xeldim yeldim xmin ymin xmax ymax : Q)
    (zcoords : list Q) (polygs : py.dict geom) (m : mesh) :
  make_mesh xeldim yeldim xmin ymin xmax ymax zcoords polygs = Ok m ->
  forall z, z ∈ zcoords -> hit polygs z.
Proof.
  unfold make_mesh.
  destruct (np.arange _ _ xeldim) as [xngrid| |]; simpl; try done.
  destruct (np.arange _ _ yeldim) as [yngrid| |]; simpl; try done.
  set (xelgrid := map _ (take _ xngrid)). set (yelgrid := map _ (take _ yngrid)).
  destruct (for_each (scan_level _ _ _) zcoords _) as [scan| |] eqn:Hscan; simpl; try done.
  intros _.
  assert ((forall k, py.has k scan.1 = true -> hit polygs k)
          /\ forall z, z ∈ zcoords -> py.has z scan.1 = true) as [Hhit Hkeys].
  { eapply (for_each_partial _ (fun pre acc =>
      (forall k, py.has k acc.1 = true -> hit polygs k)
      /\ forall z, z ∈ pre -> py.has z acc.1 = true)); [| |exact Hscan].
    - split; [done|]. intros z Hz. by apply elem_of_nil in Hz.
    - intros pre z acc acc' [Hacc Hpre] Hstep.
      destruct (scan_level_hits _ _ _ _ _ _ Hacc Hstep) as (Hacc' & Hz & Hkeep).
      split; [done|].
      intros k [Hk|Hk%list_elem_of_singleton]%elem_of_app; [auto | by subst]. }
  intros z Hz. auto.
Qed.

End scan_facts.

(** ** The node table of a mesh with two or more levels *)

Section mesh_invariant.
Import Cloud2Polygons Polygons2FEM.

Lemma ceq_refl c : ceq c c.
Proof. by repeat split. Qed.
Lemma ceq_sym c c' : ceq c c' -> ceq c' c.
Proof. intros (? & ? & ?). by repeat split. Qed.
Lemma ceq_trans c c' c'' : ceq c c' -> ceq c' c'' -> ceq c c''.
Proof. intros (? & ? & ?) (? & ? & ?). repeat split; etransitivity; eauto. Qed.

Lemma same_xyz_ceq (tempn r : node) :
  same_xyz tempn (Some r) = true <-> ceq (coords tempn) (coords r).
Proof.
  unfold same_xyz, ceq, coords. simpl.
  rewrite !andb_true_iff, !Qeq_bool_iff. tauto.
Qed.

Lemma store_Ok (a a' : list (option node)) (i : nat) (tempn : node) :
  store a i tempn = Ok a' -> (i < length a)%nat /\ a' = <[i := Some tempn]> a.
Proof.
  unfold store. destruct (Nat.ltb_spec i (length a)); [|done]. by intros [= <-].
Qed.

(** A successful write, with or without the growth of the array. *)
Lemma store_grow_Ok (tot : nat) (a a' : list (option node)) (i : nat) (tempn : node) :
  match store a i tempn with
  | Raise IndexError => store (a ++ spare tot) i tempn
  | r => r
  end = Ok a' ->
  a' !! i = Some (Some tempn) /\
  (forall j r, j <> i -> a' !! j = Some (Some r) <-> a !! j = Some (Some r)).
Proof.
  unfold store at 1. destruct (Nat.ltb_spec i (length a)) as [Hlt|Hge].
  - intros [= <-]. split; [by apply list_lookup_insert_eq|].
    intros j r Hj. by rewrite list_lookup_insert_ne.
  - intros [Hlt ->]%store_Ok. split; [by apply list_lookup_insert_eq|].
    intros j r Hj. rewrite list_lookup_insert_ne by done.
    destruct (decide (j < length a)%nat) as [Hj'|Hj'].
    + by rewrite lookup_app_l.
    + rewrite lookup_app_r by lia. unfold spare.
      rewrite (lookup_ge_None_2 a j) by lia. split; [|done].
      intros [? _]%lookup_replicate. done.
Qed.

Lemma window_lookup (z : nat) (st : mstate) (a small : list (option node)) (k : nat) (row : option node) :
  window z st a = Ok small ->
  (small !! k = Some row <->
   exists s, (if (2 <? z)%nat then ignore st !! (z - 2)%nat = Some s else s = 0%nat)
     /\ (s + k < nodeID st)%nat /\ a !! (s + k)%nat = Some row).
Proof.
  unfold window. destruct (Nat.ltb_spec 2 z) as [Hz|Hz].
  - rewrite (getitem_Z_lookup _ _ (z - 2)%nat) by lia.
    destruct (ignore st !! (z - 2)%nat) as [s|]; simpl; [|done].
    intros [= <-]. split.
    + intros Hk. exists s. split; [done|].
      assert (k < nodeID st - s)%nat as Hlt.
      { apply lookup_lt_Some in Hk. rewrite length_take in Hk. lia. }
      rewrite lookup_take_lt, lookup_drop in Hk by done. split; [lia | done].
    + intros (s' & [= <-] & Hlt & Hrow).
      rewrite lookup_take_lt, lookup_drop by lia. done.
  - intros [= <-]. split.
    + intros Hk. exists 0%nat. split; [done|].
      assert (k < nodeID st)%nat as Hlt.
      { apply lookup_lt_Some in Hk. rewrite length_take in Hk. lia. }
      rewrite lookup_take_lt in Hk by done. done.
    + intros (s' & -> & Hlt & Hrow). simpl in *. by rewrite lookup_take_lt.
Qed.

Lemma allocated_inv (st : mstate) (c : Q * Q * Q) (a' : list (option node)) :
  mesh_inv st ->
  (forall i r, rows st !! i = Some (Some r) -> ~ ceq c (coords r)) ->
  let tempn := Node (nodeID st) c.1.1 c.1.2 c.2 in
  a' !! (nodeID st - 1)%nat = Some (Some tempn) ->
  (forall j r, j <> (nodeID st - 1)%nat ->
     a' !! j = Some (Some r) <-> rows st !! j = Some (Some r)) ->
  placed st c (allocated st a') (nodeID st).
Proof.
  intros [Hid Hzig Hrows Hbound Huniq] Hfresh tempn Hnew Hold.
  assert (coords tempn = c) as Hc by (by destruct c as [[? ?] ?]).
  assert (forall j r, a' !! j = Some (Some r) ->
            (j = (nodeID st - 1)%nat /\ r = tempn)
            \/ (j <> (nodeID st - 1)%nat /\ rows st !! j = Some (Some r))) as Hcases.
  { intros j r Hj. destruct (decide (j = (nodeID st - 1)%nat)) as [->|Hne].
    - left. split; [done|]. congruence.
    - right. split; [done|]. by apply Hold. }
  unfold placed, allocated, rows; simpl. fold (rows st).
  split; [split; simpl|]; fold (rows st).
  - lia.
  - lia.
  - intros i Hi. destruct (decide (i = (nodeID st - 1)%nat)) as [->|Hne].
    + exists tempn. split; [done|]. simpl. lia.
    + destruct (Hrows i) as (r & Hr & Hnid); [lia|]. exists r. split; [|done].
      by apply Hold.
  - intros i r [[-> _]|[Hne Hr%Hbound]]%Hcases; lia.
  - intros i j r r' [[-> ->]|[Hi Hr]]%Hcases [[-> ->]|[Hj Hr']]%Hcases Heq; try done.
    + rewrite Hc in Heq. by apply Hfresh in Hr'.
    + rewrite Hc in Heq. apply ceq_sym in Heq. by apply Hfresh in Hr.
    + by eapply Huniq.
  - split; [done|]. split; [done|]. split; [done|]. split; [lia|].
    split; [|split].
    + intros i r Hr. apply Hold; [|done]. apply Hbound in Hr. lia.
    + intros i r [[-> ->]|[_ Hr]]%Hcases; [right | by left].
      split; [lia|]. rewrite Hc. apply ceq_refl.
    + exists tempn. split; [done|]. split; [done|]. rewrite Hc. apply ceq_refl.
Qed.

Lemma place_node_inv (tot z : nat) (st : mstate) (c : Q * Q * Q) (st' : mstate) (id : nat) :
  mesh_inv st ->
  (elID st <> 1%nat -> forall i r, rows st !! i = Some (Some r) -> ceq c (coords r) ->
     in_window z st i) ->
  (elID st = 1%nat -> forall i r, rows st !! i = Some (Some r) -> ~ ceq c (coords r)) ->
  place_node tot z st c = Ok (st', id) ->
  placed st c st' id.
Proof.
  intros Hinv Hcover Hfirst. unfold place_node.
  set (tempn := Node (nodeID st) c.1.1 c.1.2 c.2).
  assert (coords tempn = c) as Hc by (by destruct c as [[? ?] ?]).
  destruct (Nat.eqb_spec (elID st) 1) as [Hel|Hel]; simpl negb; cbv iota.
  - (* the first element *)
    specialize (Hfirst Hel).
    destruct (Nat.eqb_spec (nodeID st) 1) as [Hn|Hn].
    + destruct (store _ _ _) as [a'| |] eqn:Hst; simpl; try done.
      intros [= <- <-]. apply store_Ok in Hst as [Hlt ->].
      apply allocated_inv; [done | done | by apply list_lookup_insert_eq |].
      intros j r Hj. rewrite list_lookup_insert_ne by done. unfold spare. split.
      * by intros [? _]%lookup_replicate.
      * intros Hr. apply (inv_bound _ Hinv) in Hr. lia.
    + unfold the_array. destruct (nodelist st) as [a|] eqn:Ha; simpl; [|done].
      destruct (store _ _ _) as [a'| |] eqn:Hst; simpl; try done.
      intros [= <- <-]. apply store_Ok in Hst as [Hlt ->].
      apply allocated_inv; [done | done | by apply list_lookup_insert_eq |].
      intros j r Hj. rewrite list_lookup_insert_ne by done. unfold rows. by rewrite Ha.
  - (* the later elements *)
    specialize (Hcover Hel).
    unfold the_array. destruct (nodelist st) as [a|] eqn:Ha; simpl; [|done].
    assert (rows st = a) as Hrowsa by (unfold rows; by rewrite Ha).
    destruct (window z st a) as [small| |] eqn:Hwin; simpl; try done.
    fold tempn.
    assert (forall k, k ∈ nexists tempn small <->
              exists s r, (if (2 <? z)%nat then ignore st !! (z - 2)%nat = Some s else s = 0%nat)
                /\ a !! (s + k)%nat = Some (Some r) /\ ceq c (coords r)) as Hfound.
    { intros k. rewrite elem_of_nexists. split.
      - intros (row & Hrow & Hsame). destruct (same_xyz_Some _ _ Hsame) as [r ->].
        apply (window_lookup _ _ _ _ _ _ Hwin) in Hrow as (s & Hs & Hlt & Hrow).
        exists s, r. split; [done|]. split; [done|].
        apply same_xyz_ceq in Hsame. by rewrite Hc in Hsame.
      - intros (s & r & Hs & Hrow & Heq). exists (Some r). split.
        + apply (window_lookup _ _ _ _ _ _ Hwin). exists s. split; [done|]. split; [|done].
          rewrite <- Hrowsa in Hrow. apply (inv_bound _ Hinv) in Hrow. lia.
        + apply same_xyz_ceq. by rewrite Hc. }
    destruct (nexists tempn small) as [|k [|k' found]] eqn:Hne.
    + (* nothing found: a new row *)
      simpl. destruct (match store a _ tempn with Raise IndexError => _ | r => r end)
        as [a'| |] eqn:Hst; simpl; try done.
      intros [= <- <-]. apply store_grow_Ok in Hst as [Hnew Hold].
      apply allocated_inv; [done | | done | by rewrite Hrowsa].
      intros i r Hr Heq. specialize (Hcover i r Hr Heq). unfold in_window in Hcover.
      assert (exists s, (if (2 <? z)%nat then ignore st !! (z - 2)%nat = Some s else s = 0%nat)
                /\ (s <= i)%nat) as (s & Hs & Hsi).
      { destruct (2 <? z)%nat; [done | by exists 0%nat; split; [|lia]]. }
      assert ((i - s)%nat ∈ @nil nat) as Hin; [|by apply elem_of_nil in Hin].
      apply Hfound. exists s, r. split; [done|]. split; [|done].
      rewrite <- Hrowsa. by replace (s + (i - s))%nat with i by lia.
    + (* exactly one row found: its id *)
      assert (k ∈ [k]) as (s & r & Hs & Hrow & Heq)%Hfound by (by apply list_elem_of_singleton).
      simpl.
      assert (small !! k = Some (Some r)) as Hk.
      { apply (window_lookup _ _ _ _ _ _ Hwin). exists s. split; [done|]. split; [|done].
        rewrite <- Hrowsa in Hrow. apply (inv_bound _ Hinv) in Hrow. lia. }
      rewrite (proj2 (getitem_lookup small k (Some r)) Hk), bind_Ok.
      intros [= <- <-]. rewrite <- Hrowsa in Hrow.
      split; [done|]. do 4 (split; [done|]). split; [done|]. split; [by left|].
      destruct (inv_rows _ Hinv (s + k)%nat) as (r' & Hr' & Hnid).
      { by apply (inv_bound _ Hinv) in Hrow. }
      assert (r' = r) as -> by congruence.
      exists r. rewrite Hnid. simpl. rewrite Nat.sub_0_r. done.
    + (* several rows found: ruled out by the invariant *)
      exfalso.
      assert (k ∈ k :: k' :: found) as (s & r & Hs & Hrow & Heq)%Hfound
        by (apply elem_of_cons; by left).
      assert (k' ∈ k :: k' :: found) as (s' & r' & Hs' & Hrow' & Heq')%Hfound
        by (apply elem_of_cons; right; apply elem_of_cons; by left).
      assert (s' = s) as -> by (destruct (2 <? z)%nat; congruence).
      rewrite <- Hrowsa in Hrow, Hrow'.
      assert (s + k = s + k')%nat as Hkk.
      { eapply (inv_uniq _ Hinv); [done | done |].
        eapply ceq_trans; [by apply ceq_sym | done]. }
      pose proof (NoDup_nonzero_from 0 (map (same_xyz tempn) small)) as Hnd.
      fold (np.flatnonzero (map (same_xyz tempn) small)) in Hnd.
      fold (nexists tempn small) in Hnd. rewrite Hne in Hnd.
      apply NoDup_cons in Hnd as [Hnotin _]. apply Hnotin.
      apply elem_of_cons. left. lia.
Qed.

Lemma for_each_partial_pos {S X : Type} (body : S -> X -> outcome S)
    (I : list X -> S -> Prop) (l : list X) (st0 st' : S) :
  I [] st0 ->
  (forall pre x post st st1, l = pre ++ x :: post ->
     I pre st -> body st x = Ok st1 -> I (pre ++ [x]) st1) ->
  for_each body l st0 = Ok st' -> I l st'.
Proof.
  intros H0 Hstep.
  cut (forall pre post st, l = pre ++ post -> I pre st ->
         for_each body post st = Ok st' -> I l st').
  { intros Hcut. by apply (Hcut [] l st0). }
  intros pre post. revert pre. induction post as [|x post IH]; intros pre st Hl Hst; simpl.
  - intros [= <-]. by rewrite Hl, app_nil_r.
  - destruct (body st x) as [st1| |] eqn:Hb; simpl; try done.
    apply (IH (pre ++ [x])); [by rewrite <- app_assoc|]. by eapply Hstep.
Qed.

Lemma arange_inj (start stop step : Q) (g : list Q) :
  np.arange start stop step = Ok g -> grid_inj g.
Proof.
  unfold np.arange. destruct (Qeq_bool step 0) eqn:Hz; [done|]. intros [= <-].
  assert (~ step == 0) as Hstep.
  { intros Heq. apply Qeq_eq_bool in Heq. congruence. }
  intros i j u v [_ ->]%ramp_lookup [_ ->]%ramp_lookup Huv.
  assert (inject_Z (Z.of_nat i) == inject_Z (Z.of_nat j)) as Hij.
  { apply Qplus_inj_l in Huv. by apply Qmult_inj_r in Huv. }
  rewrite inject_Z_injective in Hij. lia.
Qed.

Lemma corner_Ok (xngrid yngrid : list Q) (elem : nat * nat) (crntz elh : Q) (node : nat)
    (c : Q * Q * Q) :
  corner xngrid yngrid elem crntz elh node = Ok c ->
  exists x y, xngrid !! (elem.1 + dxo node)%nat = Some x /\
    yngrid !! (elem.2 + dyo node)%nat = Some y /\
    c = (x, y, if (node <? 4)%nat then crntz else crntz + elh).
Proof.
  unfold corner.
  destruct (py.getitem xngrid _) as [x| |] eqn:Hx; simpl; try done.
  destruct (py.getitem yngrid _) as [y| |] eqn:Hy; simpl; try done.
  intros [= <-]. apply getitem_lookup in Hx, Hy. by exists x, y.
Qed.

Lemma corner_distinct (xngrid yngrid : list Q) (elem : nat * nat) (crntz elh : Q)
    (i j : nat) (c c' : Q * Q * Q) :
  grid_inj xngrid -> grid_inj yngrid -> ~ elh == 0 ->
  (i < 8)%nat -> (j < 8)%nat ->
  corner xngrid yngrid elem crntz elh i = Ok c ->
  corner xngrid yngrid elem crntz elh j = Ok c' ->
  ceq c c' -> i = j.
Proof.
  intros Hx Hy Hh Hi Hj (x & y & Hxi & Hyi & ->)%corner_Ok
    (x' & y' & Hxj & Hyj & ->)%corner_Ok (Hex & Hey & Hez). simpl in *.
  pose proof (Hx _ _ _ _ Hxi Hxj Hex) as Hdx.
  pose proof (Hy _ _ _ _ Hyi Hyj Hey) as Hdy.
  assert ((i <? 4)%nat = (j <? 4)%nat) as Hdz.
  { destruct (i <? 4)%nat, (j <? 4)%nat; try done; exfalso; apply Hh; lra. }
  do 8 (destruct i as [|i]; [do 8 (destruct j as [|j]; [simpl in *; done || lia|]); lia|]).
  lia.
Qed.

Lemma mesh_inv_ext (st st' : mstate) :
  nodeID st' = nodeID st -> zignore st' = zignore st -> nodelist st' = nodelist st ->
  mesh_inv st -> mesh_inv st'.
Proof.
  intros Hn Hz Hl [H1 H2 H3 H4 H5].
  assert (rows st' = rows st) as Hr by (unfold rows; by rewrite Hl).
  split; rewrite ?Hn, ?Hz, ?Hr; done.
Qed.

Lemma in_window_ext (z : nat) (st st' : mstate) (i : nat) :
  ignore st' = ignore st -> in_window z st i -> in_window z st' i.
Proof. unfold in_window. by intros ->. Qed.

Lemma element_step_inv (tot : nat) (xngrid yngrid : list Q) (z : nat) (crntz elh : Q)
    (st : mstate) (zel : list (list nat)) (elem : nat * nat)
    (st' : mstate) (zel' : list (list nat)) :
  grid_inj xngrid -> grid_inj yngrid -> 0 < elh ->
  mesh_inv st -> (elID st = 1%nat -> nodeID st = 1%nat) -> level_cover z crntz st ->
  element_step tot xngrid yngrid z crntz elh (st, zel) elem = Ok (st', zel') ->
  stepped crntz elh st st' /\ elID st' = S (elID st) /\
  exists row, zel' = zel ++ [row] /\ row_ok st' row.
Proof.
  intros Hgx Hgy Hh Hinv Hfirst [Hcov1 Hcov2]. unfold element_step. cbn [fst snd].
  match goal with |- context [for_each ?b (seq 0 8) _] => set (body := b) end.
  destruct (for_each body (seq 0 8) (st, [elID st])) as [[st1 tempel]| |] eqn:Hrun;
    try done.
  rewrite bind_Ok. cbn [fst snd]. intros [= <- <-].
  pose (EJ := fun (pre : list nat) (r : mstate * list nat) =>
    mesh_inv r.1 /\ elID r.1 = elID st /\ ignore r.1 = ignore st /\
    elconnect r.1 = elconnect st /\ (nodeID st <= nodeID r.1)%nat /\
    (forall i r0, rows st !! i = Some (Some r0) -> rows r.1 !! i = Some (Some r0)) /\
    (forall i r0, rows r.1 !! i = Some (Some r0) ->
       rows st !! i = Some (Some r0)
       \/ ((nodeID st - 1 <= i)%nat /\ exists m cm, m ∈ pre /\
             corner xngrid yngrid elem crntz elh m = Ok cm /\ ceq cm (coords r0))) /\
    exists ids, r.2 = elID st :: ids /\
      Forall2 (fun m id => exists r0 cm,
                 rows r.1 !! (id - 1)%nat = Some (Some r0) /\ nid r0 = id /\
                 corner xngrid yngrid elem crntz elh m = Ok cm /\ ceq cm (coords r0))
        pre ids).
  assert (EJ (seq 0 8) (st1, tempel))
    as (Hinv1 & Hel1 & Hig1 & Hec1 & Hn1 & Hsub & Hnew & ids & Htempel & Hids);
    [|cbn [fst snd] in *; subst tempel].
  { eapply (for_each_partial_pos body EJ); [| |exact Hrun].
    - unfold EJ. simpl. do 5 (split; [done|]). split; [done|]. split; [by left|].
      exists []. split; [done | constructor].
    - intros pre x post [st0 tempel0] r1 Hseq
        (Hinv0 & Hel0 & Hig0 & Hec0 & Hn0 & Hsub0 & Hnew0 & ids0 & Htemp & Hids0) Hbody.
      cbn [fst snd] in *. subst tempel0. unfold body in Hbody. cbn [fst snd] in Hbody.
      destruct (corner xngrid yngrid elem crntz elh x) as [c| |] eqn:Hc; simpl in Hbody; try done.
      destruct (place_node tot z st0 c) as [[st2 id]| |] eqn:Hplace; simpl in Hbody; try done.
      injection Hbody as <-.
      assert ((x ∉ pre) /\ (x < 8)%nat /\ forall m, m ∈ pre -> (m < 8)%nat) as (Hxpre & Hx8 & Hpre8).
      { assert (NoDup (pre ++ x :: post)) as Hnd by (rewrite <- Hseq; apply (NoDup_seq 0 8)).
        assert (forall m, m ∈ pre ++ x :: post -> (m < 8)%nat) as Hlt.
        { intros m Hm. rewrite <- Hseq in Hm. apply elem_of_seq in Hm. lia. }
        apply NoDup_app in Hnd as (_ & Hdisj & _). split; [|split].
        - intros Hin. apply (Hdisj x Hin). apply elem_of_cons. by left.
        - apply Hlt. apply elem_of_app. right. apply elem_of_cons. by left.
        - intros m Hm. apply Hlt. apply elem_of_app. by left. }
      destruct (corner_Ok _ _ _ _ _ _ _ Hc) as (cx & cy & _ & _ & Hcz).
      assert (crntz <= c.2) as Hcz'.
      { rewrite Hcz. cbn [fst snd]. destruct (x <? 4)%nat; lra. }
      apply place_node_inv in Hplace
        as (Hinv2 & Hel2 & Hig2 & Hec2 & Hn2 & Hsub2 & Hnew2 & r2 & Hr2 & Hnid2 & Hceq2);
        [|done| |].
      + unfold EJ. simpl. split; [done|]. split; [congruence|]. split; [congruence|].
        split; [congruence|]. split; [lia|]. split; [by auto|]. split.
        * intros i r0 [Hold|[Hi Heq]]%Hnew2.
          -- apply Hnew0 in Hold as [?|(Hi & m & cm & Hm & Hcm & Heq)]; [by left|].
             right. split; [done|]. exists m, cm. split; [|done].
             apply elem_of_app. by left.
          -- right. split; [lia|]. exists x, c. split; [|done].
             apply elem_of_app. right. by apply list_elem_of_singleton.
        * exists (ids0 ++ [id]). split; [done|]. apply Forall2_app.
          -- eapply Forall2_impl; [exact Hids0|]. simpl.
             intros m id0 (r0 & cm & Hr0 & ?). exists r0, cm. split; [by apply Hsub2 | done].
          -- constructor; [|constructor]. by exists r2, c.
      + (* later elements: matching rows lie in the window *)
        intros Hne i r0 Hr0 Heq. apply (in_window_ext z st); [done|].
        apply Hnew0 in Hr0 as [Hold|[Hi _]]; [|by apply Hcov2].
        apply (Hcov1 i r0 Hold). destruct Heq as (_ & _ & Heq). simpl in Heq. lra.
      + (* the first element: the corner is new *)
        intros Heq1 i r0 Hr0 Heq. rewrite Hel0 in Heq1. specialize (Hfirst Heq1).
        apply Hnew0 in Hr0 as [Hold|(_ & m & cm & Hm & Hcm & Heqm)].
        * apply (inv_bound _ Hinv) in Hold. lia.
        * assert (x = m) as ->; [|done].
          eapply (corner_distinct xngrid yngrid elem crntz elh); eauto; [lra|].
          eapply ceq_trans; [exact Heq | by apply ceq_sym]. }
  assert (mesh_inv (MState (nodeID st1) (S (elID st1)) (nodelist st1) (elconnect st1)
                      (ignore st1) (zignore st1))) as Hinv'.
  { by apply (mesh_inv_ext st1). }
  split; [|split].
  - split; [done|]. split; [done|]. split; [done|]. split; [done|]. split.
    + intros i r Hr. by apply Hsub.
    + intros i r Hr. change (rows (MState _ _ _ _ _ _)) with (rows st1) in Hr.
      apply Hnew in Hr as [?|(Hi & m & cm & Hm & Hcm & _ & _ & Heq)]; [by left|].
      right. split; [done|].
      destruct (corner_Ok _ _ _ _ _ _ _ Hcm) as (cx & cy & _ & _ & ->). simpl in Heq.
      destruct (m <? 4)%nat; [left | right]; lra.
  - simpl. by rewrite Hel1.
  - eexists. split; [done|]. exists (elID st), ids.
    assert (length ids = 8%nat) as Hlen.
    { apply Forall2_length in Hids. by rewrite length_seq in Hids. }
    split; [done|]. split; [done|]. split.
    + apply NoDup_alt. intros i j id Hi Hj.
      destruct (Forall2_lookup_r _ _ _ _ _ Hids Hi) as (m & Hm & r0 & cm & Hr0 & _ & Hcm & Heq).
      destruct (Forall2_lookup_r _ _ _ _ _ Hids Hj) as (m' & Hm' & r0' & cm' & Hr0' & _ & Hcm' & Heq').
      apply lookup_seq in Hm as [-> Hi8]. apply lookup_seq in Hm' as [-> Hj8].
      simpl in *. assert (r0' = r0) as -> by congruence.
      eapply (corner_distinct xngrid yngrid elem crntz elh); eauto; [lra|].
      eapply ceq_trans; [exact Heq | by apply ceq_sym].
    + intros id [i Hi]%list_elem_of_lookup.
      destruct (Forall2_lookup_r _ _ _ _ _ Hids Hi) as (m & Hm & r0 & cm & Hr0 & Hnid & _).
      pose proof (inv_bound _ Hinv1 _ _ Hr0) as Hb.
      destruct (inv_rows _ Hinv1 _ Hb) as (r0' & Hr0' & Hnid').
      assert (r0' = r0) as -> by congruence. simpl. lia.
Qed.

Lemma sorted_lookup (l : list Q) (i j : nat) (a b : Q) :
  StronglySorted Qlt l -> l !! i = Some a -> l !! j = Some b -> (i < j)%nat -> a < b.
Proof.
  intros Hs. revert i j. induction Hs as [|x l Hs IH Hall]; intros i j Hi Hj Hij; [done|].
  destruct j as [|j]; [lia|]. simpl in Hj.
  destruct i as [|i]; simpl in Hi.
  - injection Hi as ->. rewrite List.Forall_forall in Hall. apply Hall.
    apply list_elem_of_In. by eapply list_elem_of_lookup_2.
  - apply (IH i j); [done | done | lia].
Qed.

(** The two cases of the element height. *)
Lemma element_height_cases (zcoords : list Q) (z : nat) (crntz elh : Q) :
  zcoords !! z = Some crntz ->
  element_height zcoords z = Ok elh ->
  (exists znext, zcoords !! S z = Some znext /\ elh = znext - crntz)
  \/ (S z = length zcoords /\
      exists zprev, py.getitem zcoords (Z.of_nat z - 1) = Ok zprev /\ elh = crntz - zprev).
Proof.
  intros Hz. unfold element_height.
  rewrite (proj2 (getitem_lookup zcoords z crntz) Hz), bind_Ok.
  assert (z < length zcoords)%nat as Hlt by (by eapply lookup_lt_Some).
  destruct (Z.eqb_spec (Z.of_nat z) (Z.of_nat (length zcoords) - 1)) as [Hlast|Hnot];
    simpl negb; cbv iota.
  - destruct (py.getitem zcoords _) as [zprev| |] eqn:Hprev; simpl; try done.
    intros [= <-]. right. split; [lia|]. by exists zprev.
  - rewrite (getitem_Z_lookup zcoords _ (S z)) by lia.
    destruct (zcoords !! S z) as [znext|] eqn:Hnext; simpl; [|done].
    intros [= <-]. left. by exists znext.
Qed.

Lemma element_height_pos (zcoords : list Q) (z : nat) (crntz elh : Q) :
  StronglySorted Qlt zcoords -> (2 <= length zcoords)%nat ->
  zcoords !! z = Some crntz ->
  element_height zcoords z = Ok elh ->
  0 < elh /\ forall t, zcoords !! S z = Some t -> crntz + elh == t.
Proof.
  intros Hs Hlen Hz Hh.
  destruct (element_height_cases _ _ _ _ Hz Hh) as [(znext & Hn & ->)|(Hlast & zprev & Hp & ->)].
  - pose proof (sorted_lookup _ z (S z) _ _ Hs Hz Hn ltac:(lia)). split; [lra|].
    intros t Ht. rewrite Hn in Ht. injection Ht as <-. ring.
  - rewrite (getitem_Z_lookup zcoords _ (z - 1)%nat) in Hp by lia.
    destruct (zcoords !! (z - 1)%nat) as [zp|] eqn:Hzp; [|done]. injection Hp as ->.
    pose proof (sorted_lookup _ (z - 1)%nat z _ _ Hs Hzp Hz ltac:(lia)). split; [lra|].
    intros t Ht. apply lookup_lt_Some in Ht. lia.
Qed.

Lemma stepped_refl (crntz elh : Q) (st : mstate) : mesh_inv st -> stepped crntz elh st st.
Proof. intros Hinv. do 4 (split; [done|]). split; [done|]. intros i r Hr. by left. Qed.

Lemma stepped_trans (crntz elh : Q) (st st1 st2 : mstate) :
  stepped crntz elh st st1 -> stepped crntz elh st1 st2 -> stepped crntz elh st st2.
Proof.
  intros (_ & Hig1 & Hec1 & Hn1 & Hsub1 & Hnew1) (Hinv2 & Hig2 & Hec2 & Hn2 & Hsub2 & Hnew2).
  split; [done|]. split; [congruence|]. split; [congruence|]. split; [lia|].
  split; [by auto|].
  intros i r [Hold|[Hi Hz]]%Hnew2.
  - apply Hnew1 in Hold as [?|[? ?]]; [by left | right; by split].
  - right. split; [lia | done].
Qed.

Lemma level_cover_stepped (z : nat) (crntz elh : Q) (st st' : mstate) :
  level_cover z crntz st -> stepped crntz elh st st' -> level_cover z crntz st'.
Proof.
  intros [Hc1 Hc2] (_ & Hig & _ & Hn & _ & Hnew). split.
  - intros i r [Hold|[Hi _]]%Hnew Hz; (apply (in_window_ext z st); [done|]).
    + by apply (Hc1 i r).
    + by apply Hc2.
  - intros i Hi. apply (in_window_ext z st); [done|]. apply Hc2. lia.
Qed.

Lemma row_ok_mono (st st' : mstate) (row : list nat) :
  (nodeID st <= nodeID st')%nat -> row_ok st row -> row_ok st' row.
Proof.
  intros Hn (eid & ids & -> & Hlen & Hnd & Hids). exists eid, ids.
  do 3 (split; [done|]). intros id Hid%Hids. lia.
Qed.

Lemma between_init (zcoords : list Q) : between zcoords 0 init.
Proof.
  assert (forall i r, rows init !! i = Some (Some r) -> False) as Hnone.
  { intros i r Hr. unfold rows in Hr. simpl in Hr. by rewrite lookup_nil in Hr. }
  split.
  { split; simpl; [lia | done | intros i Hi; lia | |].
    - intros i r Hr. by apply Hnone in Hr.
    - intros i j r r' Hr. by apply Hnone in Hr. }
  split; [by split|]. split; [done|].
  split; [intros j s Hj; simpl in Hj; by rewrite lookup_nil in Hj|].
  split; [intros j s t Hj; simpl in Hj; by rewrite lookup_nil in Hj|].
  split; [|constructor]. intros t _ i r Hr. by apply Hnone in Hr.
Qed.

Lemma mesh_level_inv (tot : nat) (xngrid yngrid zcoords : list Q)
    (elemlist : py.dict (list (nat * nat))) (st st' : mstate) (k : nat) :
  StronglySorted Qlt zcoords -> (2 <= length zcoords)%nat ->
  grid_inj xngrid -> grid_inj yngrid ->
  between zcoords k st ->
  mesh_level tot xngrid yngrid zcoords elemlist st k = Ok st' ->
  between zcoords (S k) st'.
Proof.
  intros Hs Hlen Hgx Hgy (Hinv & [Hel Hfirst] & Hk & Hign & Hlow & Htop & Hrows).
  unfold mesh_level.
  destruct (py.getitem zcoords (Z.of_nat k)) as [crntz| |] eqn:Hz; simpl; try done.
  apply getitem_lookup in Hz.
  destruct (element_height zcoords k) as [elh| |] eqn:Hh; simpl; try done.
  destruct (element_height_pos _ _ _ _ Hs Hlen Hz Hh) as [Hpos Hnext].
  destruct (py.get crntz elemlist) as [elems| |]; simpl; try done.
  destruct (for_each _ elems (st, [])) as [[st1 zel]| |] eqn:Hrun; simpl; try done.
  intros [= <-].
  assert (level_cover k crntz st) as Hcover.
  { split.
    - intros i r Hr Hzr. unfold in_window. destruct (Nat.ltb_spec 2 k) as [Hk2|_]; [|done].
      destruct (lookup_lt_is_Some_2 (ignore st) (k - 2)%nat) as [s Hs']; [lia|].
      exists s. split; [done|].
      destruct (decide (s <= i)%nat) as [?|Hlt]; [done|]. exfalso.
      destruct (lookup_lt_is_Some_2 zcoords (k - 1)%nat) as [t Ht].
      { apply lookup_lt_Some in Hz. lia. }
      assert (nz r <= t) as Hle.
      { eapply (Hlow (k - 2)%nat s t); [done | | done | lia].
        by replace (S (k - 2)) with (k - 1)%nat by lia. }
      pose proof (sorted_lookup _ (k - 1)%nat k _ _ Hs Ht Hz ltac:(lia)). lra.
    - intros i Hi. unfold in_window. destruct (Nat.ltb_spec 2 k) as [Hk2|_]; [|done].
      destruct (lookup_lt_is_Some_2 (ignore st) (k - 2)%nat) as [s Hs']; [lia|].
      exists s. split; [done|]. specialize (Hign _ _ Hs'). lia. }
  pose (LJ := fun (_ : list (nat * nat)) (r : mstate * list (list nat)) =>
    stepped crntz elh st r.1 /\
    ((1 <= elID r.1)%nat /\ (elID r.1 = 1%nat -> nodeID r.1 = 1%nat)) /\
    Forall (row_ok r.1) r.2).
  assert (LJ elems (st1, zel)) as ((Hinv1 & Hig1 & Hec1 & Hn1 & Hsub1 & Hnew1) & Hfirst1 & Hzel).
  { eapply (for_each_partial _ LJ); [| |exact Hrun].
    - split; [by apply stepped_refl|]. split; [done | constructor].
    - intros pre elem [st0 zel0] [st2 zel2] (Hstep0 & [Hel0 Hfirst0] & Hzel0) Hbody.
      cbn [fst snd] in *.
      apply element_step_inv in Hbody as (Hstep2 & Hel2 & row & -> & Hrow);
        [|done|done|done|by destruct Hstep0|done|by eapply level_cover_stepped].
      split; [by eapply stepped_trans|]. cbn [fst snd]. split; [lia|].
      apply Forall_app. split; [|by constructor].
      eapply Forall_impl; [exact Hzel0|]. intros row0. apply row_ok_mono.
      by destruct Hstep2 as (_ & _ & _ & ? & _). }
  cbn [fst snd] in *.
  set (st' := MState _ _ _ _ _ _).
  assert (rows st' = rows st1) as Hr' by done.
  assert (forall i r, rows st1 !! i = Some (Some r) ->
            forall t, zcoords !! S k = Some t -> nz r <= t) as Hall.
  { intros i r [Hold|[_ Hzr]]%Hnew1 t Ht.
    - pose proof (Htop _ Hz _ _ Hold). pose proof (Hnext _ Ht). lra.
    - pose proof (Hnext _ Ht). destruct Hzr; lra. }
  split; [by apply (mesh_inv_ext st1)|]. split; [done|]. split.
  { simpl. rewrite length_app, Hig1. simpl. lia. }
  split; [|split; [|split]]; simpl; rewrite ?Hr'.
  - intros j s. rewrite Hig1. intros [[_ Hj]|[_ <-]]%lookup_snoc_Some.
    + specialize (Hign _ _ Hj). lia.
    + by rewrite (inv_zignore _ Hinv1).
  - intros j s t. rewrite Hig1. intros [[_ Hj]|[Hj <-]]%lookup_snoc_Some Ht i r Hr Hi.
    + specialize (Hign _ _ Hj).
      apply Hnew1 in Hr as [Hold|[? _]]; [|lia]. by eapply Hlow.
    + rewrite Hk in Hj. subst j. by eapply Hall.
  - intros t Ht i r Hr. by eapply Hall.
  - apply Forall_app. split; [|done]. rewrite Hec1.
    eapply Forall_impl; [exact Hrows|]. intros row. by apply row_ok_mono.
Qed.

Lemma omap_none (a : list (option node)) :
  (forall i r, a !! i = Some (Some r) -> False) -> omap id a = [].
Proof.
  induction a as [|x a IH]; intros Hnone; [done|].
  destruct x as [r|]; [by destruct (Hnone 0%nat r)|]. simpl.
  apply IH. intros i r Hr. by apply (Hnone (S i) r).
Qed.

(** Dropping the unwritten rows keeps the written ones at their index. *)
Lemma omap_rows (a : list (option node)) (n : nat) :
  (forall i, (i < n)%nat -> exists r, a !! i = Some (Some r)) ->
  (forall i r, a !! i = Some (Some r) -> (i < n)%nat) ->
  forall i r, omap id a !! i = Some r <-> a !! i = Some (Some r).
Proof.
  revert n. induction a as [|x a IH]; intros n Hpre Hbound i r; [done|].
  destruct n as [|n].
  - rewrite omap_none; [|intros j r' Hr'%Hbound; lia].
    rewrite lookup_nil. split; [done|]. intros Hr%Hbound. lia.
  - destruct (Hpre 0%nat) as [r0 Hr0]; [lia|]. simpl in Hr0. injection Hr0 as ->.
    simpl. destruct i as [|i]; simpl.
    + split; congruence.
    + apply (IH n).
      * intros j Hj. apply (Hpre (S j)). lia.
      * intros j r' Hr'. specialize (Hbound (S j) r' Hr'). lia.
Qed.

Lemma seq_split_length (n : nat) (pre post : list nat) (x : nat) :
  seq 0 n = pre ++ x :: post -> x = length pre.
Proof.
  intros Hseq.
  assert (seq 0 n !! length pre = Some x) as Hx.
  { rewrite Hseq. by rewrite lookup_app_r, Nat.sub_diag. }
  apply lookup_seq in Hx. lia.
Qed.

Section mesh_general.
Context `{Shapely}.


End mesh_general.

End mesh_invariant.

Section mesh_examples.
Import Cloud2Polygons Polygons2FEM Rings.

Lemma nodes_unique_b_sound (nodelist : list node) :
  nodes_unique_b nodelist = true -> nodes_unique nodelist.
Proof.
  unfold nodes_unique_b. rewrite forallb_forall. intros Hall i j n n' Hi Hj Hsame.
  assert (In (i, n) (imap pair nodelist)) as Hin.
  { apply list_elem_of_In, list_elem_of_lookup. exists i. by rewrite list_lookup_imap, Hi. }
  assert (In (j, n') (imap pair nodelist)) as Hjn.
  { apply list_elem_of_In, list_elem_of_lookup. exists j. by rewrite list_lookup_imap, Hj. }
  specialize (Hall _ Hin). rewrite forallb_forall in Hall. specialize (Hall _ Hjn).
  change (negb (same_xyz n (Some n')) || (i =? j)%nat = true) in Hall.
  rewrite Hsame in Hall. by apply Nat.eqb_eq.
Qed.

(** Two levels over a 4 x 4 square: 32 elements, and no coordinate is
    stored twice. *)
Lemma make_mesh_two_levels :
  exists elemlist nodelist elconnect,
    make_mesh 1 1 0 0 4 4 [0; 1] [(0, [square]); (1, [square])]
    = Ok (elemlist, nodelist, elconnect)
    /\ length elconnect = 32%nat /\ length nodelist = 75%nat
    /\ nodes_unique nodelist.
Proof.
  eexists _, _, _. split; [vm_compute; reflexivity|].
  split; [reflexivity|]. split; [reflexivity|].
  apply nodes_unique_b_sound. by vm_compute.
Qed.

(** C1.  One level over the same square.  The height of the only level
    is [zcoords[0] - zcoords[-1] = 0], so the upper corners of the first
    element repeat the coordinates of its lower corners (nodes 1 and 5),
    and the second element names nodes 11 and 12 twice.  The ids are
    still dense. *)
Theorem make_mesh_single_level_duplicates :
  exists elemlist nodelist elconnect,
    make_mesh 1 1 0 0 4 4 [0] [(0, [square])] = Ok (elemlist, nodelist, elconnect)
    /\ length elconnect = 16%nat
    /\ ids_dense nodelist
    /\ ~ nodes_unique nodelist
    /\ elconnect !! 1%nat = Some [2; 9; 10; 11; 12; 13; 14; 11; 12]%nat
    /\ ~ Forall (element_ok nodelist) elconnect.
Proof.
  eexists _, _, _. split; [vm_compute; reflexivity|].
  split; [reflexivity|]. split; [|split; [|split; [reflexivity|]]].
  - intros i n Hi.
    do 39 (destruct i as [|i]; [by inversion Hi|]). done.
  - intros Huniq. by specialize (Huniq 0%nat 4%nat _ _ eq_refl eq_refl eq_refl).
  - intros Hall. apply Forall_cons in Hall as [_ Hall].
    apply Forall_cons in Hall as [(eid & ids & [= _ <-] & _ & Hnodup & _) _].
    do 2 apply NoDup_cons in Hnodup as [_ Hnodup].
    apply NoDup_cons in Hnodup as [Hnotin _].
    apply Hnotin. repeat (apply elem_of_cons; (by left) || right). 
Qed.

(** C2.  Level 1 has no entry in [polygs]; or its MultiPolygon is
    empty; or every MultiPolygon is empty; or there is no level at all:
    [make_mesh] raises ([KeyError] at [polygs[z]] or at
    [elemlist[z] = np.array(elemlist[z])], [TypeError] at the final
    [nodelist[:, 0]]) instead of skipping the level or returning an
    empty mesh. *)
Theorem make_mesh_raises_on_empty_level :
  make_mesh 1 1 0 0 4 4 [0; 1] [(0, [square])] = Raise KeyError /\
  make_mesh 1 1 0 0 4 4 [0; 1] [(0, [square]); (1, [])] = Raise KeyError /\
  make_mesh 1 1 0 0 4 4 [0; 1] [(0, []); (1, [])] = Raise KeyError /\
  make_mesh 1 1 0 0 4 4 [] [] = Raise TypeError.
Proof. repeat split; by vm_compute. Qed.

End mesh_examples.

(** ** Slices as bands of the cloud *)

Section slices_more.
Import Cloud2Polygons.

Lemma make_slices_entries (zcoords : list Q) (pcl : list row3) (thick : Q)
    (slices : py.dict (list row3)) (netpcl : list row3) (z : Q) (sl : list row3) :
  make_slices zcoords pcl thick (length pcl) = Ok (slices, netpcl) ->
  py.get z slices = Ok sl -> sl = List.filter (in_band z thick) pcl.
Proof.
  destruct (slices_loop zcoords pcl thick) as (st & Hrun & _ & Hget & _).
  unfold make_slices. rewrite Hrun. simpl.
  destruct (getmask _ _); simpl; try done. intros [= <- _] Hsl.
  destruct (Hget _ _ Hsl) as (z' & _ & Heq & ->).
  apply filter_ext. intros p. by apply in_band_proper.
Qed.

Lemma filter_sublist {A : Type} (f : A -> bool) (l : list A) :
  List.filter f l `sublist_of` l.
Proof.
  induction l as [|x l IH]; simpl; [done|].
  destruct (f x); [by apply sublist_skip | by apply sublist_cons].
Qed.



Lemma slices_apart (zcoords : list Q) (pcl : list row3) (thick : Q)
    (slices : py.dict (list row3)) (netpcl : list row3) (z z' : Q)
    (sl sl' : list row3) :
  make_slices zcoords pcl thick (length pcl) = Ok (slices, netpcl) ->
  py.get z slices = Ok sl -> py.get z' slices = Ok sl' ->
  thick < Qabs (z - z') ->
  forall p, p ∈ sl -> p ∉ sl'.
Proof.
  intros Hrun Hsl Hsl' Hgap p.
  rewrite (make_slices_entries _ _ _ _ _ _ _ Hrun Hsl).
  rewrite (make_slices_entries _ _ _ _ _ _ _ Hrun Hsl').
  rewrite !list_elem_of_In, !filter_In, !in_band_abs.
  intros [_ H1] [_ H2].
  apply Qabs_Qle_condition in H1, H2.
  assert (thick == 2 * (thick / 2)) as Hh by field.
  revert Hgap. apply Qle_not_lt, Qabs_Qle_condition.
  set (h := thick / 2) in *. clearbody h. unfold col2 in *. split; lra.
Qed.



Lemma imul_length (invmask m r : list bool) :
  imul invmask m = Ok r -> length r = length invmask.
Proof.
  unfold imul. destruct (Nat.eqb_spec (length m) (length invmask)) as [Hl|_].
  - intros [= <-]. rewrite length_zip_with. lia.
  - destruct m as [|b [|? ?]]; try done. intros [= <-]. by rewrite length_map.
Qed.

(** X4.  [make_slices] returns only when [npts] is the number of rows of
    the cloud, and then it always returns. *)
Theorem make_slices_npts (zcoords : list Q) (pcl : list row3) (thick : Q) (npts : nat) :
  (exists r, make_slices zcoords pcl thick npts = Ok r) <-> npts = length pcl.
Proof.
  split.
  - intros [r Hrun]. unfold make_slices in Hrun.
    destruct (for_each _ zcoords _) as [st| |] eqn:Hloop; simpl in Hrun; try done.
    assert (length st.2 = npts) as Hlen.
    { eapply (for_each_partial _ (fun _ (st : py.dict (list row3) * list bool) =>
                                    length st.2 = npts)); [| |exact Hloop].
      - simpl. apply length_replicate.
      - intros _ z [s m] [s1 m1] Hm. unfold slice_step. simpl in *.
        destruct (imul m _) as [m'| |] eqn:Hmul; simpl; try done.
        intros [= _ <-]. apply imul_length in Hmul. congruence. }
    unfold getmask in Hrun. rewrite Hlen in Hrun.
    destruct (Nat.eqb_spec npts (length pcl)); [done|]. done.
  - intros ->. destruct (slices_loop zcoords pcl thick) as (st & Hrun & Hmask & _).
    unfold make_slices. rewrite Hrun. simpl. unfold getmask.
    rewrite Hmask, length_map, Nat.eqb_refl. simpl. by eexists.
Qed.


Lemma ramp_gap (start step thick : Q) (n i j : nat) (zi zj : Q) :
  thick < step -> 0 <= thick -> i <> j ->
  np.ramp start step n !! i = Some zi -> np.ramp start step n !! j = Some zj ->
  thick < Qabs (zi - zj).
Proof.
  intros Hs Ht Hij [_ ->]%ramp_lookup [_ ->]%ramp_lookup.
  assert (forall k l : nat, (k < l)%nat ->
            step <= (inject_Z (Z.of_nat l) - inject_Z (Z.of_nat k)) * step) as Hgap.
  { intros k l Hkl.
    assert (inject_Z (Z.of_nat k + 1) <= inject_Z (Z.of_nat l)) as Hle.
    { rewrite <- Zle_Qle. lia. }
    rewrite inject_Z_plus in Hle. change (inject_Z 1) with 1 in Hle. nra. }
  destruct (Nat.lt_total i j) as [Hlt|[?|Hlt]]; [|done|].
  - specialize (Hgap _ _ Hlt). rewrite Qabs_Qminus.
    eapply Qlt_le_trans; [|apply Qle_Qabs]. lra.
  - specialize (Hgap _ _ Hlt).
    eapply Qlt_le_trans; [|apply Qle_Qabs]. lra.
Qed.



End slices_more.

(** ** Tracing: outcomes, entries and the calibration loop *)

Section centroids_more.
Import Cloud2Polygons.

Lemma following_runs (fuel : nat) (newtol : Q) (tolpt : Z) (z : Q)
    (ctrds : list entry) (empsl : list xy) :
  ctrds <> [] -> empsl <> [] -> (length empsl < fuel)%nat ->
  exists new, following fuel newtol tolpt z ctrds empsl = Ok (ctrds ++ new).
Proof.
  revert ctrds empsl. induction fuel as [|fuel IH]; intros ctrds empsl Hc He Hf; [lia|].
  simpl.
  destruct (exists_last Hc) as (pre & last_c & ->).
  rewrite getitem_last, bind_Ok.
  destruct (np.argmin _) as [idx| |] eqn:Hidx.
  2,3: destruct empsl; [done | by simpl in Hidx].
  rewrite bind_Ok.
  apply argmin_lt in Hidx. rewrite length_map in Hidx.
  destruct (lookup_lt_is_Some_2 empsl idx Hidx) as [nearest Hnear].
  rewrite (proj2 (getitem_lookup _ _ _) Hnear), bind_Ok.
  assert (length (delete idx empsl) < fuel)%nat as Hdel.
  { pose proof (length_delete empsl idx (ex_intro _ nearest Hnear)). lia. }
  set (empsl1 := delete idx empsl) in *.
  set (dists := map (near newtol nearest) empsl1).
  assert (length (np.compress (map negb dists) empsl1) <= length empsl1)%nat as Hle.
  { rewrite <- (compress_split dists empsl1) at 2 by (by unfold dists; rewrite length_map).
    rewrite length_app. lia. }
  destruct (_ && _) eqn:Hcont.
  - apply andb_true_iff in Hcont as [_ Hpos%Nat.ltb_lt].
    apply IH; [by intros [_ ?]%app_eq_nil | | done].
    destruct empsl1; [simpl in Hpos; lia | done].
  - destruct (length empsl1 <? 1)%nat; [exists []; by rewrite app_nil_r|].
    destruct (Nat.ltb_spec (length (np.compress (map negb dists) empsl1)) 1) as [Hz|Hz].
    + by eexists [_].
    + destruct (IH ((pre ++ [last_c]) ++ [(centroid z (np.compress dists empsl1),
                                           np.compress dists empsl1)])
                  (np.compress (map negb dists) empsl1)) as [new ->].
      * by intros [_ ?]%app_eq_nil.
      * intros Hnil. rewrite Hnil in Hz. simpl in Hz. lia.
      * lia.
      * eexists (_ :: new). by rewrite <- app_assoc.
Qed.

(** X6.  The tracing of one slice never fails on an index and always
    ends: it returns, or raises [ValueError], and the error is raised
    exactly when the slice is long enough and the group of the first
    centroid leaves no point for [np.argmin] to pick the next start. *)
Theorem trace_slice_outcomes (newtol : Q) (tolsl tolpt : Z) (z : Q) (sl : list row3) :
  ((exists r, trace_slice newtol tolsl tolpt z sl = Ok r)
   \/ trace_slice newtol tolsl tolpt z sl = Raise ValueError) /\
  (trace_slice newtol tolsl tolpt z sl = Raise ValueError <->
   (tolsl <= Z.of_nat (length sl))%Z /\
   exists c, first_centroid newtol tolpt z (map (fun p => (col0 p, col1 p)) sl)
             = Some (c, [])).
Proof.
  unfold trace_slice. rewrite length_map.
  destruct (Z.ltb_spec (Z.of_nat (length sl)) tolsl) as [Hlt|Hge].
  { split; [left; by eexists|]. split; [done | lia]. }
  destruct (first_centroid _ _ _ _) as [[c [|p rest]]|].
  - split; [by right|]. split; [|done]. intros _. split; [done | by exists c].
  - destruct (following_runs (S (length (p :: rest))) newtol tolpt z [c] (p :: rest))
      as [new Hrun]; [done | done | lia|].
    rewrite Hrun. simpl. split; [left; by eexists|].
    split; [done | by intros [_ [? ?]]].
  - split; [left; by eexists|]. split; [done | by intros [_ [? ?]]].
Qed.

Lemma following_extends (fuel : nat) (newtol : Q) (tolpt : Z) (z : Q)
    (ctrds ctrds' : list entry) (empsl : list xy) :
  following fuel newtol tolpt z ctrds empsl = Ok ctrds' ->
  exists new, ctrds' = ctrds ++ new.
Proof.
  revert ctrds empsl. induction fuel as [|fuel IH]; intros ctrds empsl; simpl; [done|].
  destruct (py.getitem ctrds _) as [last_c| |]; simpl; try done.
  destruct (np.argmin _) as [idx| |]; simpl; try done.
  destruct (py.getitem empsl _) as [nearest| |]; simpl; try done.
  destruct (_ && _); [apply IH|].
  destruct (_ <? 1)%nat; [intros [= <-]; exists []; by rewrite app_nil_r|].
  destruct (_ <? 1)%nat; [intros [= <-]; by eexists|].
  intros (new & ->)%IH. eexists (_ :: new). by rewrite <- app_assoc.
Qed.

Lemma trace_slice_entry (newtol : Q) (tolsl tolpt : Z) (z : Q) (sl : list row3)
    (e : option (list entry)) :
  trace_slice newtol tolsl tolpt z sl = Ok e ->
  ((Z.of_nat (length sl) < tolsl)%Z -> e = None) /\
  (forall chain, e = Some chain ->
     chain <> [] /\ (tolsl <= Z.of_nat (length sl))%Z).
Proof.
  unfold trace_slice. rewrite length_map.
  destruct (Z.ltb_spec (Z.of_nat (length sl)) tolsl) as [Hlt|Hge].
  { intros [= <-]. by split. }
  destruct (first_centroid _ _ _ _) as [[c rest]|]; [|intros [= <-]; split; [lia | done]].
  destruct (following _ _ _ _ _ _) as [chain| |] eqn:Hrun; simpl; try done.
  intros [= <-]. split; [lia|]. intros ? [= <-].
  apply following_extends in Hrun as [new ->]. by split.
Qed.

(** X7.  When [find_centroids] returns, every level has a slice and an
    entry in the result: [None] when the slice has fewer than [tolsl]
    points, and never an empty chain. *)
Theorem find_centroids_entries (fuel : nat) (draw : nat -> list nat) (minwthick : Q)
    (zcoords : list Q) (slices : py.dict (list row3)) (tolsl tolpt : Z)
    (tol tolincr : Q) (ctrds : py.dict (option (list entry))) :
  find_centroids fuel draw minwthick zcoords slices tolsl tolpt tol tolincr = Ok ctrds ->
  forall z, z ∈ zcoords ->
    exists sl e, py.get z slices = Ok sl /\ py.get z ctrds = Ok e /\
      ((Z.of_nat (length sl) < tolsl)%Z -> e = None) /\
      (forall chain, e = Some chain ->
         chain <> [] /\ (tolsl <= Z.of_nat (length sl))%Z).
Proof.
  unfold find_centroids. intros Hrun.
  set (P := fun (z : Q) (c : py.dict (option (list entry))) =>
    exists sl e, py.get z slices = Ok sl /\ py.get z c = Ok e /\
      ((Z.of_nat (length sl) < tolsl)%Z -> e = None) /\
      (forall chain, e = Some chain ->
         chain <> [] /\ (tolsl <= Z.of_nat (length sl))%Z)).
  assert (forall z, z ∈ map fst (imap (fun i z => (z, draw i)) zcoords) -> P z ctrds) as Hinv.
  { eapply (for_each_partial _ (fun pre c => forall z, z ∈ map fst pre -> P z c));
      [| |exact Hrun].
    - intros z Hz. by apply elem_of_nil in Hz.
    - intros pre [z0 d] c c1 IH. unfold centroids_step. simpl.
      destruct (py.get z0 slices) as [sl| |] eqn:Hsl; simpl; try done.
      destruct (for_each _ d []) as [slcheckpts| |]; simpl; try done.
      destruct (calibrate _ _ _ _ _ _ _) as [newtol| |]; simpl; try done.
      destruct (trace_slice _ _ _ _ _) as [e| |] eqn:Htrace; simpl; try done.
      intros [= <-] z. rewrite map_app. simpl.
      apply trace_slice_entry in Htrace as [Hnone Hchain].
      destruct (Qeq_bool z0 z) eqn:Hq.
      + intros _. exists sl, e. rewrite get_set, Hq.
        apply Qeq_bool_eq in Hq. rewrite <- (get_proper _ _ _ Hq).
        split; [done|]. split; [done|]. split; [exact Hnone | exact Hchain].
      + intros [Hz|Hz%list_elem_of_singleton]%elem_of_app.
        * destruct (IH z Hz) as (sl' & e' & ? & ? & ? & ?). exists sl', e'.
          rewrite get_set, Hq. done.
        * subst. by rewrite Qeq_bool_refl in Hq. }
  intros z Hz. apply Hinv.
  apply list_elem_of_lookup in Hz as [i Hi].
  apply list_elem_of_fmap. exists (z, draw i). split; [done|].
  apply elem_of_lookup_imap. by exists i, z.
Qed.


Lemma find_centroids_entries_witness :
  let sl : list row3 :=
    map (fun i : nat => (inject_Z (Z.of_nat i), 0, 0)) (seq 0 12) in
  exists sl' (e : option (list entry)), py.get 0 [(0, sl)] = Ok sl' /\
    ((Z.of_nat (length sl') < 10)%Z -> e = None) /\
    (forall chain, e = Some chain -> chain <> [] /\ (10 <= Z.of_nat (length sl'))%Z).
Proof.
  intros sl.
  assert (exists c, find_centroids 10 (fun _ => [0%nat]) 4 [0] [(0, sl)] 10 2 (1 # 2) 2 = Ok c)
    as [c Hrun].
  { eexists. vm_compute. reflexivity. }
  destruct (find_centroids_entries _ _ _ _ _ _ _ _ _ _ Hrun 0) as (sl' & e & H1 & _ & H2).
  { apply elem_of_cons. by left. }
  exists sl', e. exact (conj H1 H2).
Defined.

Lemma reaches_linear (bound tolincr : Q) (k : nat) (newtol : Q) :
  1 < tolincr -> 0 < newtol ->
  bound <= newtol * (1 + inject_Z (Z.of_nat k) * (tolincr - 1)) ->
  reaches bound tolincr k newtol.
Proof.
  intros Hi. revert newtol. induction k as [|k IH]; intros newtol Ht Hb.
  - simpl. change (inject_Z (Z.of_nat 0)) with 0 in Hb. lra.
  - simpl reaches. apply IH; [nra|].
    rewrite Nat2Z.inj_succ, <- Z.add_1_r, inject_Z_plus in Hb.
    change (inject_Z 1) with 1 in Hb.
    assert (0 <= inject_Z (Z.of_nat k)) as Hk.
    { change 0 with (inject_Z 0). rewrite <- Zle_Qle. lia. }
    set (n := inject_Z (Z.of_nat k)) in *. clearbody n.
    assert (0 <= newtol * (n * ((tolincr - 1) * (tolincr - 1)))) as Hsq.
    { apply Qmult_le_0_compat; [lra|]. apply Qmult_le_0_compat; [done | nra]. }
    lra.
Qed.

Lemma reaches_some (bound tolincr newtol : Q) :
  1 < tolincr -> 0 < newtol -> exists k, reaches bound tolincr k newtol.
Proof.
  intros Hi Ht.
  assert (0 < newtol * (tolincr - 1)) as Hm by nra.
  set (r := bound / (newtol * (tolincr - 1))).
  assert (r * (newtol * (tolincr - 1)) == bound) as Hr.
  { unfold r. field. split; lra. }
  exists (Z.to_nat (Qceiling r)). apply reaches_linear; [done | done|].
  pose proof (Qle_ceiling r) as Hc.
  assert (inject_Z (Qceiling r) <= inject_Z (Z.of_nat (Z.to_nat (Qceiling r)))) as Hn.
  { rewrite <- Zle_Qle. lia. }
  set (n := inject_Z (Z.of_nat (Z.to_nat (Qceiling r)))) in *. clearbody n.
  set (c := inject_Z (Qceiling r)) in *. clearbody c.
  assert (r * (newtol * (tolincr - 1)) <= n * (newtol * (tolincr - 1))) as Hmul.
  { apply Qmult_le_compat_r; lra. }
  clearbody r. lra.
Qed.

Lemma calibrate_reaches (k fuel : nat) (minwthick : Q) (tolpt : Z) (tolincr : Q)
    (sl slcheckpts : list row3) (newtol : Q) :
  1 < tolincr -> 0 < newtol -> (k < fuel)%nat ->
  reaches (minwthick / tolincr) tolincr k newtol ->
  exists r, calibrate fuel minwthick tolpt tolincr sl slcheckpts newtol = Ok r /\
    newtol <= r /\ (r == newtol \/ r < minwthick).
Proof.
  intros Hi. revert fuel newtol.
  assert (Qeq_bool tolincr 0 = false) as Hz.
  { destruct (Qeq_bool tolincr 0) eqn:Hq; [|done]. apply Qeq_bool_eq in Hq. lra. }
  induction k as [|k IH]; intros [|fuel] newtol Ht Hf Hr; try lia.
  - simpl in *. rewrite Hz.
    apply Qle_bool_iff in Hr. rewrite Hr. exists newtol. split; [done|].
    split; [lra | by left].
  - simpl in *. rewrite Hz.
    destruct (Qle_bool (minwthick / tolincr) newtol) eqn:Hle.
    { exists newtol. split; [done|]. split; [lra | by left]. }
    destruct (Qlt_bool _ _).
    + destruct (IH fuel (newtol * tolincr)) as (r & -> & Hge & Hor); [nra | lia | done|].
      exists r. split; [done|]. split; [nra|]. right.
      destruct Hor as [Heq|Hlt]; [|done]. rewrite Heq.
      assert (~ Qle (minwthick / tolincr) newtol) as Hn.
      { intros Hc%Qle_bool_iff. congruence. }
      apply Qnot_le_lt in Hn.
      assert (minwthick / tolincr * tolincr == minwthick) as Hdiv by (field; lra).
      set (q := minwthick / tolincr) in *. clearbody q. nra.
    + exists newtol. split; [done|]. split; [lra | by left].
Qed.

Lemma calibrate_mono (fuel fuel' : nat) (minwthick : Q) (tolpt : Z) (tolincr : Q)
    (sl slcheckpts : list row3) (newtol r : Q) :
  calibrate fuel minwthick tolpt tolincr sl slcheckpts newtol = Ok r ->
  (fuel <= fuel')%nat ->
  calibrate fuel' minwthick tolpt tolincr sl slcheckpts newtol = Ok r.
Proof.
  revert fuel' newtol. induction fuel as [|fuel IH]; intros [|fuel'] newtol; simpl;
    try done; try lia.
  destruct (Qeq_bool tolincr 0); [done|].
  destruct (Qle_bool _ newtol); [done|].
  destruct (Qlt_bool _ _); [|done].
  intros Hrun Hf. apply IH; [done | lia].
Qed.



End centroids_more.

(** ** Polylines *)

Section split_facts.
Context {A : Type}.

Lemma split_from_shift (x : A) (a : list A) (s : nat) (idxs : list nat) :
  np.split_from (S s) (map S idxs) (x :: a) = np.split_from s idxs a.
Proof.
  revert s. induction idxs as [|i idxs IH]; intros s; simpl; [done|].
  by rewrite IH.
Qed.

Lemma split_cons (x : A) (a : list A) (idxs : list nat) :
  np.split (x :: a) (map S idxs)
  = match np.split a idxs with
    | p :: ps => (x :: p) :: ps
    | [] => [[x]]
    end.
Proof.
  unfold np.split. destruct idxs as [|i idxs]; simpl; [done|].
  by rewrite split_from_shift, Nat.sub_0_r.
Qed.

Lemma nonzero_from_shift (i : nat) (mask : list bool) :
  np.nonzero_from (S i) mask = map S (np.nonzero_from i mask).
Proof.
  revert i. induction mask as [|b mask IH]; intros i; simpl; [done|].
  destruct b; simpl; by rewrite IH.
Qed.

End split_facts.

Section chop_facts.
Import Cloud2Polygons.

Lemma split_chain_chop (minwthick : Q) (chain : list row3) :
  split_chain minwthick chain = chop minwthick (map (fun c => (col0 c, col1 c)) chain).
Proof.
  unfold split_chain. generalize (map (fun c => (col0 c, col1 c)) chain) as pts.
  clear chain. intros pts. induction pts as [|c rest IH]; [done|].
  cbn [tail chop]. destruct rest as [|c' rest'].
  { done. }
  cbn [zip_with]. unfold np.flatnonzero in *. cbn [np.nonzero_from].
  cbn [tail] in IH. rewrite <- IH. clear IH.
  destruct (far minwthick c c').
  - cbn [map]. rewrite nonzero_from_shift.
    unfold np.split. cbn [np.split_from]. rewrite split_from_shift. cbn.
    by destruct (np.split_from _ _ _).
  - rewrite nonzero_from_shift, split_cons.
    unfold np.split. by destruct (map S _).
Qed.

End chop_facts.

Section chop_more.
Import Cloud2Polygons.

Lemma chop_concat (m : Q) (pts : list xy) : concat (chop m pts) = pts.
Proof.
  induction pts as [|c rest IH]; [done|]. cbn [chop].
  destruct (chop m rest) as [|p ps]; [by destruct rest|].
  destruct (match rest with c' :: _ => far m c c' | [] => false end); simpl in *;
    by rewrite IH.
Qed.

Lemma chop_head (m : Q) (pts : list xy) :
  exists p ps, chop m pts = p :: ps /\ head p = head pts.
Proof.
  induction pts as [|c rest IH]; [by exists [], []|]. cbn [chop].
  destruct IH as (p & ps & -> & Hh).
  destruct (match rest with c' :: _ => far m c c' | [] => false end); by eexists _, _.
Qed.

Lemma chop_nonempty (m : Q) (c : xy) (rest : list xy) :
  Forall (fun q => q <> []) (chop m (c :: rest)).
Proof.
  revert c. induction rest as [|c' rest IH]; intros c; [by repeat constructor|].
  specialize (IH c'). change (chop m (c :: c' :: rest)) with
    (match chop m (c' :: rest) with
     | p :: ps => if far m c c' then [c] :: p :: ps else (c :: p) :: ps
     | [] => [[c]]
     end).
  destruct (chop m (c' :: rest)) as [|p ps]; [by repeat constructor|].
  apply Forall_cons in IH as [Hp Hps].
  destruct (far m c c'); by repeat constructor.
Qed.

Lemma chop_gaps (m : Q) (pts : list xy) : cut_at_gaps m (chop m pts).
Proof.
  induction pts as [|c rest IH].
  { split; [by repeat constructor; intros [|?] ? ? ?|]. by intros [|?] ? ? ? ? ?. }
  destruct (chop_head m rest) as (p & ps & Hchop & Hhead).
  cbn [chop]. rewrite Hchop in IH |- *. destruct IH as [Htight Hgap].
  apply Forall_cons in Htight as [Hp Hps].
  destruct rest as [|c' rest'].
  - cbn in Hchop. injection Hchop as <- <-. split.
    + repeat constructor. by intros [|?] ? ? ? ?.
    + by intros [|?] ? ? ? ? ? ?.
  - cbn [head] in Hhead. destruct (far m c c') eqn:Hf.
    + split.
      * constructor; [by intros [|?] ? ? ? ?|]. by constructor.
      * intros [|j] p' q a b Hp' Hq Ha Hb.
        -- injection Hp' as <-. injection Hq as <-. injection Ha as <-.
           rewrite Hhead in Hb. by injection Hb as <-.
        -- by apply (Hgap j p' q).
    + split.
      * constructor; [|done]. intros [|k] a b Ha Hb.
        -- injection Ha as <-. destruct p as [|x p]; [done|].
           injection Hb as <-. by injection Hhead as ->.
        -- by apply (Hp k).
      * intros [|j] p' q a b Hp' Hq Ha Hb.
        -- injection Hp' as <-. apply (Hgap 0%nat p q a b); try done.
           destruct p as [|x p]; [done|]. by rewrite last_cons_cons in Ha.
        -- by apply (Hgap (S j) p' q).
Qed.

End chop_more.

Section polylines_facts.
Import Cloud2Polygons.
Context `{LineStrings}.

Lemma get_cases {V : Type} (k : Q) (d : py.dict V) :
  (exists v, py.get k d = Ok v) \/ py.get k d = Raise KeyError.
Proof.
  destruct (py.has k d) eqn:Hh.
  - left. by apply has_get.
  - right. by apply get_raises.
Qed.

Lemma polys_loop (minwthick : Q) (ctrds : py.dict (option (list row3)))
    (zcoords : list Q) (polys : py.dict (list (list xy))) :
  for_each (polys_step minwthick ctrds) zcoords [] = Ok polys ->
  (forall z, z ∈ zcoords -> exists c, py.get z ctrds = Ok c) /\
  (forall z chain, z ∈ zcoords -> py.get z ctrds = Ok (Some chain) ->
     py.get z polys = Ok (split_chain minwthick chain)) /\
  (forall k, py.has k polys = true ->
     exists z chain, z ∈ zcoords /\ z == k /\ py.get k ctrds = Ok (Some chain)
       /\ py.get k polys = Ok (split_chain minwthick chain)).
Proof.
  intros Hrun.
  eapply (for_each_partial _ (fun pre polys =>
    (forall z, z ∈ pre -> exists c, py.get z ctrds = Ok c) /\
    (forall z chain, z ∈ pre -> py.get z ctrds = Ok (Some chain) ->
       py.get z polys = Ok (split_chain minwthick chain)) /\
    (forall k, py.has k polys = true ->
       exists z chain, z ∈ pre /\ z == k /\ py.get k ctrds = Ok (Some chain)
         /\ py.get k polys = Ok (split_chain minwthick chain))));
    [| |exact Hrun].
  { split; [by intros z ?%elem_of_nil|]. split; [by intros z ? ?%elem_of_nil | done]. }
  intros pre z0 polys0 polys1 (Hc & Hget & Hkeys). unfold polys_step.
  destruct (py.get z0 ctrds) as [c| |] eqn:Hz0; simpl; try done.
  assert (forall z, z ∈ pre ++ [z0] -> exists c, py.get z ctrds = Ok c) as Hc'.
  { intros z [Hz|Hz%list_elem_of_singleton]%elem_of_app; [auto | subst; by eexists]. }
  destruct c as [chain0|]; intros [= <-]; (split; [exact Hc'|]); split.
  - intros z chain Hz Hch. rewrite get_set. destruct (Qeq_bool z0 z) eqn:Hq.
    + apply Qeq_bool_eq in Hq. rewrite (get_proper _ _ _ Hq), Hch in Hz0. congruence.
    + apply elem_of_app in Hz as [Hz|Hz%list_elem_of_singleton]; [auto|].
      subst. by rewrite Qeq_bool_refl in Hq.
  - intros k. rewrite has_set, get_set. destruct (Qeq_bool z0 k) eqn:Hq.
    + intros _. exists z0, chain0. apply Qeq_bool_eq in Hq.
      split; [apply elem_of_app; right; by apply list_elem_of_singleton|].
      split; [done|]. by rewrite <- (get_proper _ _ _ Hq).
    + simpl. intros (z & chain & Hz & Heq & Hch & Hp)%Hkeys. exists z, chain.
      split; [apply elem_of_app; by left | done].
  - intros z chain [Hz|Hz%list_elem_of_singleton]%elem_of_app Hch; [auto|].
    subst. congruence.
  - intros k (z & chain & Hz & Heq & Hch & Hp)%Hkeys. exists z, chain.
    split; [apply elem_of_app; by left | done].
Qed.

Lemma clean_level (minctrd tolpolyslen : Z) (simpl_tol : Q) (pl : list (list xy))
    (acc r : list (list xy)) :
  for_each (fun acc poly =>
      if too_short minctrd tolpolyslen poly then Ok acc
      else match line_simplify poly simpl_tol with
           | Some cleanpoly => Ok (acc ++ [cleanpoly])
           | None => Raise ValueError
           end) pl acc = Ok r ->
  exists new, r = acc ++ new /\
    Forall2 (fun poly c => line_simplify poly simpl_tol = Some c)
      (List.filter (fun poly => negb (too_short minctrd tolpolyslen poly)) pl) new.
Proof.
  revert acc. induction pl as [|poly pl IH]; intros acc; simpl.
  { intros [= <-]. exists []. by rewrite app_nil_r. }
  destruct (too_short minctrd tolpolyslen poly); simpl; [apply IH|].
  destruct (line_simplify poly simpl_tol) as [c|] eqn:Hc; simpl; [|done].
  intros (new & -> & Hnew)%IH. exists (c :: new). rewrite <- app_assoc.
  split; [done | by constructor].
Qed.

Lemma clean_level_total (minctrd tolpolyslen : Z) (simpl_tol : Q) (pl : list (list xy))
    (acc : list (list xy)) :
  (forall poly, too_short minctrd tolpolyslen poly = false ->
     is_Some (line_simplify poly simpl_tol)) ->
  exists r, for_each (fun acc poly =>
      if too_short minctrd tolpolyslen poly then Ok acc
      else match line_simplify poly simpl_tol with
           | Some cleanpoly => Ok (acc ++ [cleanpoly])
           | None => Raise ValueError
           end) pl acc = Ok r.
Proof.
  intros Hs. revert acc. induction pl as [|poly pl IH]; intros acc; simpl; [by eexists|].
  destruct (too_short minctrd tolpolyslen poly) eqn:Hshort; simpl; [apply IH|].
  destruct (Hs poly Hshort) as [c Hc]. rewrite Hc. simpl. apply IH.
Qed.

Lemma clean_loop (minctrd tolpolyslen : Z) (simpl_tol : Q)
    (polys cleanpolys : py.dict (list (list xy))) (zcoords : list Q) :
  for_each (clean_step minctrd tolpolyslen simpl_tol polys) zcoords [] = Ok cleanpolys ->
  (forall z pl, z ∈ zcoords -> py.get z polys = Ok pl ->
     exists cl, py.get z cleanpolys = Ok cl /\
       Forall2 (fun poly c => line_simplify poly simpl_tol = Some c)
         (List.filter (fun poly => negb (too_short minctrd tolpolyslen poly)) pl) cl) /\
  (forall k, py.has k cleanpolys = true -> py.has k polys = true).
Proof.
  intros Hrun.
  eapply (for_each_partial _ (fun pre cleanpolys =>
    (forall z pl, z ∈ pre -> py.get z polys = Ok pl ->
       exists cl, py.get z cleanpolys = Ok cl /\
         Forall2 (fun poly c => line_simplify poly simpl_tol = Some c)
           (List.filter (fun poly => negb (too_short minctrd tolpolyslen poly)) pl) cl) /\
    (forall k, py.has k cleanpolys = true -> py.has k polys = true)));
    [| |exact Hrun].
  { split; [by intros z pl ?%elem_of_nil | done]. }
  intros pre z0 c0 c1 [Hget Hkeys]. unfold clean_step.
  destruct (py.get z0 polys) as [pl0| |] eqn:Hz0.
  - destruct (for_each _ pl0 []) as [zclean| |] eqn:Hlevel; simpl; try done.
    apply clean_level in Hlevel as (new & -> & Hnew). simpl.
    intros [= <-]. split.
    + intros z pl Hz Hpl. rewrite get_set. destruct (Qeq_bool z0 z) eqn:Hq.
      * apply Qeq_bool_eq in Hq. rewrite (get_proper _ _ _ Hq), Hpl in Hz0.
        injection Hz0 as ->. by exists new.
      * apply elem_of_app in Hz as [Hz|Hz%list_elem_of_singleton]; [auto|].
        subst. by rewrite Qeq_bool_refl in Hq.
    + intros k. rewrite has_set. intros [Hq%Qeq_bool_eq|?]%orb_true_iff; [|auto].
      rewrite <- (has_proper _ _ _ Hq). apply has_get. by eexists.
  - intros [= <-]. split; [|done].
    intros z pl [Hz|Hz%list_elem_of_singleton]%elem_of_app Hpl; [auto|].
    subst. congruence.
  - intros [= <-]. split; [|done].
    intros z pl [Hz|Hz%list_elem_of_singleton]%elem_of_app Hpl; [auto|].
    subst. congruence.
Qed.

Lemma make_polylines_parts (minwthick : Q) (zcoords : list Q)
    (ctrds : py.dict (option (list row3))) (prcnt : Q) (minctrd : Z) (simpl_tol : Q)
    (polys cleanpolys : py.dict (list (list xy))) :
  make_polylines minwthick zcoords ctrds prcnt minctrd simpl_tol = Ok (polys, cleanpolys) ->
  exists p,
    for_each (polys_step minwthick ctrds) zcoords [] = Ok polys /\
    np.nanpercentile (polyslen zcoords polys) prcnt = Ok (Some p) /\
    for_each (clean_step minctrd (py.round p) simpl_tol polys) zcoords [] = Ok cleanpolys.
Proof.
  unfold make_polylines. intros Hrun.
  destruct (for_each (polys_step _ _) _ _) as [polys0| |] eqn:H1; simpl in Hrun; try done.
  destruct (np.nanpercentile _ _) as [[p|]| |] eqn:H2; simpl in Hrun; try done.
  destruct (for_each (clean_step _ _ _ _) _ _) as [clean0| |] eqn:H3; simpl in Hrun;
    try done.
  injection Hrun as -> ->. by exists p.
Qed.

(** X9.  The polylines of a level are its chain of centroids cut at the
    gaps: laid end to end they give the chain back, none is empty,
    consecutive centroids of one polyline are less than [minwthick] apart
    and each polyline ends [minwthick] or more from the start of the next. *)
Theorem make_polylines_split (minwthick : Q) (zcoords : list Q)
    (ctrds : py.dict (option (list row3))) (prcnt : Q) (minctrd : Z) (simpl_tol : Q)
    (polys cleanpolys : py.dict (list (list xy))) (z : Q) (chain : list row3) :
  make_polylines minwthick zcoords ctrds prcnt minctrd simpl_tol = Ok (polys, cleanpolys) ->
  z ∈ zcoords -> py.get z ctrds = Ok (Some chain) ->
  exists pieces,
    py.get z polys = Ok pieces /\
    concat pieces = map (fun c => (col0 c, col1 c)) chain /\
    (chain <> [] -> Forall (fun p => p <> []) pieces) /\
    cut_at_gaps minwthick pieces.
Proof.
  intros (p & Hpolys & _ & _)%make_polylines_parts Hz Hch.
  apply polys_loop in Hpolys as (_ & Hget & _).
  exists (split_chain minwthick chain). split; [by apply Hget|].
  rewrite split_chain_chop. split; [apply chop_concat|]. split; [|apply chop_gaps].
  intros Hne. destruct chain as [|c rest]; [done|]. apply chop_nonempty.
Qed.

(** X10.  A level whose centroid entry is [None] gets no polylines at all,
    raw or clean; a level of [zcoords] that is no key of [ctrds] makes the
    call fail with [KeyError]. *)
Theorem make_polylines_skips_empty (minwthick : Q) (zcoords : list Q)
    (ctrds : py.dict (option (list row3))) (prcnt : Q) (minctrd : Z) (simpl_tol : Q) :
  (forall polys cleanpolys z,
     make_polylines minwthick zcoords ctrds prcnt minctrd simpl_tol
     = Ok (polys, cleanpolys) ->
     z ∈ zcoords -> py.get z ctrds = Ok None ->
     py.get z polys = Raise KeyError /\ py.get z cleanpolys = Raise KeyError) /\
  (forall z, z ∈ zcoords -> py.has z ctrds = false ->
     make_polylines minwthick zcoords ctrds prcnt minctrd simpl_tol = Raise KeyError).
Proof.
  split.
  - intros polys cleanpolys z (p & Hpolys & _ & Hclean)%make_polylines_parts Hz Hnone.
    apply polys_loop in Hpolys as (_ & _ & Hkeys).
    apply clean_loop in Hclean as [_ Hsub].
    assert (py.has z polys = false) as Hno.
    { destruct (py.has z polys) eqn:Hh; [|done].
      destruct (Hkeys z Hh) as (? & ? & _ & _ & ? & _). congruence. }
    split; [by apply get_raises|]. apply get_raises.
    destruct (py.has z cleanpolys) eqn:Hh; [|done]. apply Hsub in Hh. congruence.
  - intros z Hz Hno. unfold make_polylines.
    assert (for_each (polys_step minwthick ctrds) zcoords [] = Raise KeyError) as ->; [|done].
    generalize (@nil (Q * list (list xy))) as polys.
    induction zcoords as [|z0 zs IH]; intros polys; [by apply elem_of_nil in Hz|].
    cbn [for_each].
    destruct (get_cases z0 ctrds) as [[c Hc]|Hc].
    + assert (exists p1, polys_step minwthick ctrds polys z0 = Ok p1) as [p1 ->].
      { unfold polys_step. rewrite Hc. destruct c; by eexists. }
      rewrite bind_Ok. apply IH.
      apply elem_of_cons in Hz as [->|?]; [|done].
      apply get_raises in Hno. congruence.
    + assert (polys_step minwthick ctrds polys z0 = Raise KeyError) as ->; [|done].
      unfold polys_step. by rewrite Hc.
Qed.

End polylines_facts.

Section percentile_facts.
Import Cloud2Polygons.

Lemma Qlt_bool_iff (a b : Q) : Qlt_bool a b = true <-> a < b.
Proof.
  unfold Qlt_bool. rewrite negb_true_iff. split.
  - intros Hle. apply Qnot_le_lt. intros Hc%Qle_bool_iff. congruence.
  - intros Hlt. destruct (Qle_bool b a) eqn:Hle; [|done].
    apply Qle_bool_iff in Hle. lra.
Qed.

Lemma round_le (x : Q) (L : Z) : x <= inject_Z L -> (py.round x <= L)%Z.
Proof.
  intros Hx. unfold py.round.
  pose proof (Qfloor_le x) as Hf.
  assert (Qfloor x <= L)%Z as HfL.
  { rewrite Zle_Qle. lra. }
  fold (Qlt_bool (x - inject_Z (Qfloor x)) (1 # 2)).
  destruct (Qlt_bool (x - inject_Z (Qfloor x)) (1 # 2)) eqn:H1; [done|].
  assert (Qfloor x < L)%Z; [|by repeat case_match; lia].
  destruct (Z.eq_dec (Qfloor x) L) as [Heq|?]; [|lia].
  assert (x - inject_Z (Qfloor x) < 1 # 2) as Hlt by (rewrite Heq; lra).
  apply Qlt_bool_iff in Hlt. congruence.
Qed.

Lemma nanpercentile_range (a : list nat) (q : Q) :
  0 <= q -> q <= 100 -> a <> [] ->
  exists p, np.nanpercentile a q = Ok (Some p) /\
    forall L : nat, (forall x, x ∈ a -> (x <= L)%nat) -> p <= inject_Z (Z.of_nat L).
Proof.
  intros H0 H100 Hne. unfold np.nanpercentile.
  apply Qle_bool_iff in H0 as H0b. apply Qle_bool_iff in H100 as H100b.
  rewrite H0b, H100b. simpl negb. cbv iota.
  destruct a as [|x0 a']; [done|]. set (a := x0 :: a') in *.
  set (n1 := (length a - 1)%nat).
  set (idx := inject_Z (Z.of_nat n1) * (q / 100)).
  assert (q / 100 * 100 == q) as Hq by field.
  assert (0 <= inject_Z (Z.of_nat n1)) as Hn0.
  { change 0 with (inject_Z 0). rewrite <- Zle_Qle. lia. }
  assert (0 <= idx /\ idx <= inject_Z (Z.of_nat n1)) as [Hi0 Hi1].
  { unfold idx. set (r := q / 100) in *. clearbody r.
    set (m := inject_Z (Z.of_nat n1)) in *. clearbody m. split; nra. }
  pose proof (Qfloor_le idx) as Hfl. pose proof (Qlt_floor idx) as Hfu.
  rewrite inject_Z_plus in Hfu. change (inject_Z 1) with 1 in Hfu.
  assert (0 <= Qfloor idx)%Z as Hf0.
  { change 0%Z with (Qfloor 0). by apply Qfloor_resp_le. }
  assert (Qfloor idx <= Z.of_nat n1)%Z as Hf1.
  { rewrite <- (Qfloor_Z (Z.of_nat n1)). by apply Qfloor_resp_le. }
  pose proof (merge_sort_Permutation le a) as Hperm.
  assert (length (merge_sort le a) = length a) as Hlen by (by rewrite Hperm).
  assert (length a = S n1) as Hn by (unfold n1, a; simpl; lia).
  destruct (lookup_lt_is_Some_2 (merge_sort le a) (Z.to_nat (Qfloor idx))) as [u Hu];
    [lia|].
  destruct (lookup_lt_is_Some_2 (merge_sort le a)
              (Nat.min (S (Z.to_nat (Qfloor idx))) n1)) as [v Hv]; [lia|].
  rewrite Hu, Hv. eexists. split; [done|].
  intros L HL.
  assert (u <= L /\ v <= L)%nat as [HuL HvL].
  { split; apply HL; rewrite <- Hperm; by eapply list_elem_of_lookup_2. }
  assert (inject_Z (Z.of_nat u) <= inject_Z (Z.of_nat L)) as HuQ.
  { rewrite <- Zle_Qle. lia. }
  assert (inject_Z (Z.of_nat v) <= inject_Z (Z.of_nat L)) as HvQ.
  { rewrite <- Zle_Qle. lia. }
  set (g := idx - inject_Z (Qfloor idx)) in *.
  assert (0 <= g /\ g <= 1) as [Hg0 Hg1] by (unfold g; split; lra).
  clearbody g.
  set (U := inject_Z (Z.of_nat u)) in *. set (V := inject_Z (Z.of_nat v)) in *.
  set (LL := inject_Z (Z.of_nat L)) in *. clearbody U V LL. nra.
Qed.

Lemma nanpercentile_empty (q : Q) :
  np.nanpercentile [] q = Ok None \/ np.nanpercentile [] q = Raise ValueError.
Proof. unfold np.nanpercentile. destruct (negb _); auto. Qed.

End percentile_facts.

Section polylines_theorems.
Import Cloud2Polygons.
Context `{LineStrings}.

Lemma elem_of_polyslen (zcoords : list Q) (polys : py.dict (list (list xy))) (x : nat) :
  x ∈ polyslen zcoords polys <->
  exists z pl poly, z ∈ zcoords /\ py.get z polys = Ok pl /\ poly ∈ pl /\ x = length poly.
Proof.
  unfold polyslen. rewrite list_elem_of_In, in_flat_map. split.
  - intros (z & Hz%list_elem_of_In & Hx).
    destruct (py.get z polys) as [pl| |] eqn:Hpl; try done.
    apply in_map_iff in Hx as (poly & <- & Hpoly%list_elem_of_In).
    by exists z, pl, poly.
  - intros (z & pl & poly & Hz & Hpl & Hpoly & ->). exists z.
    split; [by apply list_elem_of_In|]. rewrite Hpl.
    apply in_map, list_elem_of_In, Hpoly.
Qed.

Lemma threshold_bound (zcoords : list Q) (polys : py.dict (list (list xy)))
    (prcnt p : Q) (L : nat) :
  np.nanpercentile (polyslen zcoords polys) prcnt = Ok (Some p) ->
  (forall z pl poly, z ∈ zcoords -> py.get z polys = Ok pl -> poly ∈ pl ->
     (length poly <= L)%nat) ->
  (py.round p <= Z.of_nat L)%Z.
Proof.
  intros Hp HL. apply round_le.
  unfold np.nanpercentile in Hp.
  destruct (Qle_bool 0 prcnt) eqn:H0; [|done].
  destruct (Qle_bool prcnt 100) eqn:H100; [|done].
  apply Qle_bool_iff in H0, H100.
  destruct (polyslen zcoords polys) as [|x0 a] eqn:Ha; [done|].
  destruct (nanpercentile_range (x0 :: a) prcnt H0 H100) as (p' & Hp' & Hb); [done|].
  unfold np.nanpercentile in Hp'.
  apply Qle_bool_iff in H0, H100. rewrite H0, H100 in Hp'. simpl negb in *.
  cbv iota in Hp, Hp'. rewrite Hp in Hp'. injection Hp' as <-.
  apply Hb. intros x Hx. rewrite <- Ha in Hx.
  apply elem_of_polyslen in Hx as (z & pl & poly & Hz & Hpl & Hpoly & ->).
  by eapply HL.
Qed.

(** X11.  The clean polylines of a level are the simplifications of its
    polylines that have [minctrd] points or more and are not shorter than
    the length threshold over 1.3, in their order; the threshold is no
    larger than the longest polyline. *)
Theorem make_polylines_clean (minwthick : Q) (zcoords : list Q)
    (ctrds : py.dict (option (list row3))) (prcnt : Q) (minctrd : Z) (simpl_tol : Q)
    (polys cleanpolys : py.dict (list (list xy))) :
  make_polylines minwthick zcoords ctrds prcnt minctrd simpl_tol = Ok (polys, cleanpolys) ->
  exists tolpolyslen : Z,
    (forall L : nat,
       (forall z pl poly, z ∈ zcoords -> py.get z polys = Ok pl -> poly ∈ pl ->
          (length poly <= L)%nat) ->
       (tolpolyslen <= Z.of_nat L)%Z) /\
    forall z pl, z ∈ zcoords -> py.get z polys = Ok pl ->
      exists cl, py.get z cleanpolys = Ok cl /\
        Forall2 (fun poly c => line_simplify poly simpl_tol = Some c)
          (List.filter (fun poly => negb (too_short minctrd tolpolyslen poly)) pl) cl.
Proof.
  intros (p & _ & Hp & Hclean)%make_polylines_parts.
  exists (py.round p). split.
  - intros L HL. by eapply threshold_bound.
  - by apply clean_loop in Hclean as [Hget _].
Qed.

(** X12.  A polyline that is as long as any other and has [minctrd]
    points is never discarded: its simplification is among the clean
    polylines of its level. *)
Theorem make_polylines_keeps_longest (minwthick : Q) (zcoords : list Q)
    (ctrds : py.dict (option (list row3))) (prcnt : Q) (minctrd : Z) (simpl_tol : Q)
    (polys cleanpolys : py.dict (list (list xy))) (z : Q) (pl : list (list xy))
    (poly : list xy) :
  make_polylines minwthick zcoords ctrds prcnt minctrd simpl_tol = Ok (polys, cleanpolys) ->
  z ∈ zcoords -> py.get z polys = Ok pl -> poly ∈ pl ->
  (minctrd <= Z.of_nat (length poly))%Z ->
  (forall z' pl' poly', z' ∈ zcoords -> py.get z' polys = Ok pl' -> poly' ∈ pl' ->
     (length poly' <= length poly)%nat) ->
  exists cl c, py.get z cleanpolys = Ok cl /\
    line_simplify poly simpl_tol = Some c /\ c ∈ cl.
Proof.
  intros (p & _ & Hp & Hclean)%make_polylines_parts Hz Hpl Hpoly Hmin Hmax.
  pose proof (threshold_bound _ _ _ _ _ Hp Hmax) as Hb.
  apply clean_loop in Hclean as [Hget _].
  destruct (Hget z pl Hz Hpl) as (cl & Hcl & Hall).
  assert (too_short minctrd (py.round p) poly = false) as Hkeep.
  { unfold too_short. apply orb_false_iff. split; [by apply Z.ltb_ge|].
    destruct (Qlt_bool _ _) eqn:Hlt; [|done]. apply Qlt_bool_iff in Hlt.
    assert (inject_Z (py.round p) <= inject_Z (Z.of_nat (length poly))) as HbQ.
    { by rewrite <- Zle_Qle. }
    assert (0 <= inject_Z (Z.of_nat (length poly))) as H0.
    { change 0 with (inject_Z 0). rewrite <- Zle_Qle. lia. }
    assert (inject_Z (py.round p) / (13 # 10) * (13 # 10) == inject_Z (py.round p))
      as Hdiv by field.
    set (t := inject_Z (py.round p)) in *. set (q := t / (13 # 10)) in *.
    set (l := inject_Z (Z.of_nat (length poly))) in *. clearbody t q l. lra. }
  assert (poly ∈ List.filter (fun poly => negb (too_short minctrd (py.round p) poly)) pl)
    as Hin.
  { apply list_elem_of_In, filter_In. split; [by apply list_elem_of_In|].
    by rewrite Hkeep. }
  apply list_elem_of_lookup in Hin as [i Hi].
  destruct (Forall2_lookup_l _ _ _ _ _ Hall Hi) as (c & Hc & Hs).
  exists cl, c. split; [done|]. split; [done|]. by eapply list_elem_of_lookup_2.
Qed.

(** X13.  When no level has a chain of centroids, [make_polylines] fails
    with [ValueError]: the percentile of no lengths is [nan], which
    [round] refuses. *)
Theorem make_polylines_needs_chain (minwthick : Q) (zcoords : list Q)
    (ctrds : py.dict (option (list row3))) (prcnt : Q) (minctrd : Z) (simpl_tol : Q) :
  (forall z, z ∈ zcoords -> py.get z ctrds = Ok None) ->
  make_polylines minwthick zcoords ctrds prcnt minctrd simpl_tol = Raise ValueError.
Proof.
  intros Hnone. unfold make_polylines.
  assert (for_each (polys_step minwthick ctrds) zcoords [] = Ok []) as ->.
  { induction zcoords as [|z zs IH]; [done|]. cbn [for_each].
    assert (polys_step minwthick ctrds [] z = Ok []) as ->.
    { unfold polys_step. rewrite (Hnone z); [done | by left]. }
    rewrite bind_Ok. apply IH. intros z' Hz'. apply Hnone. by right. }
  rewrite bind_Ok.
  assert (polyslen zcoords [] = []) as ->.
  { unfold polyslen. clear. induction zcoords as [|z zs IH]; [done | by simpl]. }
  by destruct (nanpercentile_empty prcnt) as [-> | ->].
Qed.

(** X14.  With a percentile inside [0, 100], a threshold of at least two
    centroids and an entry for every level, [make_polylines] returns as
    soon as one level has a chain. *)
Theorem make_polylines_returns (minwthick : Q) (zcoords : list Q)
    (ctrds : py.dict (option (list row3))) (prcnt : Q) (minctrd : Z) (simpl_tol : Q) :
  0 <= prcnt -> prcnt <= 100 -> (2 <= minctrd)%Z ->
  (forall poly, (2 <= length poly)%nat -> is_Some (line_simplify poly simpl_tol)) ->
  (forall z, z ∈ zcoords -> exists c, py.get z ctrds = Ok c) ->
  (exists z chain, z ∈ zcoords /\ py.get z ctrds = Ok (Some chain)) ->
  exists polys cleanpolys,
    make_polylines minwthick zcoords ctrds prcnt minctrd simpl_tol = Ok (polys, cleanpolys).
Proof.
  intros H0 H100 Hmin Hsimpl Hall (z & chain & Hz & Hch). unfold make_polylines.
  destruct (for_each_inv_on (fun z => exists c, py.get z ctrds = Ok c)
              (polys_step minwthick ctrds) (fun _ _ => True) zcoords [])
    as (polys & Hpolys & _).
  { by apply List.Forall_forall; intros z' Hz'%list_elem_of_In; apply Hall. }
  { done. }
  { intros pre z' polys' [c Hc] _. unfold polys_step. rewrite Hc.
    destruct c; by eexists. }
  rewrite Hpolys, bind_Ok.
  pose proof (polys_loop _ _ _ _ Hpolys) as (_ & Hget & _).
  assert (polyslen zcoords polys <> []) as Hne.
  { destruct (chop_head minwthick (map (fun c => (col0 c, col1 c)) chain))
      as (p & ps & Hchop & _).
    assert (length p ∈ polyslen zcoords polys) as Hin.
    { apply elem_of_polyslen. exists z, (p :: ps), p.
      split; [done|]. split; [|split; [by left | done]].
      by rewrite (Hget z chain Hz Hch), split_chain_chop, Hchop. }
    intros Hnil. rewrite Hnil in Hin. by apply elem_of_nil in Hin. }
  destruct (nanpercentile_range _ prcnt H0 H100 Hne) as (p & -> & _).
  rewrite bind_Ok.
  destruct (for_each_inv (clean_step minctrd (py.round p) simpl_tol polys)
              (fun _ _ => True) zcoords []) as (cleanpolys & -> & _).
  { done. }
  { intros pre z' c' _. unfold clean_step.
    destruct (py.get z' polys) as [pl| |]; [|by eexists..].
    destruct (clean_level_total minctrd (py.round p) simpl_tol pl []) as [r ->].
    { intros poly [Hlen%Z.ltb_ge _]%orb_false_iff. apply Hsimpl. lia. }
    by eexists. }
  by eexists _, _.
Qed.

End polylines_theorems.

Section polylines_witnesses.
Import Cloud2Polygons Rings.

Lemma wall_polylines :
  exists polys cleanpolys,
    make_polylines 2 [0; 1] [(0, Some wall); (1, None)] 1 2 (25 # 1000)
    = Ok (polys, cleanpolys).
Proof. eexists _, _. vm_compute. reflexivity. Defined.

Lemma make_polylines_split_witness :
  exists pieces,
    concat pieces = map (fun c => (col0 c, col1 c)) wall /\
    (wall <> [] -> Forall (fun p => p <> []) pieces) /\
    cut_at_gaps 2 pieces.
Proof.
  destruct wall_polylines as (polys & cleanpolys & Hrun).
  destruct (make_polylines_split _ _ _ _ _ _ _ _ 0 wall Hrun) as (pieces & _ & Hp).
  - apply elem_of_cons. by left.
  - reflexivity.
  - by exists pieces.
Defined.

Lemma make_polylines_skips_empty_witness :
  (exists polys cleanpolys,
     make_polylines 2 [0; 1] [(0, Some wall); (1, None)] 1 2 (25 # 1000)
     = Ok (polys, cleanpolys) /\
     py.get 1 polys = Raise KeyError /\ py.get 1 cleanpolys = Raise KeyError) /\
  make_polylines 2 [0; 1] [(0, Some wall)] 1 2 (25 # 1000) = Raise KeyError.
Proof.
  destruct (make_polylines_skips_empty (H:=lines) 2 [0; 1] [(0, Some wall); (1, None)] 1 2
              (25 # 1000)) as [Hnone _].
  destruct (make_polylines_skips_empty (H:=lines) 2 [0; 1] [(0, Some wall)] 1 2
              (25 # 1000)) as [_ Hkey].
  split.
  - destruct wall_polylines as (polys & cleanpolys & Hrun).
    exists polys, cleanpolys. split; [exact Hrun|].
    apply (Hnone polys cleanpolys 1 Hrun); [|reflexivity].
    apply elem_of_cons. right. apply elem_of_cons. by left.
  - apply (Hkey 1); [|reflexivity].
    apply elem_of_cons. right. apply elem_of_cons. by left.
Defined.

Lemma make_polylines_clean_witness :
  exists polys cleanpolys (tolpolyslen : Z),
    make_polylines 2 [0; 1] [(0, Some wall); (1, None)] 1 2 (25 # 1000)
    = Ok (polys, cleanpolys) /\
    forall z pl, z ∈ [0; 1] -> py.get z polys = Ok pl ->
      exists cl, py.get z cleanpolys = Ok cl /\
        Forall2 (fun poly c => line_simplify poly (25 # 1000) = Some c)
          (List.filter (fun poly => negb (too_short 2 tolpolyslen poly)) pl) cl.
Proof.
  destruct wall_polylines as (polys & cleanpolys & Hrun).
  destruct (make_polylines_clean _ _ _ _ _ _ _ _ Hrun) as (t & _ & Hc).
  exists polys, cleanpolys, t. exact (conj Hrun Hc).
Defined.

Lemma make_polylines_keeps_longest_witness :
  exists (cl : list (list xy)) c,
    line_simplify [(0, 0); (1, 0)] (25 # 1000) = Some c /\ c ∈ cl.
Proof.
  assert (make_polylines 2 [0; 1] [(0, Some wall); (1, None)] 1 2 (25 # 1000)
          = Ok ([(0, [[(0, 0); (1, 0)]; [(5, 0); (6, 0)]])],
                [(0, [[(0, 0); (1, 0)]; [(5, 0); (6, 0)]])])) as Hrun.
  { vm_compute. reflexivity. }
  destruct (make_polylines_keeps_longest _ _ _ _ _ _ _ _ 0
              [[(0, 0); (1, 0)]; [(5, 0); (6, 0)]] [(0, 0); (1, 0)] Hrun)
    as (cl & c & _ & Hc).
  - apply elem_of_cons. by left.
  - reflexivity.
  - apply elem_of_cons. by left.
  - discriminate.
  - intros z' pl' poly' _ Hpl' Hpoly'. simpl in Hpl'.
    destruct (Qeq_bool 0 z'); [|discriminate]. injection Hpl' as <-.
    apply elem_of_cons in Hpoly' as [->|Hpoly']; [apply Nat.le_refl|].
    apply elem_of_cons in Hpoly' as [->|Hpoly']; [apply Nat.le_refl|].
    by apply elem_of_nil in Hpoly'.
  - by exists cl, c.
Defined.

Lemma make_polylines_needs_chain_witness :
  make_polylines 2 [0; 1] [(0, None); (1, None)] 1 2 (25 # 1000) = Raise ValueError.
Proof.
  apply (make_polylines_needs_chain (H:=lines)).
  intros z Hz.
  apply elem_of_cons in Hz as [->|Hz]; [reflexivity|].
  apply elem_of_cons in Hz as [->|Hz]; [reflexivity|].
  by apply elem_of_nil in Hz.
Defined.

Lemma make_polylines_returns_witness :
  exists polys cleanpolys,
    make_polylines 2 [0; 1] [(0, Some wall); (1, None)] 1 2 (25 # 1000)
    = Ok (polys, cleanpolys).
Proof.
  apply (make_polylines_returns (H:=lines)).
  - discriminate.
  - discriminate.
  - discriminate.
  - intros poly Hlen. simpl.
    destruct (Nat.ltb_spec (length poly) 2) as [Hlt|_]; [|by eexists].
    exfalso. exact (proj1 (Nat.lt_nge _ _) Hlt Hlen).
  - intros z Hz.
    apply elem_of_cons in Hz as [->|Hz]; [by eexists|].
    apply elem_of_cons in Hz as [->|Hz]; [by eexists|].
    by apply elem_of_nil in Hz.
  - exists 0, wall. split; [|reflexivity]. apply elem_of_cons. by left.
Defined.

End polylines_witnesses.

(** ** Polygons: refused polylines and tolerances *)

Section polygons_more.
Import Cloud2Polygons.
Context `{Shapely}.

Lemma polyline_step_reused (fuel : nat) (minwthick z : Q) (st : pstate)
    (pgons : list geom) (pl : list xy) (g : geom) :
  (21 <= fuel)%nat -> 0 <= minwthick -> 0 <= tolsimpl st ->
  match Polygon pl with Some g => Some g | None => newpgon st end = Some g ->
  exists tol',
    0 <= tol' /\
    polyline_step fuel minwthick z (st, pgons) pl
    = Ok (PState tol' (Some g)
            (invalidpolygons st ++ (if is_valid g then [] else [z])) (polygs st),
          pgons ++ (if is_valid g then [g] else [])).
Proof.
  intros Hf Hm Ht Hg. unfold polyline_step. cbn [fst snd]. rewrite Hg.
  destruct (adjust_total fuel minwthick (tolsimpl st) g Hf Hm Ht) as (tol' & -> & Hle).
  rewrite bind_Ok. cbn [fst snd]. exists tol'. split; [lra|].
  destruct (is_valid g); by rewrite !app_nil_r.
Qed.

Lemma polylines_reused (fuel : nat) (minwthick z : Q) (polylines : list (list xy))
    (st : pstate) (pgons : list geom) :
  (21 <= fuel)%nat -> 0 <= minwthick -> 0 <= tolsimpl st ->
  match reused (newpgon st) polylines with
  | None =>
      for_each (polyline_step fuel minwthick z) polylines (st, pgons)
      = Raise UnboundLocalError
  | Some gs =>
      exists st',
        for_each (polyline_step fuel minwthick z) polylines (st, pgons)
        = Ok (st', pgons ++ List.filter is_valid gs) /\
        polygs st' = polygs st /\
        invalidpolygons st'
        = invalidpolygons st
          ++ map (fun _ => z) (List.filter (fun g => negb (is_valid g)) gs)
  end.
Proof.
  intros Hf Hm. revert st pgons.
  induction polylines as [|pl rest IH]; intros st pgons Ht; cbn [reused for_each].
  { exists st. by rewrite !app_nil_r. }
  destruct (match Polygon pl with Some g => Some g | None => newpgon st end) as [g|] eqn:Hg.
  - destruct (polyline_step_reused fuel minwthick z st pgons pl g Hf Hm Ht Hg)
      as (tol' & Htol' & ->).
    rewrite bind_Ok.
    set (st1 := PState tol' (Some g) _ (polygs st)).
    specialize (IH st1 (pgons ++ (if is_valid g then [g] else [])) Htol').
    cbn [newpgon st1] in IH.
    destruct (reused (Some g) rest) as [gs|]; cbn [fmap option_fmap option_map]; [|exact IH].
    destruct IH as (st' & -> & Hp & Hi). exists st'.
    cbn [List.filter map]. cbn [polygs invalidpolygons st1] in Hp, Hi.
    destruct (is_valid g); cbn [negb map app];
      by rewrite Hi, <- ?app_assoc, ?app_nil_r.
  - unfold polyline_step. cbn [fst snd]. by rewrite Hg.
Qed.

(** X15.  A polyline that [sg.Polygon] refuses is not skipped: the
    polygon of the polyline before it is processed once more (and
    enters the combination a second time when valid), and the level
    fails with [UnboundLocalError] when no polygon was built before. *)
Theorem level_pgons_reused (fuel : nat) (minwthick z : Q)
    (cleanpolys : py.dict (list (list xy))) (polylines : list (list xy)) (st : pstate) :
  (21 <= fuel)%nat -> 0 <= minwthick -> 0 <= tolsimpl st ->
  py.get z cleanpolys = Ok polylines ->
  match reused (newpgon st) polylines with
  | None => level_pgons fuel minwthick cleanpolys st z = Raise UnboundLocalError
  | Some gs =>
      exists st',
        level_pgons fuel minwthick cleanpolys st z = Ok (st', List.filter is_valid gs) /\
        invalidpolygons st'
        = invalidpolygons st
          ++ map (fun _ => z) (List.filter (fun g => negb (is_valid g)) gs)
  end.
Proof.
  intros Hf Hm Ht Hget. unfold level_pgons. rewrite Hget, bind_Ok.
  pose proof (polylines_reused fuel minwthick z polylines st [] Hf Hm Ht) as Hrun.
  destruct (reused (newpgon st) polylines) as [gs|]; [|done].
  destruct Hrun as (st' & -> & _ & Hi). by exists st'.
Qed.

(** X16.  The wall thickness, the tolerance and the fuel have no effect on
    what [make_polygons] returns: the levels flagged are the levels with
    a ring that is invalid as built, once per such ring. *)
Theorem make_polygons_ignores_tolerances (fuel fuel' : nat) (minwthick minwthick' : Q)
    (zcoords : list Q) (cleanpolys : py.dict (list (list xy))) (tol0 tol0' : Q) :
  (21 <= fuel)%nat -> 0 <= minwthick -> 0 <= tol0 ->
  (21 <= fuel')%nat -> 0 <= minwthick' -> 0 <= tol0' ->
  (forall z polylines, py.get z cleanpolys = Ok polylines ->
     Forall (fun pl => is_Some (Polygon pl)) polylines) ->
  make_polygons fuel minwthick zcoords cleanpolys tol0
  = make_polygons fuel' minwthick' zcoords cleanpolys tol0' /\
  exists polygs,
    make_polygons fuel minwthick zcoords cleanpolys tol0
    = Ok (polygs,
          concat (map (fun z => map (fun _ => z) (invalid_rings cleanpolys z))
                    (List.filter (fun z => py.has z cleanpolys) zcoords))).
Proof.
  intros Hf Hm Ht Hf' Hm' Ht' Hconv.
  rewrite (make_polygons_run fuel minwthick zcoords cleanpolys tol0 Hf Hm Ht Hconv).
  rewrite (make_polygons_run fuel' minwthick' zcoords cleanpolys tol0' Hf' Hm' Ht' Hconv).
  split; [done | by eexists].
Qed.

End polygons_more.

Section polygons_witnesses.
Import Cloud2Polygons Rings.

Lemma level_pgons_reused_witness :
  exists st',
    level_pgons 21 (1 # 4) [(0, [square; [(0, 0)]])] (PState (35 # 1000) None [] []) 0
    = Ok (st', [[square]; [square]]) /\
    invalidpolygons st' = [].
Proof.
  apply (level_pgons_reused (H:=rings) 21 (1 # 4) 0 [(0, [square; [(0, 0)]])]
           [square; [(0, 0)]] (PState (35 # 1000) None [] [])).
  - lia.
  - discriminate.
  - discriminate.
  - reflexivity.
Defined.

Lemma make_polygons_ignores_tolerances_witness :
  make_polygons 21 (1 # 4) [0] [(0, [square])] (35 # 1000)
  = make_polygons 30 1 [0] [(0, [square])] 0 /\
  exists polygs,
    make_polygons 21 (1 # 4) [0] [(0, [square])] (35 # 1000) = Ok (polygs, []).
Proof.
  apply (make_polygons_ignores_tolerances (H:=rings) 21 30 (1 # 4) 1 [0]
           [(0, [square])] (35 # 1000) 0); try lia; try discriminate.
  intros z polylines. simpl. destruct (Qeq_bool 0 z); [|discriminate].
  intros [= <-]. repeat constructor. by eexists.
Defined.

End polygons_witnesses.

(** ** The cells and the connectivity table of a mesh *)

Section scan_cells.
Import Cloud2Polygons Polygons2FEM.
Context `{Shapely}.

Lemma set_set {V : Type} (z : Q) (v1 v2 : V) (d : py.dict V) :
  py.set z v2 (py.set z v1 d) = py.set z v2 d.
Proof.
  induction d as [|[k0 v0] d IH]; simpl.
  - by rewrite Qeq_bool_refl.
  - destruct (Qeq_bool k0 z) eqn:Hz; simpl; rewrite Hz; [done|]. by rewrite IH.
Qed.

Lemma set_get_same {V : Type} (z : Q) (v : V) (d : py.dict V) :
  py.get z d = Ok v -> py.set z v d = d.
Proof.
  induction d as [|[k0 v0] d IH]; simpl; [done|].
  destruct (Qeq_bool k0 z); [by intros [= ->] | intros Hg; by rewrite IH].
Qed.

Lemma for_each_nested {S X Y : Type} (f : S -> X -> Y -> outcome S)
    (xs : list X) (ys : list Y) (st : S) :
  for_each (fun r x => for_each (fun r y => f r x y) ys r) xs st
  = for_each (fun r c => f r c.1 c.2) (x ← xs; pair x <$> ys) st.
Proof.
  revert st. induction xs as [|x xs IH]; intros st; [done|].
  rewrite bind_cons, for_each_app. simpl.
  assert (forall st, for_each (fun r c => f r c.1 c.2) (pair x <$> ys) st
                     = for_each (fun r y => f r x y) ys st) as ->.
  { clear. induction ys as [|y ys IHy]; intros st; simpl; [done|].
    destruct (f st x y); simpl; auto. }
  destruct (for_each _ ys st); simpl; auto.
Qed.

Lemma scan_level_cells (polygs : py.dict geom) (xelgrid yelgrid : list Q)
    (e0 e' : py.dict (list (nat * nat))) (t0 t' : nat) (z : Q) :
  scan_level polygs xelgrid yelgrid (e0, t0) z = Ok (e', t') ->
  let h := level_cells polygs xelgrid yelgrid z in
  t' = (t0 + length h)%nat /\
  match h with
  | [] => e' = e0 /\ py.has z e0 = true
  | _ => e' = py.set z h e0
  end.
Proof.
  unfold scan_level. rewrite for_each_nested. cbn [fst snd].
  fold (grid_cells xelgrid yelgrid).
  destruct (for_each _ (grid_cells xelgrid yelgrid) _) as [r| |] eqn:Hrun; simpl; try done.
  assert (scanned z e0 t0 (List.filter (cell_hit polygs xelgrid yelgrid z)
                             (grid_cells xelgrid yelgrid)) r) as Hr.
  { eapply (for_each_partial _ (fun pre r =>
        scanned z e0 t0 (List.filter (cell_hit polygs xelgrid yelgrid z) pre) r));
      [| |exact Hrun]; [done|].
    intros pre [x y] [[elemlist initstack] tot] r1 Hpre. simpl.
    rewrite List.filter_app. cbn [List.filter]. unfold cell_hit at 2. cbn [fst snd].
    destruct (py.get z polygs) as [g| |] eqn:Hg; simpl; try done.
    destruct (py.getitem xelgrid _) as [xe| |] eqn:Hx; simpl; try done.
    destruct (py.getitem yelgrid _) as [ye| |] eqn:Hy; simpl; try done.
    apply getitem_lookup in Hx, Hy. rewrite Hx, Hy.
    destruct (contains g (xe, ye)); [|intros [= <-]; by rewrite app_nil_r].
    destruct (List.filter _ pre) as [|c h] eqn:Hh.
    - injection Hpre as -> -> ->. simpl. intros [= <-].
      unfold scanned. simpl. do 2 f_equal. lia.
    - injection Hpre as -> -> ->. simpl.
      rewrite get_set, Qeq_bool_refl. simpl. intros [= <-].
      rewrite set_set. simpl. unfold scanned.
      rewrite length_app. simpl.
      destruct (h ++ [(x, y)]) eqn:Hd; [by destruct h|].
      rewrite <- Hd. do 2 f_equal. lia. }
  fold (level_cells polygs xelgrid yelgrid z) in Hr.
  destruct r as [[elemlist initstack] tot]. simpl.
  destruct (py.get z elemlist) as [cells| |] eqn:Hcells; simpl; try done.
  intros [= <- <-]. unfold scanned in Hr.
  destruct (level_cells polygs xelgrid yelgrid z) as [|c h] eqn:Hh.
  - injection Hr as -> -> ->. simpl. split; [lia|].
    split; [by apply set_get_same | apply has_get; by eexists].
  - injection Hr as -> -> ->. split; [done|].
    rewrite get_set, Qeq_bool_refl in Hcells. injection Hcells as <-.
    by rewrite set_set.
Qed.


Lemma cell_hit_proper (polygs : py.dict geom) (xelgrid yelgrid : list Q) (a b : Q) :
  a == b -> level_cells polygs xelgrid yelgrid a = level_cells polygs xelgrid yelgrid b.
Proof.
  intros Hab. unfold level_cells, cell_hit. by rewrite (get_proper a b _ Hab).
Qed.

Lemma scan_cells (polygs : py.dict geom) (xelgrid yelgrid : list Q) (zcoords : list Q)
    (elemlist : py.dict (list (nat * nat))) (tot : nat) :
  for_each (scan_level polygs xelgrid yelgrid) zcoords ([], 0%nat) = Ok (elemlist, tot) ->
  tot = length (concat (map (level_cells polygs xelgrid yelgrid) zcoords)) /\
  forall z, z ∈ zcoords ->
    py.get z elemlist = Ok (level_cells polygs xelgrid yelgrid z) /\
    level_cells polygs xelgrid yelgrid z <> [].
Proof.
  intros Hrun.
  set (cells := level_cells polygs xelgrid yelgrid).
  set (J := fun (pre : list Q) (acc : py.dict (list (nat * nat)) * nat) =>
    acc.2 = length (concat (map cells pre)) /\
    (forall z, z ∈ pre -> py.get z acc.1 = Ok (cells z) /\ cells z <> []) /\
    (forall k, py.has k acc.1 = true -> exists z, z ∈ pre /\ z == k)).
  assert (J zcoords (elemlist, tot)) as (Ht & Hz & _); [|done].
  eapply (for_each_partial _ J); [| |exact Hrun].
  { split; [done|]. split; [by intros z ?%elem_of_nil | done]. }
  intros pre z [e t] [e' t'] (Ht & Hpre & Hkeys) Hstep. simpl in *.
  apply scan_level_cells in Hstep as [Ht' He']. fold cells in Ht', He'.
  assert (cells z <> [] /\ e' = py.set z (cells z) e) as [Hne ->].
  { destruct (cells z) as [|c h] eqn:Hc; [|done].
    destruct He' as [_ (z0 & Hz0 & Heq)%Hkeys].
    destruct (Hpre z0 Hz0) as [_ Hne]. unfold cells in Hne, Hc.
    by rewrite (cell_hit_proper _ _ _ _ _ Heq) in Hne. }
  split; [|split].
  - rewrite map_app, concat_app, length_app. simpl. rewrite app_nil_r. lia.
  - intros z1 Hz1. cbn [fst snd]. rewrite get_set.
    destruct (Qeq_bool z z1) eqn:Hq.
    + apply Qeq_bool_eq in Hq. unfold cells in *.
      by rewrite <- (cell_hit_proper _ _ _ _ _ Hq).
    + apply elem_of_app in Hz1 as [Hz1|Hz1%list_elem_of_singleton]; [auto|].
      subst. by rewrite Qeq_bool_refl in Hq.
  - intros k. cbn [fst snd]. rewrite has_set. intros [Hk%Qeq_bool_eq|(z0 & Hz0 & Heq)%Hkeys]%orb_true_iff.
    + exists z. split; [|done]. apply elem_of_app. right. by apply list_elem_of_singleton.
    + exists z0. split; [|done]. apply elem_of_app. by left.
Qed.

End scan_cells.

Section mesh_rows.
Import Cloud2Polygons Polygons2FEM.

Lemma place_node_keeps (tot z : nat) (st st' : mstate) (c : Q * Q * Q) (id : nat) :
  place_node tot z st c = Ok (st', id) ->
  elID st' = elID st /\ elconnect st' = elconnect st /\ ignore st' = ignore st.
Proof.
  unfold place_node.
  destruct (negb (elID st =? 1)%nat).
  - destruct (the_array st) as [a| |]; simpl; try done.
    destruct (window z st a) as [small| |]; simpl; try done.
    destruct (length _ =? 1)%nat.
    + destruct (py.getitem (nexists _ _) 0) as [i| |]; simpl; try done.
      destruct (py.getitem small _) as [[r|]| |]; simpl; try done.
      by intros [= <- _].
    + destruct (match store a _ _ with Raise IndexError => _ | r => r end) as [a'| |];
        simpl; try done.
      by intros [= <- _].
  - destruct (nodeID st =? 1)%nat.
    + destruct (store _ _ _) as [a'| |]; simpl; try done. by intros [= <- _].
    + destruct (the_array st) as [a| |]; simpl; try done.
      destruct (store _ _ _) as [a'| |]; simpl; try done. by intros [= <- _].
Qed.

Lemma corners_run (tot : nat) (xngrid yngrid : list Q) (z : nat) (crntz elh : Q)
    (elem : nat * nat) (l : list nat) (st : mstate) (row : list nat)
    (r : mstate * list nat) :
  for_each (fun (r : mstate * list nat) node =>
      c ← corner xngrid yngrid elem crntz elh node;
      p ← place_node tot z r.1 c;
      Ok (p.1, r.2 ++ [p.2])) l (st, row) = Ok r ->
  elID r.1 = elID st /\ elconnect r.1 = elconnect st /\
  exists ids, r.2 = row ++ ids /\ length ids = length l.
Proof.
  intros Hrun.
  eapply (for_each_partial _ (fun pre (r : mstate * list nat) =>
    elID r.1 = elID st /\ elconnect r.1 = elconnect st /\
    exists ids, r.2 = row ++ ids /\ length ids = length pre)); [| |exact Hrun].
  - split; [done|]. split; [done|]. exists []. by rewrite app_nil_r.
  - intros pre node [st0 row0] r1 (He & Hc & ids & -> & Hl). simpl in *.
    destruct (corner _ _ _ _ _ _) as [c| |]; simpl; try done.
    destruct (place_node _ _ _ _) as [[st1 id]| |] eqn:Hp; simpl; try done.
    intros [= <-]. simpl. apply place_node_keeps in Hp as (He1 & Hc1 & _).
    split; [congruence|]. split; [congruence|].
    exists (ids ++ [id]). rewrite app_assoc, !length_app. simpl. split; [done | lia].
Qed.

Lemma numbered_app (n : nat) (rows rows' : list (list nat)) :
  numbered n rows -> numbered (n + length rows) rows' -> numbered n (rows ++ rows').
Proof.
  intros H1 H2 j row Hj. apply lookup_app_Some in Hj as [Hj|[Hlen Hj]]; [auto|].
  destruct (H2 _ _ Hj) as [? ->]. split; [done|]. do 2 f_equal. lia.
Qed.

Lemma element_step_rows (tot : nat) (xngrid yngrid : list Q) (z : nat) (crntz elh : Q)
    (st st' : mstate) (zel zel' : list (list nat)) (elem : nat * nat) :
  element_step tot xngrid yngrid z crntz elh (st, zel) elem = Ok (st', zel') ->
  elID st' = S (elID st) /\ elconnect st' = elconnect st /\
  exists row, zel' = zel ++ [row] /\ length row = 9%nat /\ head row = Some (elID st).
Proof.
  unfold element_step. cbn [fst snd].
  destruct (for_each _ (seq 0 8) _) as [r| |] eqn:Hrun; simpl; try done.
  apply corners_run in Hrun as (He & Hc & ids & Hr & Hl).
  intros [= <- <-]. simpl. split; [congruence|]. split; [done|].
  exists r.2. split; [done|]. rewrite Hr. simpl. split; [by rewrite Hl | done].
Qed.

Lemma mesh_level_rows (tot : nat) (xngrid yngrid zcoords : list Q)
    (elemlist : py.dict (list (nat * nat))) (st st' : mstate) (z : nat) :
  mesh_level tot xngrid yngrid zcoords elemlist st z = Ok st' ->
  elID st = S (length (elconnect st)) ->
  exists crntz elems new,
    zcoords !! z = Some crntz /\ py.get crntz elemlist = Ok elems /\
    elconnect st' = elconnect st ++ new /\ length new = length elems /\
    numbered (length (elconnect st)) new /\
    elID st' = S (length (elconnect st')).
Proof.
  unfold mesh_level. intros Hrun Hid.
  destruct (py.getitem zcoords _) as [crntz| |] eqn:Hz; simpl in Hrun; try done.
  destruct (element_height zcoords z) as [elh| |]; simpl in Hrun; try done.
  destruct (py.get crntz elemlist) as [elems| |] eqn:Hel; simpl in Hrun; try done.
  destruct (for_each _ elems _) as [r| |] eqn:Hloop; simpl in Hrun; try done.
  injection Hrun as <-. simpl.
  assert (elID r.1 = S (length (elconnect st) + length r.2) /\
          elconnect r.1 = elconnect st /\ length r.2 = length elems /\
          numbered (length (elconnect st)) r.2) as (He & Hc & Hl & Hn).
  { eapply (for_each_partial _ (fun pre (r : mstate * list (list nat)) =>
      elID r.1 = S (length (elconnect st) + length r.2) /\
      elconnect r.1 = elconnect st /\ length r.2 = length pre /\
      numbered (length (elconnect st)) r.2)); [| |exact Hloop].
    - simpl. split; [lia|]. split; [done|]. split; [done|]. by intros j row ?.
    - intros pre elem [st0 zel] [st1 zel1] (He & Hc & Hl & Hn) Hstep. simpl in *.
      apply element_step_rows in Hstep as (He1 & Hc1 & row & -> & Hrow & Hhead).
      rewrite !length_app. simpl. split; [lia|]. split; [congruence|]. split; [lia|].
      apply numbered_app; [done|].
      intros [|j] row' Hj; [|done]. injection Hj as <-.
      split; [done|]. rewrite Hhead, He. f_equal. lia. }
  exists crntz, elems, r.2. apply getitem_lookup in Hz.
  rewrite Hc, length_app. do 5 (split; [done|]). exact He.
Qed.

End mesh_rows.

Section mesh_tables.
Import Cloud2Polygons Polygons2FEM.
Context `{Shapely}.

Lemma first_element_rows (tot : nat) (xngrid yngrid : list Q) (z : nat) (crntz elh : Q)
    (elem : nat * nat) (r : mstate * list nat) :
  for_each (fun (r : mstate * list nat) node =>
      c ← corner xngrid yngrid elem crntz elh node;
      p ← place_node tot z r.1 c;
      Ok (p.1, r.2 ++ [p.2])) (seq 0 8) (init, [elID init]) = Ok r ->
  (16 <= tot)%nat.
Proof.
  intros Hrun.
  assert (tot = 2 * (tot / 2) + tot mod 2)%nat as Htot by (apply Nat.div_mod_eq).
  assert (length (spare tot) = (tot / 2)%nat) as Hspare by apply length_replicate.
  set (half := (tot / 2)%nat) in *. clearbody half.
  assert (length (seq 0 8) <= half)%nat as Hlen.
  { eapply (for_each_partial _ (fun pre (r : mstate * list nat) =>
      elID r.1 = 1%nat /\ nodeID r.1 = S (length pre) /\
      (length pre <= half)%nat /\
      (pre <> [] -> exists a, nodelist r.1 = Some a /\ length a = half)));
      [| |exact Hrun].
    - cbn. split; [done|]. split; [done|]. split; [lia | done].
    - intros pre node [st row] r1 (He & Hn & Hle & Ha). cbn [fst snd] in *.
      destruct (corner _ _ _ _ _ _) as [c| |]; [rewrite bind_Ok | done | done].
      unfold place_node. rewrite He, Hn. simpl negb. cbv iota.
      destruct pre as [|n0 pre].
      + cbn [length Nat.eqb]. unfold store. rewrite Hspare.
        destruct (Nat.ltb_spec (1 - 1) half) as [Hlt|Hge]; [|done].
        rewrite !bind_Ok. intros [= <-]. cbn [fst snd allocated elID nodeID nodelist length].
        rewrite Hn. cbn [length app].
        split; [done|]. split; [done|]. split; [lia|].
        intros _. eexists. split; [done|]. by rewrite length_insert.
      + destruct (Ha ltac:(done)) as (a & Hsome & Hla).
        cbn [length Nat.eqb]. unfold the_array. rewrite Hsome, bind_Ok.
        unfold store. rewrite Hla.
        destruct (Nat.ltb_spec (S (S (length pre)) - 1) half) as [Hlt|Hge]; [|done].
        rewrite !bind_Ok. intros [= <-]. cbn [fst snd allocated elID nodeID nodelist].
        rewrite Hn, length_app. cbn [length].
        split; [done|]. split; [f_equal; lia|]. split; [lia|].
        intros _. eexists. split; [done|]. by rewrite length_insert. }
  cbn in Hlen. lia.
Qed.

Lemma mesh_levels_rows (tot : nat) (xngrid yngrid zcoords : list Q)
    (elemlist : py.dict (list (nat * nat))) (cellsf : Q -> list (nat * nat))
    (st : mstate) :
  (forall z, z ∈ zcoords -> py.get z elemlist = Ok (cellsf z)) ->
  for_each (mesh_level tot xngrid yngrid zcoords elemlist) (seq 0 (length zcoords)) init
  = Ok st ->
  numbered 0 (elconnect st) /\
  length (elconnect st) = length (concat (map cellsf zcoords)).
Proof.
  intros Hcells Hrun.
  assert (elID st = S (length (elconnect st)) /\ numbered 0 (elconnect st) /\
          length (elconnect st)
          = length (concat (map cellsf (take (length (seq 0 (length zcoords))) zcoords))))
    as (_ & Hn & Hl).
  { eapply (for_each_partial_pos _ (fun pre st =>
      elID st = S (length (elconnect st)) /\ numbered 0 (elconnect st) /\
      length (elconnect st) = length (concat (map cellsf (take (length pre) zcoords)))));
      [| |exact Hrun].
    - simpl. split; [done|]. split; [by intros j row ?|]. by destruct zcoords.
    - intros pre k post st0 st1 Hseq (He & Hn & Hl) Hstep.
      apply seq_split_length in Hseq as ->.
      apply mesh_level_rows in Hstep as (crntz & elems & new & Hz & Hel & -> & Hnew & Hnum & He1);
        [|done].
      split; [done|]. split; [by apply numbered_app|].
      rewrite (length_app pre). cbn [length]. rewrite Nat.add_1_r.
      rewrite (take_S_r _ _ _ Hz), map_app, concat_app, !length_app. simpl.
      rewrite app_nil_r.
      assert (py.get crntz elemlist = Ok (cellsf crntz)) as Hc.
      { apply Hcells. by eapply list_elem_of_lookup_2. }
      rewrite Hc in Hel. injection Hel as <-. lia. }
  split; [done|]. by rewrite length_seq, firstn_all in Hl.
Qed.

End mesh_tables.

Section mesh_theorems.
Import Cloud2Polygons Polygons2FEM.
Context `{Shapely}.

Lemma elem_of_grid_cells (xelgrid yelgrid : list Q) (x y : nat) :
  (x, y) ∈ grid_cells xelgrid yelgrid <->
  (x < length xelgrid)%nat /\ (y < length yelgrid)%nat.
Proof.
  unfold grid_cells. rewrite list_elem_of_bind. split.
  - intros (x' & (y' & [= -> ->] & Hy)%list_elem_of_fmap & Hx).
    apply elem_of_seq in Hx, Hy. lia.
  - intros [Hx Hy]. exists x. split.
    + apply list_elem_of_fmap. exists y. split; [done|]. apply elem_of_seq. lia.
    + apply elem_of_seq. lia.
Qed.

Lemma NoDup_grid_cells (xelgrid yelgrid : list Q) : NoDup (grid_cells xelgrid yelgrid).
Proof.
  unfold grid_cells. apply NoDup_bind.
  - intros x1 x2 c _ _ (y1 & -> & _)%list_elem_of_fmap (y2 & [= -> _] & _)%list_elem_of_fmap.
    done.
  - intros x _. apply NoDup_fmap_2; [|apply NoDup_seq]. by intros y1 y2 [= ->].
  - apply NoDup_seq.
Qed.

Lemma elem_of_level_cells (polygs : py.dict geom) (xelgrid yelgrid : list Q) (z : Q)
    (x y : nat) :
  (x, y) ∈ level_cells polygs xelgrid yelgrid z <->
  exists g xe ye, py.get z polygs = Ok g /\ xelgrid !! x = Some xe /\
    yelgrid !! y = Some ye /\ contains g (xe, ye) = true.
Proof.
  unfold level_cells. rewrite list_elem_of_In, filter_In, <- list_elem_of_In.
  rewrite elem_of_grid_cells. unfold cell_hit. simpl. split.
  - intros [_ Hhit]. destruct (py.get z polygs) as [g| |]; try done.
    destruct (xelgrid !! x) as [xe|]; [|done].
    destruct (yelgrid !! y) as [ye|]; [|done]. by exists g, xe, ye.
  - intros (g & xe & ye & -> & Hx & Hy & Hc). rewrite Hx, Hy.
    split; [|done]. split; by eapply lookup_lt_Some.
Qed.

Lemma elgrid_lookup (ngrid : list Q) (eldim : Q) (i : nat) (e : Q) :
  map (fun v => v + eldim / 2) (take (length ngrid - 1) ngrid) !! i = Some e <->
  exists n, ngrid !! i = Some n /\ is_Some (ngrid !! S i) /\ e = n + eldim / 2.
Proof.
  rewrite list_lookup_fmap, fmap_Some. split.
  - intros (n & Hn & ->). apply lookup_take_Some in Hn as [Hn Hi].
    exists n. split; [done|]. split; [|done]. apply lookup_lt_is_Some. lia.
  - intros (n & Hn & Hs%lookup_lt_is_Some & ->). exists n. split; [|done].
    apply lookup_take_Some. split; [done | lia].
Qed.

(** X17.  When [make_mesh] returns, the cells it stores for a level are
    exactly the cells of the grid whose centre the MultiPolygon of the
    level contains, each once, and there is at least one. *)
Theorem make_mesh_cells (xeldim yeldim xmin ymin xmax ymax : Q)
    (zcoords : list Q) (polygs : py.dict geom)
    (cells : py.dict (list (nat * nat))) (nodes : list node)
    (elements : list (list nat)) :
  make_mesh xeldim yeldim xmin ymin xmax ymax zcoords polygs
  = Ok (cells, nodes, elements) ->
  exists xngrid yngrid,
    np.arange (xmin - xeldim) (xmax + 2 * xeldim) xeldim = Ok xngrid /\
    np.arange (ymin - yeldim) (ymax + 2 * yeldim) yeldim = Ok yngrid /\
    forall z, z ∈ zcoords ->
      exists g l, py.get z polygs = Ok g /\ py.get z cells = Ok l /\
        l <> [] /\ NoDup l /\
        forall x y, (x, y) ∈ l <->
          exists xn yn, xngrid !! x = Some xn /\ is_Some (xngrid !! S x) /\
            yngrid !! y = Some yn /\ is_Some (yngrid !! S y) /\
            contains g (xn + xeldim / 2, yn + yeldim / 2) = true.
Proof.
  unfold make_mesh.
  destruct (np.arange _ _ xeldim) as [xngrid| |]; simpl; try done.
  destruct (np.arange _ _ yeldim) as [yngrid| |]; simpl; try done.
  set (xelgrid := map _ (take _ xngrid)). set (yelgrid := map _ (take _ yngrid)).
  destruct (for_each (scan_level _ _ _) zcoords _) as [[elemlist tot]| |] eqn:Hscan;
    simpl; try done.
  destruct (for_each (mesh_level _ _ _ _ _) _ init) as [st| |]; simpl; try done.
  destruct (the_array st) as [a| |]; simpl; try done.
  intros [= <- _ _]. exists xngrid, yngrid. split; [done|]. split; [done|].
  apply scan_cells in Hscan as [_ Hcells].
  intros z Hz. destruct (Hcells z Hz) as [Hget Hne].
  destruct (level_cells polygs xelgrid yelgrid z) as [|[x0 y0] h] eqn:Hh; [done|].
  assert ((x0, y0) ∈ level_cells polygs xelgrid yelgrid z) as Hin.
  { rewrite Hh. by left. }
  apply elem_of_level_cells in Hin as (g & _ & _ & Hg & _).
  exists g, ((x0, y0) :: h). split; [done|]. split; [done|]. split; [done|].
  rewrite <- Hh. split.
  - unfold level_cells.
    apply NoDup_ListNoDup, List.NoDup_filter, NoDup_ListNoDup, NoDup_grid_cells.
  - intros x y. rewrite elem_of_level_cells. split.
    + intros (g' & xe & ye & Hg' & (xn & Hxn & Hxs & ->)%elgrid_lookup
              & (yn & Hyn & Hys & ->)%elgrid_lookup & Hc).
      assert (g' = g) as -> by congruence. by exists xn, yn.
    + intros (xn & yn & Hxn & Hxs & Hyn & Hys & Hc).
      exists g, (xn + xeldim / 2), (yn + yeldim / 2).
      split; [done|]. split; [apply elgrid_lookup; by exists xn|].
      split; [apply elgrid_lookup; by exists yn | done].
Qed.

(** X18.  The connectivity table has one row per stored cell; every row
    has nine entries and starts with the number of the row, counted from 1. *)
Theorem make_mesh_element_rows (xeldim yeldim xmin ymin xmax ymax : Q)
    (zcoords : list Q) (polygs : py.dict geom)
    (cells : py.dict (list (nat * nat))) (nodes : list node)
    (elements : list (list nat)) :
  make_mesh xeldim yeldim xmin ymin xmax ymax zcoords polygs
  = Ok (cells, nodes, elements) ->
  (forall i row, elements !! i = Some row ->
     length row = 9%nat /\ head row = Some (S i)) /\
  exists ls, Forall2 (fun z l => py.get z cells = Ok l) zcoords ls /\
    length elements = length (concat ls).
Proof.
  unfold make_mesh.
  destruct (np.arange _ _ xeldim) as [xngrid| |]; simpl; try done.
  destruct (np.arange _ _ yeldim) as [yngrid| |]; simpl; try done.
  set (xelgrid := map _ (take _ xngrid)). set (yelgrid := map _ (take _ yngrid)).
  destruct (for_each (scan_level _ _ _) zcoords _) as [[elemlist tot]| |] eqn:Hscan;
    simpl; try done.
  destruct (for_each (mesh_level _ _ _ _ _) _ init) as [st| |] eqn:Hrun; simpl; try done.
  destruct (the_array st) as [a| |]; simpl; try done.
  intros [= <- _ <-].
  apply scan_cells in Hscan as [_ Hcells].
  apply (mesh_levels_rows _ _ _ _ _ (level_cells polygs xelgrid yelgrid)) in Hrun
    as [Hnum Hlen]; [|intros z Hz; by apply Hcells].
  split; [exact Hnum|].
  exists (map (level_cells polygs xelgrid yelgrid) zcoords). split; [|done].
  apply Forall2_fmap_r, Forall_Forall2_diag, List.Forall_forall.
  intros z Hz%list_elem_of_In. by apply Hcells.
Qed.

(** X19.  [make_mesh] returns no mesh of fewer than sixteen elements: the
    eight nodes of the first element need eight rows in the table, which
    has [int(tot_elements * 0.5)] rows for each of four coordinates. *)
Theorem make_mesh_sixteen_elements (xeldim yeldim xmin ymin xmax ymax : Q)
    (zcoords : list Q) (polygs : py.dict geom)
    (cells : py.dict (list (nat * nat))) (nodes : list node)
    (elements : list (list nat)) :
  make_mesh xeldim yeldim xmin ymin xmax ymax zcoords polygs
  = Ok (cells, nodes, elements) ->
  (16 <= length elements)%nat.
Proof.
  unfold make_mesh.
  destruct (np.arange _ _ xeldim) as [xngrid| |]; simpl; try done.
  destruct (np.arange _ _ yeldim) as [yngrid| |]; simpl; try done.
  set (xelgrid := map _ (take _ xngrid)). set (yelgrid := map _ (take _ yngrid)).
  destruct (for_each (scan_level _ _ _) zcoords _) as [[elemlist tot]| |] eqn:Hscan;
    simpl; try done.
  destruct (for_each (mesh_level _ _ _ _ _) _ init) as [st| |] eqn:Hrun; simpl; try done.
  destruct (the_array st) as [a| |] eqn:Ha; simpl; try done.
  intros [= _ _ <-].
  apply scan_cells in Hscan as [Htot Hcells].
  pose proof (mesh_levels_rows _ _ _ _ _ (level_cells polygs xelgrid yelgrid) _
                (fun z Hz => proj1 (Hcells z Hz)) Hrun) as [_ Hlen].
  rewrite Hlen, <- Htot.
  destruct zcoords as [|z0 zs]; [by injection Hrun as <-|].
  destruct (Hcells z0 ltac:(by left)) as [Hget Hne].
  cbn [length seq for_each] in Hrun.
  destruct (mesh_level _ _ _ _ _ init 0) as [st1| |] eqn:Hlevel; try done.
  clear Hrun. unfold mesh_level in Hlevel. cbn [py.getitem] in Hlevel.
  change (py.getitem (z0 :: zs) (Z.of_nat 0)) with (Ok z0) in Hlevel.
  rewrite bind_Ok in Hlevel.
  destruct (element_height _ 0) as [elh| |]; simpl in Hlevel; try done.
  rewrite Hget in Hlevel. simpl in Hlevel.
  destruct (level_cells polygs xelgrid yelgrid z0) as [|elem rest]; [done|].
  cbn [for_each] in Hlevel.
  destruct (element_step _ _ _ _ _ _ _ elem) as [r1| |] eqn:Hstep; try done.
  unfold element_step in Hstep. cbn [fst snd] in Hstep.
  destruct (for_each _ (seq 0 8) _) as [r| |] eqn:Hcorners; try done.
  by apply first_element_rows in Hcorners.
Qed.

End mesh_theorems.

Section mesh_witnesses.
Import Cloud2Polygons Polygons2FEM Rings.

Lemma square_mesh :
  exists cells nodes elements,
    make_mesh 1 1 0 0 4 4 [0] [(0, [square])] = Ok (cells, nodes, elements).
Proof. eexists _, _, _. vm_compute. reflexivity. Defined.

Lemma make_mesh_cells_witness :
  exists g l, py.get 0 [(0, [square])] = Ok g /\ l <> [] /\ NoDup l /\
    ((1%nat, 1%nat) ∈ l <-> contains g (0 + 1 / 2, 0 + 1 / 2) = true).
Proof.
  destruct square_mesh as (cells & nodes & elements & Hrun).
  destruct (make_mesh_cells _ _ _ _ _ _ _ _ _ _ _ Hrun)
    as (xngrid & yngrid & Hx & Hy & Hcells).
  destruct (Hcells 0) as (g & l & Hg & _ & Hne & Hnd & Hin); [by left|].
  exists g, l. split; [exact Hg|]. split; [exact Hne|]. split; [exact Hnd|].
  injection Hx as <-. injection Hy as <-. rewrite Hin. split.
  - intros (xn & yn & [= <-] & _ & [= <-] & _ & Hc). exact Hc.
  - intros Hc. exists 0, 0. split; [reflexivity|]. split; [by eexists|].
    split; [reflexivity|]. split; [by eexists | exact Hc].
Defined.

Lemma make_mesh_element_rows_witness :
  exists cells nodes elements,
    make_mesh 1 1 0 0 4 4 [0] [(0, [square])] = Ok (cells, nodes, elements) /\
    (forall i row, elements !! i = Some row ->
       length row = 9%nat /\ head row = Some (S i)) /\
    exists ls, Forall2 (fun z l => py.get z cells = Ok l) [0] ls /\
      length elements = length (concat ls).
Proof.
  destruct square_mesh as (cells & nodes & elements & Hrun).
  exists cells, nodes, elements. split; [exact Hrun|].
  exact (make_mesh_element_rows _ _ _ _ _ _ _ _ _ _ _ Hrun).
Defined.

Lemma make_mesh_sixteen_elements_witness :
  exists cells nodes elements,
    make_mesh 1 1 0 0 4 4 [0] [(0, [square])] = Ok (cells, nodes, elements) /\
    (16 <= length elements)%nat.
Proof.
  destruct square_mesh as (cells & nodes & elements & Hrun).
  exists cells, nodes, elements. split; [exact Hrun|].
  exact (make_mesh_sixteen_elements _ _ _ _ _ _ _ _ _ _ _ Hrun).
Defined.

End mesh_witnesses.

Section pipeline.
Import Cloud2Polygons Polygons2FEM Rings.


End pipeline.

Section pipeline_general.
Import Cloud2Polygons Polygons2FEM.
Context `{Shapely}.

Lemma make_polygons_dropped_level (fuel : nat) (minwthick tol0 : Q)
    (zcoords : list Q) (cleanpolys : py.dict (list (list xy))) (z : Q) :
  (21 <= fuel)%nat -> 0 <= minwthick -> 0 <= tol0 ->
  (forall z polylines, py.get z cleanpolys = Ok polylines ->
     Forall (fun pl => is_Some (Polygon pl)) polylines) ->
  valid_polygons cleanpolys z = [] ->
  exists polygs invalid,
    make_polygons fuel minwthick zcoords cleanpolys tol0 = Ok (polygs, invalid) /\
    py.has z polygs = false.
Proof.
  intros Hf Hm Ht Hconv Hv. eexists _, _.
  split; [by apply make_polygons_run|].
  assert (forall d0 l, py.get z (fold_left (add_level cleanpolys) l d0) = py.get z d0) as Hget.
  { intros d0 l. rewrite get_fold_add. unfold multipolygon. rewrite Hv.
    by destruct (existsb _ _). }
  destruct (py.has z _) eqn:Hhas; [|done].
  apply has_get in Hhas as [v Hv']. by rewrite Hget in Hv'.
Qed.


End pipeline_general.

Section pipeline_witness.
Import Cloud2Polygons Polygons2FEM Rings.


End pipeline_witness.

(** ** The node grid *)

Section grid.



End grid.

(** ** Mesh export *)

Section export_facts.
Import Polygons2FEM.
Local Open Scope string_scope.

Lemma string_of_uint_digits (d : uint) : all_digits (NilEmpty.string_of_uint d) = true.
Proof. induction d; simpl; auto. Qed.

Lemma str_int_inj (n m : nat) : py.str_int n = py.str_int m -> n = m.
Proof.
  unfold py.str_int. intros Heq. apply Unsigned.to_uint_inj.
  assert (Some (Nat.to_uint n) = Some (Nat.to_uint m)) as Hs; [|by injection Hs].
  by rewrite <- !NilEmpty.usu, Heq.
Qed.

Lemma digits_sep_inj (s1 s2 r1 r2 : string) (c : ascii) :
  all_digits s1 = true -> all_digits s2 = true -> is_digit c = false ->
  s1 ++ String c r1 = s2 ++ String c r2 -> s1 = s2 /\ r1 = r2.
Proof.
  intros H1 H2 Hc. revert s2 H2.
  induction s1 as [|a s1 IH]; intros [|b s2] H2 Heq; simpl in *.
  - by injection Heq.
  - injection Heq as -> _. apply andb_true_iff in H2 as [? _]. congruence.
  - injection Heq as <- _. apply andb_true_iff in H1 as [? _]. congruence.
  - injection Heq as -> Heq. apply andb_true_iff in H1 as [_ H1].
    apply andb_true_iff in H2 as [_ H2].
    destruct (IH H1 s2 H2 Heq) as [-> ->]. done.
Qed.

Lemma str_sep_inj (n m : nat) (r1 r2 : string) (c : ascii) :
  is_digit c = false ->
  py.str_int n ++ String c r1 = py.str_int m ++ String c r2 -> n = m /\ r1 = r2.
Proof.
  intros Hc Heq.
  destruct (digits_sep_inj _ _ _ _ _ (string_of_uint_digits _) (string_of_uint_digits _)
              Hc Heq) as [Hs ->].
  split; [by apply str_int_inj | done].
Qed.

Lemma element_line_Ok (elem : list nat) (line : string) :
  element_line elem = Ok line <->
  exists e0 e1 e2 e3 e4 e5 e6 e7 e8 rest,
    elem = e0 :: e1 :: e2 :: e3 :: e4 :: e5 :: e6 :: e7 :: e8 :: rest /\
    line = py.str_int e0 ++ ", " ++ py.str_int e1 ++ ", " ++ py.str_int e2 ++ ", " ++ py.str_int e3
           ++ ", " ++ py.str_int e4 ++ ", " ++ py.str_int e5 ++ ", " ++ py.str_int e6 ++ ", "
           ++ py.str_int e7 ++ ", " ++ py.str_int e8 ++ py.nl.
Proof.
  split.
  - destruct elem as [|e0 [|e1 [|e2 [|e3 [|e4 [|e5 [|e6 [|e7 [|e8 rest]]]]]]]]];
      try (by intros [=]).
    intros [= <-]. by exists e0, e1, e2, e3, e4, e5, e6, e7, e8, rest.
  - intros (e0 & e1 & e2 & e3 & e4 & e5 & e6 & e7 & e8 & rest & -> & ->). done.
Qed.

(** X22.  An element line determines the element: two rows written as the
    same line have the same nine leading entries. *)
Theorem element_line_inj (elem elem' : list nat) (line : string) :
  element_line elem = Ok line -> element_line elem' = Ok line ->
  take 9 elem = take 9 elem'.
Proof.
  intros (e0 & e1 & e2 & e3 & e4 & e5 & e6 & e7 & e8 & rest & -> & ->)%element_line_Ok.
  intros (f0 & f1 & f2 & f3 & f4 & f5 & f6 & f7 & f8 & rest' & -> & Heq)%element_line_Ok.
  simpl take. symmetry in Heq.
  do 8 (apply str_sep_inj in Heq as [<- Heq]; [|done];
        simpl in Heq; injection Heq as Heq).
  apply str_sep_inj in Heq as [<- _]; done.
Qed.

Lemma element_line_inj_witness :
  take 9 [1; 2; 3; 4; 5; 6; 7; 8; 9]%nat = take 9 [1; 2; 3; 4; 5; 6; 7; 8; 9; 10]%nat.
Proof.
  apply (element_line_inj [1; 2; 3; 4; 5; 6; 7; 8; 9]%nat
           [1; 2; 3; 4; 5; 6; 7; 8; 9; 10]%nat
           ("1, 2, 3, 4, 5, 6, 7, 8, 9" ++ py.nl)); reflexivity.
Defined.

Lemma append_empty_r (s : string) : s ++ "" = s.
Proof. induction s as [|c s IH]; simpl; [done | by rewrite IH]. Qed.

Lemma append_assoc (s1 s2 s3 : string) : (s1 ++ s2) ++ s3 = s1 ++ s2 ++ s3.
Proof. induction s1 as [|c s1 IH]; simpl; [done | by rewrite IH]. Qed.

Lemma write_elements_Ok (f : string) (elconnect : list (list nat)) :
  Forall (fun row => (9 <= length row)%nat) elconnect ->
  exists lines,
    Forall2 (fun row line => element_line row = Ok line) elconnect lines /\
    write_elements f elconnect = (f ++ String.concat "" lines, Ok tt).
Proof.
  intros Hall. revert f. induction Hall as [|row rows Hrow _ IH]; intros f.
  - exists []. split; [constructor|]. simpl. by rewrite append_empty_r.
  - assert (exists line, element_line row = Ok line) as [line Hline].
    { destruct row as [|e0 [|e1 [|e2 [|e3 [|e4 [|e5 [|e6 [|e7 [|e8 rest]]]]]]]]];
        simpl in Hrow; try lia. by eexists. }
    destruct (IH (f ++ line)) as (lines & Hlines & Hw).
    exists (line :: lines). split; [by constructor|].
    cbn [write_elements]. rewrite Hline, Hw. f_equal.
    cbn [String.concat]. destruct lines as [|l ls].
    + by rewrite append_empty_r.
    + by rewrite append_assoc.
Qed.

End export_facts.

Section export_mesh_theorems.
Import Cloud2Polygons Polygons2FEM.
Context `{Shapely}.

(** X23.  Every mesh that [make_mesh] returns can be exported:
    [export_mesh] writes the heading, one line per node, one line per
    element and the closing block, and raises nothing. *)
Theorem export_mesh_after_make_mesh (xeldim yeldim xmin ymin xmax ymax : Q)
    (zcoords : list Q) (polygs : py.dict geom)
    (cells : py.dict (list (nat * nat))) (nodes : list node)
    (elements : list (list nat)) :
  make_mesh xeldim yeldim xmin ymin xmax ymax zcoords polygs
  = Ok (cells, nodes, elements) ->
  exists lines,
    Forall2 (fun row line => element_line row = Ok line) elements lines /\
    export_mesh nodes elements
    = ((heading ++ String.concat "" (map node_line nodes) ++ element_heading
        ++ String.concat "" lines ++ ending)%string, Ok tt).
Proof.
  intros Hrun.
  assert (Forall (fun row => (9 <= length row)%nat) elements) as Hrows.
  { revert Hrun. unfold make_mesh.
    destruct (np.arange _ _ xeldim) as [xngrid| |]; simpl; try done.
    destruct (np.arange _ _ yeldim) as [yngrid| |]; simpl; try done.
    set (xelgrid := map _ (take _ xngrid)). set (yelgrid := map _ (take _ yngrid)).
    destruct (for_each (scan_level _ _ _) zcoords _) as [[elemlist tot]| |] eqn:Hscan;
      simpl; try done.
    destruct (for_each (mesh_level _ _ _ _ _) _ init) as [st| |] eqn:Hloop; simpl; try done.
    destruct (the_array st) as [a| |]; simpl; try done.
    intros [= _ _ <-].
    apply scan_cells in Hscan as [_ Hcells].
    apply (mesh_levels_rows _ _ _ _ _ (level_cells polygs xelgrid yelgrid)) in Hloop
      as [Hnum _]; [|intros z Hz; by apply Hcells].
    apply List.Forall_forall. intros row Hin%list_elem_of_In.
    apply list_elem_of_lookup in Hin as [i Hi].
    destruct (Hnum i row Hi) as [-> _]. done. }
  unfold export_mesh.
  destruct (write_elements_Ok
              (heading ++ String.concat "" (map node_line nodes) ++ element_heading)%string
              elements Hrows) as (lines & Hlines & ->).
  exists lines. split; [done|]. f_equal.
  rewrite <- !append_assoc. done.
Qed.

End export_mesh_theorems.

Section export_mesh_witness.
Import Cloud2Polygons Polygons2FEM Rings.

Lemma export_mesh_after_make_mesh_witness :
  exists cells nodes elements text,
    make_mesh 1 1 0 0 4 4 [0] [(0, [square])] = Ok (cells, nodes, elements) /\
    export_mesh nodes elements = (text, Ok tt).
Proof.
  destruct square_mesh as (cells & nodes & elements & Hrun).
  destruct (export_mesh_after_make_mesh _ _ _ _ _ _ _ _ _ _ _ Hrun) as (lines & _ & Hexp).
  exists cells, nodes, elements. eexists. exact (conj Hrun Hexp).
Defined.

End export_mesh_witness.

(** ** DXF export and the copy dialog *)

Section dxf_facts.
Import Cloud2Polygons.
Context `{Shapely} {dxf : Ezdxf geom}.

Lemma export_dxf_loop (zcoords : list Q) (polygs : py.dict geom) (msp : list entity) :
  match for_each (fun msp z => g ← py.get z polygs; Ok (msp ++ level_entities z g))
          zcoords msp with
  | Ok msp' =>
      exists gs,
        Forall2 (fun z g => py.get z polygs = Ok g) zcoords gs /\
        msp' = msp ++ concat (zip_with level_entities zcoords gs)
  | Raise e => e = KeyError /\ exists z, z ∈ zcoords /\ py.has z polygs = false
  | OutOfFuel => False
  end.
Proof.
  revert msp. induction zcoords as [|z zs IH]; intros msp; cbn [for_each].
  { exists []. split; [by apply Forall2_nil | simpl; by rewrite app_nil_r]. }
  destruct (py.get z polygs) as [g|e|] eqn:Hg.
  - rewrite !bind_Ok. specialize (IH (msp ++ level_entities z g)).
    destruct (for_each _ zs _) as [msp'|e|]; [| |done].
    + destruct IH as (gs & Hgs & ->). exists (g :: gs).
      split; [by constructor|]. cbn [zip_with concat]. by rewrite app_assoc.
    + destruct IH as (-> & z' & Hz' & Hhas). split; [done|].
      exists z'. split; [by apply elem_of_cons; right | done].
  - destruct (py.has z polygs) eqn:Hhas.
    { apply has_get in Hhas as [v Hv]. congruence. }
    rewrite (get_raises _ _ Hhas) in Hg. injection Hg as <-.
    split; [done|]. exists z. split; [by apply elem_of_cons; left | done].
  - destruct (py.has z polygs) eqn:Hhas.
    { apply has_get in Hhas as [v Hv]. congruence. }
    rewrite (get_raises _ _ Hhas) in Hg. done.
Qed.

(** X24.  [export_dxf] either saves the entities of every level of
    [zcoords], in the order of the levels and each moved to its
    elevation, or raises [KeyError] at a level that has no MultiPolygon
    and saves nothing. *)
Theorem export_dxf_levels (zcoords : list Q) (polygs : py.dict geom) :
  match export_dxf zcoords polygs with
  | Ok msp =>
      exists gs,
        Forall2 (fun z g => py.get z polygs = Ok g) zcoords gs /\
        msp = concat (zip_with level_entities zcoords gs)
  | Raise e => e = KeyError /\ exists z, z ∈ zcoords /\ py.has z polygs = false
  | OutOfFuel => False
  end.
Proof. exact (export_dxf_loop zcoords polygs []). Qed.


End dxf_facts.

Section copy_facts.
Import Cloud2Polygons main_Cloud2FEM.

Lemma copy_loop (zcoords : list Q) (tocopy : list (list xy)) (checked : list bool)
    (n : nat) (cp : py.dict (list (list xy))) :
  (n <= length checked)%nat -> (length checked <= length zcoords)%nat ->
  exists cp',
    for_each (fun cp i =>
        if default false (checked !! i)
        then z ← py.getitem zcoords (Z.of_nat i); Ok (py.set z tocopy cp)
        else Ok cp) (seq 0 n) cp = Ok cp' /\
    forall z,
      py.get z cp'
      = if existsb (fun i => default false (checked !! i)
                             && match zcoords !! i with
                                | Some zi => Qeq_bool zi z
                                | None => false
                                end) (seq 0 n)
        then Ok tocopy else py.get z cp.
Proof.
  intros Hn Hlen. induction n as [|n IH].
  { exists cp. done. }
  destruct IH as (cp1 & Hrun & Hget); [lia|].
  rewrite seq_S, for_each_app, Hrun, bind_Ok. cbn [for_each Nat.add].
  destruct (lookup_lt_is_Some_2 zcoords n) as [zn Hzn]; [lia|].
  assert (py.getitem zcoords (Z.of_nat n) = Ok zn) as Hitem.
  { by apply getitem_lookup. }
  destruct (default false (checked !! n)) eqn:Hc.
  - rewrite Hitem, !bind_Ok. eexists. split; [done|]. intros z.
    rewrite get_set, existsb_app, Hget. cbn [existsb]. rewrite Hc, Hzn.
    destruct (Qeq_bool zn z); cbn [andb orb]; [by rewrite orb_true_r|].
    by rewrite orb_false_r.
  - rewrite bind_Ok. exists cp1. split; [done|]. intros z.
    rewrite existsb_app, Hget. cbn [existsb]. rewrite Hc. cbn [andb orb].
    by rewrite orb_false_r.
Qed.

(** X26.  [copy_ok] gives every checked level the polylines of the chosen
    level and leaves the other levels as they were; when the chosen level
    has no polylines it raises [KeyError] and copies nothing. *)
Theorem copy_ok_levels (zcoords : list Q) (cleanpolys : py.dict (list (list xy)))
    (current : nat) (checked : list bool) (zc : Q) :
  length checked = length zcoords -> zcoords !! current = Some zc ->
  match py.get zc cleanpolys with
  | Ok tocopy =>
      exists cp',
        copy_ok zcoords cleanpolys (Z.of_nat current) checked = Ok cp' /\
        forall z, py.get z cp'
                  = if pasted zcoords checked z then Ok tocopy else py.get z cleanpolys
  | _ => copy_ok zcoords cleanpolys (Z.of_nat current) checked = Raise KeyError
  end.
Proof.
  intros Hlen Hcur. unfold copy_ok.
  assert (py.getitem zcoords (Z.of_nat current) = Ok zc) as ->.
  { by apply getitem_lookup. }
  rewrite bind_Ok.
  destruct (py.get zc cleanpolys) as [tocopy|e|] eqn:Hget.
  - rewrite bind_Ok.
    destruct (copy_loop zcoords tocopy checked (length checked) cleanpolys)
      as (cp' & Hrun & Hcp); [lia | lia|].
    by exists cp'.
  - destruct (py.has zc cleanpolys) eqn:Hhas.
    { apply has_get in Hhas as [v Hv]. congruence. }
    rewrite (get_raises _ _ Hhas) in Hget. by injection Hget as <-.
  - destruct (py.has zc cleanpolys) eqn:Hhas.
    { apply has_get in Hhas as [v Hv]. congruence. }
    rewrite (get_raises _ _ Hhas) in Hget. done.
Qed.

End copy_facts.

Section dxf_witnesses.
Import Cloud2Polygons main_Cloud2FEM Rings.


Lemma copy_ok_levels_witness :
  exists cp',
    copy_ok [0; 1] [(0, [square])] 0 [false; true] = Ok cp' /\
    forall z, py.get z cp'
              = if pasted [0; 1] [false; true] z then Ok [square]
                else py.get z [(0, [square])].
Proof.
  exact (copy_ok_levels [0; 1] [(0, [square])] 0 [false; true] 0 eq_refl eq_refl).
Defined.

End dxf_witnesses.
